(** * Productivity scoring: a shallow embedding of [src/lib/scoring.ts]
    and of the session timer that calls it

    The scoring module is three pure functions over ECMAScript numbers and
    dates.  The embedding keeps the source's types apart:

    - a [Date] is its time value, an integral number of milliseconds, and is
      modelled as [Z]; so is the whole-minute delay, which the source obtains
      with [Math.floor].  [getDelayMinutes] computes on these integers;
      [getDelayMinutes_binary64] is the same function as the engine
      evaluates it, on doubles, and the two are proved to agree for dates
      at most 2^53 ms (some 285 000 years) apart;
    - every other [number] is an IEEE-754 binary64 value and is modelled by
      Rocq's primitive [float], whose [+], [-], [*] and [/] are the
      round-to-nearest-even operations ECMAScript prescribes;
    - [Math.round], [Math.floor], [Math.min] and [Math.max] follow ECMA-262
      case by case;
    - [Math.exp] is "implementation-approximated" in ECMA-262 outside four
      special arguments, so the approximated part is a parameter
      ([exp_impl]) of the scoring functions; [Fdlibm.exp] is the algorithm
      of fdlibm's [e_exp.c], on which V8 and SpiderMonkey build, and serves
      to evaluate the functions on concrete inputs.

    Statements about all doubles are proved from the specification of the
    primitive operations in the Standard Library ([FloatAxioms]), through
    the real value [F2R m e = m * 2^e] of a mantissa and an exponent.

    The session timer ([src/components/SessionTimer.tsx]) is a React
    component; its state hooks are a record, its handlers and effects are
    functions from state to state, and what it writes to the database is
    returned as a value.  Its counters and its seconds are whole numbers
    and are modelled as [Z]; the local-time readings of a [Date]
    ([getHours], [setHours], [toDateString]) depend on the time zone and
    are parameters.  The dashboard ([src/components/Dashboard.tsx])
    contributes its pure helpers. *)

From Stdlib Require Import ZArith QArith Qround Reals Floats Bool List Lia Lra.
From Stdlib Require Qreals.
From Stdlib Require Import String.
From Stdlib Require Decimal DecimalString DecimalPos DecimalZ.
Import ListNotations.

#[local] Set Warnings "-inexact-float".

(** * The program *)

(** ** ECMAScript numeric primitives on binary64 *)

Module JS.

(** The double nearest to an integer (exact for magnitudes up to 2^53). *)
Definition Z2F (z : Z) : float :=
  SF2Prim (binary_normalize prec emax z 0 false).

(** Signed integer mantissa of a finite double: the value is
    [signed s m * 2^e]. *)
Definition signed (s : bool) (m : positive) : Z :=
  if s then Z.neg m else Z.pos m.

(** [floor (x + 1/2)] of the finite double [signed s m * 2^e], computed
    exactly on integers.  [Z.shiftr] rounds toward minus infinity. *)
Definition round_half_up (s : bool) (m : positive) (e : Z) : Z :=
  if (0 <=? e)%Z then (signed s m * 2 ^ e)%Z
  else Z.shiftr (2 * signed s m + 2 ^ (- e)) (1 - e).

(** [Math.round]: the integral number closest to [x], ties toward
    +infinity; NaN, infinities and zeros are returned unchanged, and a
    result of zero keeps the sign of [x]. *)
Definition Math_round (x : float) : float :=
  match Prim2SF x with
  | S754_finite s m e =>
      if (0 <=? e)%Z then x
      else
        let n := round_half_up s m e in
        if (n =? 0)%Z then (if s then neg_zero else zero) else Z2F n
  | _ => x
  end.

(** [Math.floor]: the greatest integral number not above [x]; NaN,
    infinities and zeros are returned unchanged.  [Z.shiftr] rounds toward
    minus infinity. *)
Definition Math_floor (x : float) : float :=
  match Prim2SF x with
  | S754_finite s m e =>
      if (0 <=? e)%Z then x else Z2F (Z.shiftr (signed s m) (- e))
  | _ => x
  end.

(** [Math.min] and [Math.max] of two arguments: NaN is contagious and
    [-0] is smaller than [+0]. *)
Definition Math_min (a b : float) : float :=
  if is_nan a || is_nan b then nan
  else if (a <? b)%float then a
  else if (b <? a)%float then b
  else if get_sign a then a else b.

Definition Math_max (a b : float) : float :=
  if is_nan a || is_nan b then nan
  else if (a <? b)%float then b
  else if (b <? a)%float then a
  else if get_sign a then b else a.

(** [Math.exp]: the four arguments ECMA-262 fixes, and the
    implementation's approximation elsewhere. *)
Definition Math_exp (exp_impl : float -> float) (x : float) : float :=
  if is_nan x then nan
  else if (x =? infinity)%float then infinity
  else if is_zero x then 1%float
  else if (x =? neg_infinity)%float then 0%float
  else exp_impl x.

End JS.

(** ** fdlibm's exponential

    [__ieee754_exp] of fdlibm 5.3.  The tests on the high word [hx] of [x]
    are written as the equivalent comparisons on [abs x]; adding [k] to the
    exponent field is [Z.ldexp]. *)

Module Fdlibm.

Local Open Scope float_scope.

Definition halF (xsb : bool) : float := if xsb then -0.5 else 0.5.
Definition twom1000 : float := 0x1p-1000.
Definition o_threshold : float := 0x1.62e42fefa39efp+9.
Definition u_threshold : float := -0x1.74910d52d3051p+9.
Definition ln2HI : float := 0x1.62e42feep-1.
Definition ln2LO : float := 0x1.a39ef35793c76p-33.
Definition invln2 : float := 0x1.71547652b82fep+0.
Definition P1 : float := 0x1.555555555553ep-3.
Definition P2 : float := -0x1.6c16c16bebd93p-9.
Definition P3 : float := 0x1.1566aaf25de2cp-14.
Definition P4 : float := -0x1.bbd41c5d26bf1p-20.
Definition P5 : float := 0x1.6376972bea4d0p-25.

(** The C cast [(int) x]: truncation toward zero. *)
Definition to_int (x : float) : Z :=
  match Prim2SF x with
  | S754_finite s m e =>
      let a := Z.shiftl (Z.pos m) e in if s then Z.opp a else a
  | _ => 0%Z
  end.

(** The polynomial step on the reduced argument [x = hi - lo], followed by
    the scaling by [2^k]. *)
Definition exp_kernel (k : Z) (hi lo x : float) : float :=
  let t := x * x in
  let c := x - t * (P1 + t * (P2 + t * (P3 + t * (P4 + t * P5)))) in
  if (k =? 0)%Z then 1 - ((x * c) / (c - 2) - x)
  else
    let y := 1 - ((lo - (x * c) / (2 - c)) - hi) in
    if (-1021 <=? k)%Z then Z.ldexp y k
    else Z.ldexp y (k + 1000) * twom1000.

Definition exp (x : float) : float :=
  let xsb := (x <? 0) in
  let ax := abs x in
  if is_nan x then x + x
  else if is_infinity x then (if xsb then 0 else x)
  else if (o_threshold <? x) then infinity
  else if (x <? u_threshold) then twom1000 * twom1000
  else if (0x1.62e43p-2 <=? ax) then
    if (ax <? 0x1.0a2b2p+0) then
      let hi := if xsb then x + ln2HI else x - ln2HI in
      let lo := if xsb then - ln2LO else ln2LO in
      exp_kernel (if xsb then -1 else 1) hi lo (hi - lo)
    else
      let k := to_int (invln2 * x + halF xsb) in
      let t := JS.Z2F k in
      let hi := x - t * ln2HI in
      let lo := t * ln2LO in
      exp_kernel k hi lo (hi - lo)
  else if (ax <? 0x1p-28) then 1 + x
  else exp_kernel 0 0 0 x.

End Fdlibm.

(** ** The scoring module *)

(** [ProductivityScoreInput]: the two dates are time values in
    milliseconds. *)
Record ProductivityScoreInput := {
  scheduledStart : Z;
  actualStart : Z;
  durationMinutes : float;
  completedMinutes : float
}.

Record ScoreBreakdown := {
  promptnessScore : float;
  focusScore : float;
  commitmentBonus : float;
  totalScore : float
}.

(** [getDelayMinutes] on the time values as integers: [Math.floor] of the
    quotient of the millisecond difference by [1000 * 60]; [Z.div] rounds
    toward minus infinity. *)
Definition getDelayMinutes (scheduledStart actualStart : Z) : Z :=
  let delayMilliseconds := (actualStart - scheduledStart)%Z in
  (delayMilliseconds / (1000 * 60))%Z.

(** The time values of valid [Date]s (ECMA-262, time range). *)
Definition valid_time (t : Z) : Prop := (Z.abs t <= 8640000000000000)%Z.

(** [getTime] of a valid [Date]: its time value, as a double. *)
Definition getTime (timeValue : Z) : float := JS.Z2F timeValue.

(** [getDelayMinutes] as the engine evaluates it: the two time values are
    doubles, the subtraction and the division are double operations, and
    [Math.floor] is taken of the double quotient. *)
Definition getDelayMinutes_binary64 (scheduledStart actualStart : Z)
  : float :=
  let delayMilliseconds :=
    (getTime actualStart - getTime scheduledStart)%float in
  JS.Math_floor (delayMilliseconds / (1000 * 60))%float.

(** [getCompletionPercentage]: the guard on the duration, then the ratio,
    scaled, rounded and clamped, each step in double arithmetic. *)
Definition getCompletionPercentage
    (completedMinutes durationMinutes : float) : float :=
  if (durationMinutes <=? 0)%float then 0%float
  else
    let ratio := (completedMinutes / durationMinutes)%float in
    JS.Math_max 0 (JS.Math_min 100 (JS.Math_round (ratio * 100)%float)).

Section Pillars.

Local Open Scope float_scope.

(** Pillar 1: the promptness score before rounding, as the [if]/[else if]
    chain on [delayMinutes]; the two linear branches are named after the
    source's comments. *)
Definition gentlePenalty (delayMinutes : Z) : float :=
  30 - 1.875 * (JS.Z2F delayMinutes - 2).

Definition steepPenalty (delayMinutes : Z) : float :=
  15 - 0.75 * (JS.Z2F delayMinutes - 10).

Definition promptness (delayMinutes : Z) : float :=
  if (delayMinutes <=? 2)%Z then 30
  else if (delayMinutes <=? 10)%Z then gentlePenalty delayMinutes
  else if (delayMinutes <=? 30)%Z then steepPenalty delayMinutes
  else 0.

(** Pillar 2: the focus score before rounding. *)
Definition focus (completedMinutes durationMinutes : float) : float :=
  let completionPercentage :=
    getCompletionPercentage completedMinutes durationMinutes in
  (completionPercentage / 100) * 60.

End Pillars.

Section Scoring.

(** The engine's approximation of the exponential. *)
Variable exp_impl : float -> float.

Local Open Scope float_scope.

(** Pillar 3: the commitment bonus before rounding. *)
Definition maxBonus : float := 10.

Definition commitment (completedMinutes : float) : float :=
  (maxBonus + 0.5)
  / (1 + JS.Math_exp exp_impl (-0.07 * (completedMinutes - 45))).

(** The capped sum of the three unrounded pillars. *)
Definition total (p f c : float) : float := JS.Math_min 100 (p + f + c).

Definition calculateProductivityScore
    (input : ProductivityScoreInput) : ScoreBreakdown :=
  let delayMinutes :=
    getDelayMinutes (scheduledStart input) (actualStart input) in
  let p := promptness delayMinutes in
  let f := focus (completedMinutes input) (durationMinutes input) in
  let c := commitment (completedMinutes input) in
  let t := total p f c in
  {| promptnessScore := JS.Math_round p;
     focusScore := JS.Math_round f;
     commitmentBonus := JS.Math_round c;
     totalScore := JS.Math_round t |}.

End Scoring.

(** ** The session timer

    [SessionTimer.tsx].  What the handlers send to the database
    ([supabase]) or to [localStorage] is returned as a value where a
    property depends on it (the stored entry of [handleStart], the log and
    the statistics of [submitReflection]); the status updates of the
    [sessions] table, the removal of the stored entry and the [onComplete]
    callback are not part of the state and are left out. *)

Module SessionTimer.

(** [StoredSessionState], as parsed from [localStorage]: the ISO string of
    the start is the time value it denotes. *)
Record StoredSessionState := {
  sessionId : string;
  startTime : Z
}.

(** The [session] prop; [scheduled_start] is the time value of its ISO
    string. *)
Record Session := {
  id : string;
  task_name : string;
  scheduled_start : Z;
  duration_minutes : Z;
  status : string
}.

(** The component's state hooks ([intervalRef] is the running interval,
    which exists exactly while [isRunning]). *)
Record State := {
  timeRemaining : Z;
  isRunning : bool;
  actualStart : option Z;
  showReflection : bool;
  showEndEarlyConfirm : bool;
  endEarlyCountdown : Z;
  reflection : string
}.

Definition setTimeRemaining (v : Z) (st : State) : State :=
  {| timeRemaining := v; isRunning := isRunning st;
     actualStart := actualStart st; showReflection := showReflection st;
     showEndEarlyConfirm := showEndEarlyConfirm st;
     endEarlyCountdown := endEarlyCountdown st;
     reflection := reflection st |}.

Definition setIsRunning (v : bool) (st : State) : State :=
  {| timeRemaining := timeRemaining st; isRunning := v;
     actualStart := actualStart st; showReflection := showReflection st;
     showEndEarlyConfirm := showEndEarlyConfirm st;
     endEarlyCountdown := endEarlyCountdown st;
     reflection := reflection st |}.

Definition setActualStart (v : option Z) (st : State) : State :=
  {| timeRemaining := timeRemaining st; isRunning := isRunning st;
     actualStart := v; showReflection := showReflection st;
     showEndEarlyConfirm := showEndEarlyConfirm st;
     endEarlyCountdown := endEarlyCountdown st;
     reflection := reflection st |}.

Definition setShowReflection (v : bool) (st : State) : State :=
  {| timeRemaining := timeRemaining st; isRunning := isRunning st;
     actualStart := actualStart st; showReflection := v;
     showEndEarlyConfirm := showEndEarlyConfirm st;
     endEarlyCountdown := endEarlyCountdown st;
     reflection := reflection st |}.

Definition setShowEndEarlyConfirm (v : bool) (st : State) : State :=
  {| timeRemaining := timeRemaining st; isRunning := isRunning st;
     actualStart := actualStart st; showReflection := showReflection st;
     showEndEarlyConfirm := v;
     endEarlyCountdown := endEarlyCountdown st;
     reflection := reflection st |}.

Definition setEndEarlyCountdown (v : Z) (st : State) : State :=
  {| timeRemaining := timeRemaining st; isRunning := isRunning st;
     actualStart := actualStart st; showReflection := showReflection st;
     showEndEarlyConfirm := showEndEarlyConfirm st;
     endEarlyCountdown := v;
     reflection := reflection st |}.

(** The initial values of the hooks. *)
Definition initial (session : Session) : State :=
  {| timeRemaining := duration_minutes session * 60;
     isRunning := false;
     actualStart := None;
     showReflection := false;
     showEndEarlyConfirm := false;
     endEarlyCountdown := 15;
     reflection := EmptyString |}.

Definition handleComplete (st : State) : State :=
  setShowReflection true (setIsRunning false st).

(** The mount effect: resume a timer found in [localStorage].  [stored] is
    the entry [JSON.parse] returns, if there is one ([None] also stands for
    an absent or empty item); [now] is the current time value. *)
Definition restore (session : Session) (stored : option StoredSessionState)
    (now : Z) (st : State) : State :=
  match stored with
  | Some storedState =>
      if String.eqb (sessionId storedState) (id session) then
        let startTime := startTime storedState in
        let elapsedSeconds := ((now - startTime) / 1000)%Z in
        let remaining :=
          (duration_minutes session * 60 - elapsedSeconds)%Z in
        if (0 <? remaining)%Z then
          setIsRunning true
            (setTimeRemaining remaining
               (setActualStart (Some startTime) st))
        else handleComplete st
      else st
  | None => st
  end.

(** One firing of the countdown interval, which runs while [isRunning]. *)
Definition tick (st : State) : State :=
  if isRunning st then
    if (timeRemaining st <=? 1)%Z
    then setTimeRemaining 0 (handleComplete st)
    else setTimeRemaining (timeRemaining st - 1) st
  else st.

(** One firing of the interval of the end-early confirmation. *)
Definition endEarlyTick (st : State) : State :=
  if showEndEarlyConfirm st && (0 <? endEarlyCountdown st)%Z then
    if (endEarlyCountdown st <=? 1)%Z
    then setEndEarlyCountdown 0 st
    else setEndEarlyCountdown (endEarlyCountdown st - 1) st
  else st.

(** [handleStart] is a closure of the render that created it: called from
    the render whose state is [render], it reads that render's
    [actualStart] and queues its updates on the pending state [st].  The
    first start records the time and writes the stored entry (the second
    component of the result). *)
Definition handleStartOf (render : State) (session : Session) (now : Z)
    (st : State) : State * option StoredSessionState :=
  match actualStart render with
  | None =>
      (setIsRunning true (setActualStart (Some now) st),
       Some {| sessionId := id session; startTime := now |})
  | Some _ => (setIsRunning true st, None)
  end.

(** [handleStart] called from a click: the render is the current one. *)
Definition handleStart (session : Session) (now : Z) (st : State)
  : State * option StoredSessionState :=
  handleStartOf st session now st.

(** The auto-start effect of the render whose state is [render]: a session
    opened with [startImmediately] that this render sees neither running
    nor started is started. *)
Definition autoStart (startImmediately : bool) (session : Session)
    (now : Z) (render st : State) : State * option StoredSessionState :=
  if startImmediately && negb (isRunning render)
     && match actualStart render with None => true | Some _ => false end
  then handleStartOf render session now st
  else (st, None).

(** The mount.  Both effects belong to the first render, whose state is
    [initial session]: the mount effect queues its updates at [now], the
    auto-start effect, which still sees the initial state, queues its own
    at [startNow], and an update queued later overrides an earlier one of
    the same hook.  The second component is the entry written to
    [localStorage], if any. *)
Definition mount (startImmediately : bool) (session : Session)
    (stored : option StoredSessionState) (now startNow : Z)
  : State * option StoredSessionState :=
  let render := initial session in
  autoStart startImmediately session startNow render
    (restore session stored now render).

Definition handleEndEarly (st : State) : State :=
  setShowEndEarlyConfirm true
    (setEndEarlyCountdown 15 (setIsRunning false st)).

Definition confirmEndEarly (st : State) : State :=
  setShowReflection true (setShowEndEarlyConfirm false st).

Definition cancelEndEarly (st : State) : State :=
  setIsRunning true (setShowEndEarlyConfirm false st).

(** The row of [user_stats] and the row written to [session_logs]. *)
Record UserStats := {
  current_streak : Z;
  longest_streak : Z;
  total_sessions : Z;
  total_on_time : Z;
  total_completed : Z;
  average_score : float;
  last_session_date : string
}.

Record SessionLog := {
  session_id : string;
  user_id : string;
  actual_start : Z;
  actual_end : Z;
  start_delay_minutes : Z;
  completion_percentage : float;
  was_paused : bool;
  pause_duration_minutes : Z;
  reflection_note : option string;
  productivity_score : float
}.

Section SubmitReflection.

(** The engine's exponential and the local-time readings of a time value:
    [getHours], and the time value [setHours(23, 59, 59, 999)] leaves. *)
Variable exp_impl : float -> float.
Variable getHours : Z -> Z.
Variable endOfDay : Z -> Z.

(** The auto-fail deadline of a session scheduled at [scheduledDate]. *)
Definition deadline (scheduledDate : Z) : Z :=
  if (20 <=? getHours scheduledDate)%Z
  then (scheduledDate + 12 * 60 * 60 * 1000)%Z
  else endOfDay scheduledDate.

Definition completedMinutes (session : Session) (st : State) : Z :=
  let completedSeconds :=
    (duration_minutes session * 60 - timeRemaining st)%Z in
  (completedSeconds / 60)%Z.

Definition score (session : Session) (actualStart : Z) (st : State)
  : ScoreBreakdown :=
  calculateProductivityScore exp_impl
    (Build_ProductivityScoreInput
       (scheduled_start session) actualStart
       (JS.Z2F (duration_minutes session))
       (JS.Z2F (completedMinutes session st))).

Definition finalScore (session : Session) (actualStart : Z) (st : State)
  : float :=
  if (deadline (scheduled_start session) <? actualStart)%Z then 0%float
  else totalScore (score session actualStart st).

Definition wasOnTime (session : Session) (actualStart : Z) : bool :=
  (actualStart <=? deadline (scheduled_start session))%Z
  && (getDelayMinutes (scheduled_start session) actualStart <=? 1)%Z.

Definition completionPercentage (session : Session) (st : State) : float :=
  getCompletionPercentage (JS.Z2F (completedMinutes session st))
    (JS.Z2F (duration_minutes session)).

Definition wasCompleted (session : Session) (st : State) : bool :=
  (100 <=? completionPercentage session st)%float.

(** The row of [user_stats] after the session: an update of the existing
    row, or the first row. *)
Definition newStats (existingStats : option UserStats)
    (wasOnTime wasCompleted : bool) (finalScore : float) (today : string)
  : UserStats :=
  match existingStats with
  | Some existingStats =>
      let newStreak :=
        if wasOnTime && wasCompleted
        then (current_streak existingStats + 1)%Z else 0%Z in
      {| current_streak := newStreak;
         longest_streak := Z.max newStreak (longest_streak existingStats);
         total_sessions := total_sessions existingStats + 1;
         total_on_time :=
           total_on_time existingStats + (if wasOnTime then 1 else 0);
         total_completed :=
           total_completed existingStats + (if wasCompleted then 1 else 0);
         average_score :=
           ((average_score existingStats
             * JS.Z2F (total_sessions existingStats) + finalScore)
            / JS.Z2F (total_sessions existingStats + 1))%float;
         last_session_date := today |}
  | None =>
      {| current_streak := if wasOnTime && wasCompleted then 1 else 0;
         longest_streak := if wasOnTime && wasCompleted then 1 else 0;
         total_sessions := 1;
         total_on_time := if wasOnTime then 1 else 0;
         total_completed := if wasCompleted then 1 else 0;
         average_score := finalScore;
         last_session_date := today |}
  end.

(** [submitReflection]: nothing without a user or a start time; otherwise
    the log row and the new statistics.  [now] is the current time value
    and [today] its ISO date. *)
Definition submitReflection (session : Session) (user : option string)
    (existingStats : option UserStats) (now : Z) (today : string)
    (st : State) : option (SessionLog * UserStats) :=
  match user, actualStart st with
  | Some user, Some actualStart =>
      let finalScore := finalScore session actualStart st in
      let delayMinutes :=
        getDelayMinutes (scheduled_start session) actualStart in
      let wasOnTime := wasOnTime session actualStart in
      let completionPercentage := completionPercentage session st in
      let wasCompleted := wasCompleted session st in
      Some
        ({| session_id := id session;
            user_id := user;
            actual_start := actualStart;
            actual_end := now;
            start_delay_minutes := delayMinutes;
            completion_percentage := completionPercentage;
            was_paused := false;
            pause_duration_minutes := 0;
            reflection_note :=
              if String.eqb (reflection st) EmptyString then None
              else Some (reflection st);
            productivity_score := finalScore |},
         newStats existingStats wasOnTime wasCompleted finalScore today)
  | _, _ => None
  end.

End SubmitReflection.

(** [String(n)] for an integer, and [padStart]: the pad string is
    repeated and cut to the missing length; an empty pad string pads
    nothing. *)
Definition String_of_Z (n : Z) : string :=
  DecimalString.NilZero.string_of_int (Z.to_int n).

Fixpoint repeat_string (padString : string) (n : nat) : string :=
  match n with
  | O => EmptyString
  | S n => (padString ++ repeat_string padString n)%string
  end.

Definition padStart (targetLength : nat) (padString s : string) : string :=
  let fillLength := (targetLength - String.length s)%nat in
  if String.eqb padString EmptyString then s
  else (substring 0 fillLength (repeat_string padString fillLength) ++ s)%string.

Definition formatTime (seconds : Z) : string :=
  let mins := (seconds / 60)%Z in
  let secs := Z.rem seconds 60 in
  (padStart 2 "0" (String_of_Z mins) ++ ":"
   ++ padStart 2 "0" (String_of_Z secs))%string.

End SessionTimer.

(** ** The dashboard and the session form

    The pure helpers of [Dashboard.tsx] and of the session form
    ([CreateSession], [CreateSessionModal]). *)

Module Dashboard.

(** [handleDayClick] of the session form: the updater applied to the
    selected days [prev]. *)
Definition handleDayClick (dayValue : string) (prev : list string)
  : list string :=
  if existsb (String.eqb dayValue) prev
  then filter (fun d => negb (String.eqb d dayValue)) prev
  else prev ++ [dayValue].

(** [formatTimeUntil] of an upcoming session: [diff] is the scheduled time
    value less the current one, in milliseconds. *)
Definition formatTimeUntil (diff : Z) : string :=
  if (diff <=? 0)%Z then "Ready now"
  else
    let minutes := (diff / 60000)%Z in
    let hours := (minutes / 60)%Z in
    if (24 <=? hours)%Z
    then ("in " ++ SessionTimer.String_of_Z (hours / 24) ++ "d")%string
    else if (0 <? hours)%Z
    then ("in " ++ SessionTimer.String_of_Z hours ++ "h "
          ++ SessionTimer.String_of_Z (Z.rem minutes 60) ++ "m")%string
    else if (minutes <? 1)%Z then "soon"
    else ("in " ++ SessionTimer.String_of_Z minutes ++ "m")%string.

(** A row of [session_logs] as the dashboard reads it; [created_at] is
    the time value of its ISO string. *)
Record SessionLog := {
  productivity_score : float;
  created_at : Z
}.

(** [calculateAverageInRange]: the mean score of the logs created from
    [startDate] to [endDate], or [null] when there is none. *)
Definition calculateAverageInRange (logs : list SessionLog)
    (startDate endDate : Z) : option float :=
  let filteredLogs :=
    filter (fun log => (startDate <=? created_at log)%Z
                       && (created_at log <=? endDate)%Z) logs in
  if Nat.eqb (List.length filteredLogs) 0 then None
  else
    Some (fold_left (fun sum l => sum + productivity_score l)%float
            filteredLogs 0%float
          / JS.Z2F (Z.of_nat (List.length filteredLogs)))%float.

Section LocalTime.

(** The local-time readings of a time value: the hour, the calendar day as
    [toDateString] prints it, and the time values [setHours(0, 0, 0, 0)]
    and [setHours(23, 59, 59, 999)] leave. *)
Variable getHours : Z -> Z.
Variable toDateString : Z -> string.
Variable startOfDay : Z -> Z.
Variable endOfDay : Z -> Z.

(** [calculateAverageOnDate]: the mean score of the logs created on the
    local day of [targetDate]. *)
Definition calculateAverageOnDate (logs : list SessionLog) (targetDate : Z)
  : option float :=
  let startOfDay := startOfDay targetDate in
  let endOfDay := endOfDay targetDate in
  let filteredLogs :=
    filter (fun log =>
              let logDate := created_at log in
              (startOfDay <=? logDate)%Z && (logDate <=? endOfDay)%Z) logs in
  if Nat.eqb (List.length filteredLogs) 0 then None
  else
    Some (fold_left (fun sum l => sum + productivity_score l)%float
            filteredLogs 0%float
          / JS.Z2F (Z.of_nat (List.length filteredLogs)))%float.

(** The test of [loadData] on a session still scheduled: past its start,
    it is overdue when the day has changed and it was scheduled before
    20:00 or more than eight hours ago. *)
Definition isOverdue (now scheduledStart : Z) : bool :=
  if (scheduledStart <? now)%Z then
    let scheduledHour := getHours scheduledStart in
    let eightHourGracePeriod := (8 * 60 * 60 * 1000)%Z in
    let isDifferentDay :=
      negb (String.eqb (toDateString now) (toDateString scheduledStart)) in
    if isDifferentDay then
      (scheduledHour <? 20)%Z
      || (eightHourGracePeriod <? now - scheduledStart)%Z
    else false
  else false.

End LocalTime.

End Dashboard.

(** * Values, ranges and the specification's formulas *)

(** ** The real value of a double

    A finite double is a sign, a mantissa [m] and an exponent [e]; its
    magnitude is [F2R m e].  The representation [Prim2SF] returns is
    canonical: the exponent is the one [fexp] assigns to the number's
    magnitude. *)

Abbreviation fexp := (SpecFloat.fexp prec emax).
Abbreviation valid := (SpecFloat.valid_binary prec emax).

Definition bpow (e : Z) : R := powerRZ 2 e.

Definition F2R (m e : Z) : R := (IZR m * bpow e)%R.

Definition digits (p : positive) : Z := Z.pos (digits2_pos p).

Definition canon (p : positive) (e : Z) : Prop := e = fexp (digits p + e).

(** The mantissas of 1, 100 and 10.5 (exponents -52, -46 and -49). *)
Definition m_one : positive := 4503599627370496.
Definition m_100 : positive := 7036874417766400.
Definition m_10_5 : positive := 5910974510923776.

(** Mantissas of 45 and 720 (one mantissa, two exponents), of 0.07, of 750
    and of the thresholds of fdlibm's exponential. *)
Definition m_45 : positive := 6333186975989760.
Definition m_0_07 : positive := 5044031582654956.
Definition m_750 : positive := 6597069766656000.
Definition m_u_threshold : positive := 6554261109157969.
Definition m_o_threshold : positive := 6243314768165359.

(** Mantissas of 10300, 10755 and 10800. *)
Definition m_10300 : positive := 5662484883046400.
Definition m_10755 : positive := 5912623778365440.
Definition m_10800 : positive := 5937362789990400.

(** Mantissa of 60000 (exponent -37). *)
Definition m_60000 : positive := 8246337208320000.

(** [x] is +infinity or a positive number of magnitude at least
    [F2R P E]. *)
Definition at_least (P : positive) (E : Z) (x : float) : Prop :=
  Prim2SF x = S754_infinity false
  \/ exists q e, Prim2SF x = S754_finite false q e
                 /\ (F2R (Z.pos P) E <= F2R (Z.pos q) e)%R.

(** [x] is a zero, a negative number or -infinity. *)
Definition nonpos (x : float) : Prop :=
  match Prim2SF x with
  | S754_zero _ | S754_finite true _ _ | S754_infinity true => True
  | _ => False
  end.

(** [x] is a zero, a positive number or +infinity. *)
Definition nonneg (x : float) : Prop :=
  match Prim2SF x with
  | S754_zero _ | S754_finite false _ _ | S754_infinity false => True
  | _ => False
  end.

(** [x] is the infinity of sign [s] or a finite number of sign [s] and of
    magnitude at least [F2R P E]. *)
Definition magnitude_at_least (s : bool) (P : positive) (E : Z) (x : float)
  : Prop :=
  Prim2SF x = S754_infinity s
  \/ exists q e, Prim2SF x = S754_finite s q e
                 /\ (F2R (Z.pos P) E <= F2R (Z.pos q) e)%R.

(** Where the exact value [v] lies between the truncated mantissa [m] at
    exponent [e] and the next one, as the rounding functions record it. *)
Definition inbetween (m e : Z) (l : location) (v : R) : Prop :=
  match l with
  | loc_Exact => v = F2R m e
  | loc_Inexact Lt => (F2R m e < v < F2R (2 * m + 1) (e - 1))%R
  | loc_Inexact Eq => v = F2R (2 * m + 1) (e - 1)
  | loc_Inexact Gt => (F2R (2 * m + 1) (e - 1) < v < F2R (m + 1) e)%R
  end.

Definition positive_finite (x : float) : bool :=
  match Prim2SF x with
  | S754_finite false _ _ => true
  | _ => false
  end.

(** The rational a finite double denotes, in lowest terms. *)
Definition F2Q (x : float) : option Q :=
  match Prim2SF x with
  | S754_zero _ => Some 0%Q
  | S754_finite s m e => Some (Qred (inject_Z (JS.signed s m) * 2 ^ e)%Q)
  | _ => None
  end.

(** The double [x] denotes the rational [q]. *)
Definition denotes (x : float) (q : Q) : bool :=
  match F2Q x with
  | Some v => Qeq_bool v q
  | None => false
  end.

(** The [n] consecutive integers from [lo]. *)
Definition Zrange (lo n : Z) : list Z :=
  map (fun i => (lo + Z.of_nat i)%Z) (seq 0 (Z.to_nat n)).

(** ** The specification's formulas in exact arithmetic *)

(** The promptness table, row by row, on exact rationals. *)
Definition promptness_table (delay : Z) (q : Q) : Prop :=
  ((delay <= 2)%Z -> q == 30)
  /\ ((2 < delay <= 10)%Z -> q == 30 - 1.875 * (inject_Z delay - 2))
  /\ ((10 < delay <= 30)%Z -> q == 15 - 0.75 * (inject_Z delay - 10))
  /\ ((30 < delay)%Z -> q == 0).

(** The completion percentage on exact rationals: [100 * c / d] rounded
    to the nearest integer, ties upward as [Math.round] does, and clamped
    to [0, 100]. *)
Definition percentage_exact (c d : Z) : Z :=
  if (d <=? 0)%Z then 0%Z
  else
    Z.max 0
      (Z.min 100 (Qfloor (100 * (inject_Z c / inject_Z d) + (1 # 2)))).

(** The commitment expression of the source read over the real numbers,
    without rounding: the logistic curve the doubles approximate. *)
Definition commitment_exact (completedMinutes : R) : R :=
  ((10 + 0.5) / (1 + exp (-0.07 * (completedMinutes - 45))))%R.

(** ** Enclosures of the exponential

    Non-negative reals are enclosed between fixed-point numbers with 120
    binary places: the integer [n] stands for [n / 2^120]; products are
    rounded down for lower bounds and up for upper bounds. *)
Definition fixed_one : Z := 2 ^ 120.

Definition mul_down (a b : Z) : Z := Z.shiftr (a * b) 120.

Definition mul_up (a b : Z) : Z := Z.shiftr (a * b + (fixed_one - 1)) 120.

(** Bounds of [e^(p / 100)] from [1 + y <= e^y <= 1 / (1 - y)] at
    [y = p / (100 * 2^m)], squared [m] times. *)
Definition exp_down (p : Z) (m : nat) : Z :=
  let d := (100 * 2 ^ Z.of_nat m)%Z in
  Nat.iter m (fun a => mul_down a a) (fixed_one * (d + p) / d)%Z.

Definition exp_up (p : Z) (m : nat) : Z :=
  let d := (100 * 2 ^ Z.of_nat m)%Z in
  Nat.iter m (fun a => mul_up a a)
    ((fixed_one * d + (d - p - 1)) / (d - p))%Z.

(** The double [x] is within [eps] of [10.5 / (1 + e)] for every [e]
    between the two bounds. *)
Definition within_logistic (eps : Q) (bounds : Z * Z) (x : float) : bool :=
  match F2Q x with
  | Some q =>
      Qle_bool ((q - eps) * inject_Z (fixed_one + snd bounds))
        ((21 # 2) * inject_Z fixed_one)
      && Qle_bool ((21 # 2) * inject_Z fixed_one)
           ((q + eps) * inject_Z (fixed_one + fst bounds))
  | None => false
  end.

(** [n] whole minutes from [c] on, in steps of [dir]: the bonus with
    fdlibm's exponential is within [eps] of the logistic curve, [bounds]
    enclosing [e^(-0.07 * (c - 45))] and [step] enclosing
    [e^(-0.07 * dir)]. *)
Fixpoint logistic_run (eps : Q) (step : Z * Z) (dir : Z) (n : nat)
    (bounds : Z * Z) (c : Z) : bool :=
  match n with
  | O => true
  | S n =>
      within_logistic eps bounds (commitment Fdlibm.exp (JS.Z2F c))
      && logistic_run eps step dir n
           (mul_down (fst bounds) (fst step), mul_up (snd bounds) (snd step))
           (c + dir)
  end.

Definition logistic_error : Q := 1 # 100000000000000.

(** The real number a fixed-point number stands for. *)
Definition fixed_value (n : Z) : R := (IZR n / IZR fixed_one)%R.

(** ** Sessions used below *)

(** A session of 45 minutes, completed in full, started five minutes
    late. *)
Definition five_minutes_late : ProductivityScoreInput :=
  {| scheduledStart := 0; actualStart := 5 * 60000;
     durationMinutes := 45; completedMinutes := 45 |}.

(** The first scenario of the specification: 45 minutes planned, 45
    completed, started on time. *)
Definition full_session_on_time : ProductivityScoreInput :=
  {| scheduledStart := 0; actualStart := 0;
     durationMinutes := 45; completedMinutes := 45 |}.

(** A ten-hour session, completed in full, started on time. *)
Definition ten_hour_session : ProductivityScoreInput :=
  {| scheduledStart := 0; actualStart := 0;
     durationMinutes := 600; completedMinutes := 600 |}.

(** The unrounded commitment bonus for a whole number of completed
    minutes, with fdlibm's exponential. *)
Definition bonus_at (c : Z) : float := commitment Fdlibm.exp (JS.Z2F c).

(** [x] is +0, a positive number or +infinity. *)
Definition zero_or_positive (x : float) : bool :=
  match Prim2SF x with
  | S754_zero false | S754_finite false _ _ | S754_infinity false => true
  | _ => false
  end.

(** The rounded focus and promptness scores in integer arithmetic:
    [floor (x + 1/2)] of [60 * n / 100] and of the table's value. *)
Definition focusScore_exact (percentage : Z) : Z :=
  ((60 * percentage + 50) / 100)%Z.

Definition promptnessScore_exact (delay : Z) : Z :=
  if (delay <=? 2)%Z then 30%Z
  else if (delay <=? 10)%Z then ((8 * 30 - 15 * (delay - 2) + 4) / 8)%Z
  else if (delay <=? 30)%Z then ((8 * 15 - 6 * (delay - 10) + 4) / 8)%Z
  else 0%Z.

(** What is checked of the completion percentage of [c] out of [d] whole
    minutes: it is the exactly rounded percentage, or one below it at a tie;
    it reaches 100 only for a full session or, from 200 minutes on, one
    minute short of it; and one more completed minute does not lower it. *)
Definition percentage_check (d c : Z) : bool :=
  let p := getCompletionPercentage (JS.Z2F c) (JS.Z2F d) in
  let exact := percentage_exact c d in
  (Leibniz.eqb p (JS.Z2F exact)
   || (Leibniz.eqb p (JS.Z2F (exact - 1))
       && ((200 * c) mod (2 * d) =? d)%Z))
  && Bool.eqb (100 <=? p)%float
       ((c =? d)%Z || ((200 <=? d)%Z && (c =? d - 1)%Z))
  && (if (c <? d)%Z
      then (p <=? getCompletionPercentage (JS.Z2F (c + 1)) (JS.Z2F d))%float
      else true).

(** ** The session timer's surroundings used below *)

(** The local-time readings of a time value in the UTC time zone. *)
Definition utc_getHours (t : Z) : Z := ((t / 3600000) mod 24)%Z.
Definition utc_endOfDay (t : Z) : Z := (t - t mod 86400000 + 86399999)%Z.

(** A 45-minute session scheduled at the epoch, and its timer started 30
    seconds late, at its last tick. *)
Definition morning_session : SessionTimer.Session :=
  {| SessionTimer.id := "s1"; SessionTimer.task_name := "Reading";
     SessionTimer.scheduled_start := 0;
     SessionTimer.duration_minutes := 45;
     SessionTimer.status := "in_progress" |}.

Definition morning_session_done : SessionTimer.State :=
  SessionTimer.tick
    (SessionTimer.setTimeRemaining 1
       (fst (SessionTimer.handleStart morning_session 30000
               (SessionTimer.initial morning_session)))).

(** The counters of a statistics row are consistent when the streaks are
    non-negative and ordered and no counter exceeds the ones it is part
    of. *)
Definition counters_consistent (s : SessionTimer.UserStats) : Prop :=
  (0 <= SessionTimer.current_streak s <= SessionTimer.longest_streak s)%Z
  /\ (SessionTimer.longest_streak s <= SessionTimer.total_sessions s)%Z
  /\ (SessionTimer.current_streak s <= SessionTimer.total_on_time s <= SessionTimer.total_sessions s)%Z
  /\ (SessionTimer.current_streak s <= SessionTimer.total_completed s <= SessionTimer.total_sessions s)%Z.


(** Reading a string of decimal digits back, leading zeros allowed. *)
Definition read_digits (s : string) : option Z :=
  option_map Z.of_uint (DecimalString.NilEmpty.uint_of_string s).

(** The mantissa of the double 0.01 (exponent -59). *)
Definition m_0_01 : positive := 5764607523034235.

(** An average as the [numeric(5,2)] column of [user_stats] holds it: zero,
    or a number from 0.01 to 100. *)
Definition stored_average (x : float) : bool :=
  ((x =? 0)%float || (0.01 <=? x)%float) && (x <=? 100)%float.

(** A statistics row after three sessions, two of them in a streak. *)
Definition three_sessions : SessionTimer.UserStats :=
  {| SessionTimer.current_streak := 2;
     SessionTimer.longest_streak := 2;
     SessionTimer.total_sessions := 3;
     SessionTimer.total_on_time := 2;
     SessionTimer.total_completed := 3;
     SessionTimer.average_score := 80.33;
     SessionTimer.last_session_date := "1969-12-31" |}.

(** The logs' scores are whole numbers from 0 to 100. *)
Definition whole_scores (logs : list Dashboard.SessionLog) : Prop :=
  forall log, In log logs ->
    exists k, (0 <= k <= 100)%Z
              /\ Dashboard.productivity_score log = JS.Z2F k.

(** The calendar day in the UTC time zone, as a text. *)
Definition utc_toDateString (t : Z) : string :=
  SessionTimer.String_of_Z (t / 86400000).

(** Three logs, the last one a day later. *)
Definition three_logs : list Dashboard.SessionLog :=
  [ {| Dashboard.productivity_score := 95; Dashboard.created_at := 3600000 |};
    {| Dashboard.productivity_score := 72; Dashboard.created_at := 7200000 |};
    {| Dashboard.productivity_score := 40;
       Dashboard.created_at := 90000000 |} ].

(** * Lemmas *)

(** ** Finite ranges and exact values *)

Lemma Zrange_forallb (P : Z -> bool) (lo n : Z) :
  forallb P (Zrange lo n) = true ->
  forall d, (lo <= d < lo + n)%Z -> P d = true.
Proof.
  intros Hall d Hd.
  rewrite forallb_forall in Hall.
  apply Hall.
  unfold Zrange.
  apply in_map_iff.
  exists (Z.to_nat (d - lo)).
  split; [lia | apply in_seq; lia].
Qed.

(** Two doubles that denote different rationals are different. *)
Lemma F2Q_neq (x y : float) : F2Q x <> F2Q y -> x <> y.
Proof. intros Hne Heq; apply Hne; now rewrite Heq. Qed.

Lemma denotes_spec (x : float) (q : Q) :
  denotes x q = true -> exists v, F2Q x = Some v /\ v == q.
Proof.
  unfold denotes.
  destruct (F2Q x) as [v |]; [| discriminate].
  intro H; exists v; split; [reflexivity | now apply Qeq_bool_eq].
Qed.

(** ** Rounding in binary64

    The lemmas follow a mantissa through [binary_round_aux]: the shift
    that brings it to the exponent of its magnitude, the rounding to
    nearest even, and the renormalising shift. *)

Section Binary64.

Local Open Scope R_scope.

(** Powers of two. *)
Lemma bpow_pos e : 0 < bpow e.
Proof. apply powerRZ_lt; lra. Qed.

Lemma bpow_add a b : bpow (a + b) = bpow a * bpow b.
Proof. apply powerRZ_add; lra. Qed.

Lemma bpow_IZR k : (0 <= k)%Z -> bpow k = IZR (2 ^ k).
Proof.
  intro Hk. unfold bpow.
  destruct k as [| p | p]; [reflexivity | | lia].
  symmetry; apply (Zpower_pos_powerRZ 2 p).
Qed.

Lemma bpow_ge_1 k : (0 <= k)%Z -> 1 <= bpow k.
Proof.
  intro Hk. rewrite bpow_IZR by assumption.
  apply IZR_le. assert (0 < 2 ^ k)%Z by (apply Z.pow_pos_nonneg; lia). lia.
Qed.

Lemma bpow_le a b : (a <= b)%Z -> bpow a <= bpow b.
Proof.
  intro H. replace b with (a + (b - a))%Z by lia.
  rewrite bpow_add.
  pose proof (bpow_pos a). pose proof (bpow_ge_1 (b - a) ltac:(lia)). nra.
Qed.

Lemma bpow_lt a b : (a < b)%Z -> bpow a < bpow b.
Proof.
  intro H. replace b with (a + (b - a))%Z by lia.
  rewrite bpow_add.
  pose proof (bpow_pos a).
  assert (2 <= bpow (b - a)).
  { rewrite bpow_IZR by lia. apply IZR_le.
    change 2%Z with (2 ^ 1)%Z at 1. apply Z.pow_le_mono_r; lia. }
  nra.
Qed.

Lemma bpow_lt_inv a b : bpow a < bpow b -> (a < b)%Z.
Proof.
  intro H. destruct (Z_lt_le_dec a b) as [|Hle]; [assumption|].
  pose proof (bpow_le _ _ Hle). lra.
Qed.

Lemma digits2_size p : digits2_pos p = Pos.size p.
Proof. induction p as [p IH | p IH |]; cbn; now rewrite ?IH. Qed.

Lemma digits_log2 p : digits p = (Z.log2 (Z.pos p) + 1)%Z.
Proof.
  unfold digits. rewrite digits2_size.
  destruct p as [p | p |]; cbn [Z.log2 Pos.size]; lia.
Qed.

Lemma digits_pos p : (1 <= digits p)%Z.
Proof. unfold digits; lia. Qed.

Lemma digits_bounds p :
  (2 ^ (digits p - 1) <= Z.pos p < 2 ^ digits p)%Z.
Proof.
  rewrite digits_log2.
  replace (Z.log2 (Z.pos p) + 1 - 1)%Z with (Z.log2 (Z.pos p)) by lia.
  apply Z.log2_spec; lia.
Qed.

Lemma digits_le p q : (Z.pos p <= Z.pos q)%Z -> (digits p <= digits q)%Z.
Proof.
  intro H. rewrite !digits_log2.
  pose proof (Z.log2_le_mono _ _ H). lia.
Qed.

Lemma F2R_bounds p e :
  bpow (digits p - 1 + e) <= F2R (Z.pos p) e < bpow (digits p + e).
Proof.
  unfold F2R. rewrite !bpow_add.
  pose proof (digits_bounds p) as [Hl Hu].
  pose proof (digits_pos p).
  rewrite (bpow_IZR (digits p - 1)), (bpow_IZR (digits p)) by lia.
  apply IZR_le in Hl. apply IZR_lt in Hu.
  pose proof (bpow_pos e).
  split; [apply Rmult_le_compat_r | apply Rmult_lt_compat_r]; lra.
Qed.

Lemma F2R_le_digits p1 e1 p2 e2 :
  F2R (Z.pos p1) e1 <= F2R (Z.pos p2) e2 ->
  (digits p1 + e1 <= digits p2 + e2)%Z.
Proof.
  intro H.
  pose proof (F2R_bounds p1 e1) as [H1 _].
  pose proof (F2R_bounds p2 e2) as [_ H2].
  assert (bpow (digits p1 - 1 + e1) < bpow (digits p2 + e2)) as Hlt by lra.
  apply bpow_lt_inv in Hlt. lia.
Qed.

Lemma fexp_spec e : fexp e = Z.max (e - 53) (-1074).
Proof. reflexivity. Qed.

Lemma fexp_mono a b : (a <= b)%Z -> (fexp a <= fexp b)%Z.
Proof. rewrite !fexp_spec; lia. Qed.

(** Right shifts. *)
Lemma shr_1_m mrs :
  (0 <= shr_m mrs)%Z -> shr_m (shr_1 mrs) = Z.div2 (shr_m mrs).
Proof.
  destruct mrs as [[| [p | p |] | p] r s]; cbn [shr_m];
    intro H; (reflexivity || lia).
Qed.

Lemma iter_shr_1_m n mrs :
  (0 <= shr_m mrs)%Z ->
  shr_m (iter_pos shr_1 n mrs) = (shr_m mrs / 2 ^ Z.pos n)%Z.
Proof.
  revert mrs.
  induction n as [n IH | n IH |]; intros mrs Hm; cbn [iter_pos].
  - assert (0 < 2 ^ Z.pos n)%Z as Hp by (apply Z.pow_pos_nonneg; lia).
    assert (shr_m (shr_1 mrs) = shr_m mrs / 2)%Z as H1
        by (rewrite shr_1_m, Z.div2_div by lia; reflexivity).
    assert (0 <= shr_m (shr_1 mrs))%Z as H1'
        by (rewrite H1; apply Z.div_pos; lia).
    pose proof (IH _ H1') as H2.
    assert (0 <= shr_m (iter_pos shr_1 n (shr_1 mrs)))%Z as H2'
        by (rewrite H2; apply Z.div_pos; lia).
    rewrite (IH _ H2'), H2, H1, !Z.div_div by lia.
    f_equal.
    rewrite Pos.xI_succ_xO, Pos2Z.inj_succ, Z.pow_succ_r by lia.
    rewrite <- (Pos.add_diag n), Pos2Z.inj_add, Z.pow_add_r by lia.
    reflexivity.
  - assert (0 < 2 ^ Z.pos n)%Z as Hp by (apply Z.pow_pos_nonneg; lia).
    pose proof (IH _ Hm) as H2.
    assert (0 <= shr_m (iter_pos shr_1 n mrs))%Z as H2'
        by (rewrite H2; apply Z.div_pos; lia).
    rewrite (IH _ H2'), H2, !Z.div_div by lia.
    f_equal.
    rewrite <- (Pos.add_diag n), Pos2Z.inj_add, Z.pow_add_r by lia.
    reflexivity.
  - rewrite shr_1_m, Z.div2_div by lia. reflexivity.
Qed.

Lemma shr_record_of_loc_m m l : shr_m (shr_record_of_loc m l) = m.
Proof. destruct l as [| []]; reflexivity. Qed.

Lemma shr_fexp_spec p e l :
  let n := Z.max 0 (fexp (digits p + e) - e) in
  shr_m (fst (shr_fexp prec emax (Z.pos p) e l)) = (Z.pos p / 2 ^ n)%Z
  /\ snd (shr_fexp prec emax (Z.pos p) e l) = (e + n)%Z.
Proof.
  cbv zeta. unfold shr_fexp, shr. cbn [Zdigits2]. fold (digits p).
  destruct (fexp (digits p + e) - e)%Z as [| n | n] eqn:Hn; cbn [fst snd].
  - rewrite shr_record_of_loc_m. cbn. rewrite Z.div_1_r. split; lia.
  - rewrite iter_shr_1_m by (rewrite shr_record_of_loc_m; lia).
    rewrite shr_record_of_loc_m.
    replace (Z.max 0 (Z.pos n)) with (Z.pos n) by lia. split; reflexivity.
  - rewrite shr_record_of_loc_m.
    replace (Z.max 0 (Z.neg n)) with 0%Z by lia.
    cbn. rewrite Z.div_1_r. split; lia.
Qed.

Lemma digits_div p q n :
  (0 <= n)%Z -> (Z.pos p / 2 ^ n)%Z = Z.pos q -> digits q = (digits p - n)%Z.
Proof.
  intros Hn Hq. rewrite !digits_log2, <- Hq.
  rewrite <- Z.shiftr_div_pow2, Z.log2_shiftr by lia.
  destruct (Z_lt_le_dec (Z.log2 (Z.pos p)) n) as [Hlt | Hle]; [| lia].
  assert (Z.shiftr (Z.pos p) n = 0%Z) as H0 by (apply Z.shiftr_eq_0; lia).
  rewrite Z.shiftr_div_pow2 in H0 by lia. lia.
Qed.

Lemma fexp_lt_inv a b : (fexp a < fexp b)%Z -> (a < b)%Z.
Proof. rewrite !fexp_spec; lia. Qed.

Lemma F2R_le_mantissa p q e :
  F2R (Z.pos p) e <= F2R (Z.pos q) e <-> (Z.pos p <= Z.pos q)%Z.
Proof.
  unfold F2R. pose proof (bpow_pos e) as He.
  split; intro H.
  - apply le_IZR. nra.
  - apply IZR_le in H. nra.
Qed.

(** The first step of rounding keeps the truncated value above any
    representable number below the exact one. *)
Lemma shr_fexp_lower P E p e l :
  canon P E ->
  F2R (Z.pos P) E <= F2R (Z.pos p) e ->
  (e <= fexp (digits p + e))%Z ->
  exists q,
    shr_m (fst (shr_fexp prec emax (Z.pos p) e l)) = Z.pos q
    /\ snd (shr_fexp prec emax (Z.pos p) e l) = fexp (digits p + e)
    /\ canon q (fexp (digits p + e))
    /\ F2R (Z.pos P) E <= F2R (Z.pos q) (fexp (digits p + e))
    /\ (digits q <= 53)%Z.
Proof.
  intros HP Hle Hpre.
  destruct (shr_fexp_spec p e l) as [Hm He]; cbv zeta in Hm, He.
  set (e1 := fexp (digits p + e)) in *.
  set (n := (e1 - e)%Z) in *.
  replace (Z.max 0 n) with n in Hm, He by lia.
  assert (0 < 2 ^ n)%Z as Hpow by (apply Z.pow_pos_nonneg; lia).
  pose proof (F2R_le_digits _ _ _ _ Hle) as Hdig.
  assert (E <= e1)%Z as HE
      by (unfold e1; rewrite HP; apply fexp_mono; exact Hdig).
  pose proof (digits_bounds p) as [Hpl Hpu].
  pose proof (digits_pos p) as Hdp.
  assert ((1 <= Z.pos p / 2 ^ n)%Z
          /\ F2R (Z.pos P) E <= F2R (Z.pos p / 2 ^ n) e1) as [Hq1 Hq2].
  { destruct (Z.eq_dec E e1) as [Heq | Hne].
    - assert (Z.pos P <= Z.pos p / 2 ^ n)%Z as HPq.
      { apply Z.div_le_lower_bound; [lia |].
        apply le_IZR. rewrite mult_IZR, <- bpow_IZR by lia.
        unfold F2R in Hle. rewrite Heq in Hle.
        replace e1 with (e + n)%Z in Hle by (unfold n; lia).
        rewrite bpow_add in Hle.
        pose proof (bpow_pos e). pose proof (bpow_pos n). nra. }
      split; [lia |].
      rewrite Heq. unfold F2R. apply IZR_le in HPq.
      pose proof (bpow_pos e1). nra.
    - assert (E < e1)%Z as Hlt by lia.
      assert (digits P + E < digits p + e)%Z as Hd
          by (apply fexp_lt_inv; fold e1; rewrite <- HP; exact Hlt).
      assert (e1 = digits p + e - 53)%Z as He1.
      { unfold canon in HP. rewrite fexp_spec in HP.
        unfold e1 in *. rewrite fexp_spec in *. lia. }
      assert (2 ^ 52 <= Z.pos p / 2 ^ n)%Z as H52.
      { apply Z.div_le_lower_bound; [lia |].
        rewrite <- Z.pow_add_r by lia.
        replace (n + 52)%Z with (digits p - 1)%Z by lia. exact Hpl. }
      split; [lia |].
      pose proof (F2R_bounds P E) as [_ HPu].
      assert (bpow (digits P + E) <= bpow (52 + e1)) as Hb
          by (apply bpow_le; lia).
      assert (bpow (52 + e1) <= F2R (Z.pos p / 2 ^ n) e1).
      { unfold F2R. rewrite bpow_add, (bpow_IZR 52) by lia.
        apply IZR_le in H52. pose proof (bpow_pos e1). nra. }
      lra. }
  destruct (Z.pos p / 2 ^ n)%Z as [| q | q] eqn:Hq; try lia.
  exists q. rewrite Hm, He.
  pose proof (digits_div p q n ltac:(lia) Hq) as Hdq.
  assert (e + n = e1)%Z as Hen by (unfold n; lia).
  repeat split; try assumption.
  - unfold canon. rewrite Hdq.
    replace (digits p - n + e1)%Z with (digits p + e)%Z by lia.
    reflexivity.
  - unfold e1 in *. rewrite fexp_spec in *. lia.
Qed.

Lemma round_nearest_even_bounds m l :
  (m <= round_nearest_even m l <= m + 1)%Z.
Proof.
  unfold round_nearest_even.
  destruct l as [| []]; try destruct (Z.even m); lia.
Qed.

Lemma canon_canonical p e : canon p e -> canonical_mantissa prec emax p e = true.
Proof.
  unfold canon, canonical_mantissa. intro H.
  apply Z.eqb_eq. fold (digits p). symmetry; exact H.
Qed.

Lemma canonical_canon p e : canonical_mantissa prec emax p e = true -> canon p e.
Proof.
  unfold canon, canonical_mantissa. intro H.
  apply Z.eqb_eq in H. fold (digits p) in H. symmetry; exact H.
Qed.

(** Rounding to nearest never falls below a representable number that
    the truncated value reaches. *)
Lemma binary_round_aux_lower P E s p e l :
  canon P E ->
  F2R (Z.pos P) E <= F2R (Z.pos p) e ->
  (e <= fexp (digits p + e))%Z ->
  let r := binary_round_aux prec emax s (Z.pos p) e l in
  valid r = true
  /\ (r = S754_infinity s
      \/ exists q e', r = S754_finite s q e'
                      /\ F2R (Z.pos P) E <= F2R (Z.pos q) e').
Proof.
  intros HP Hle Hpre; cbv zeta.
  unfold binary_round_aux.
  destruct (shr_fexp_lower P E p e l HP Hle Hpre)
    as (q1 & Hm1 & He1 & Hc1 & Hle1 & _).
  destruct (shr_fexp prec emax (Z.pos p) e l) as [mrs1 e1].
  cbn [fst snd] in Hm1, He1. subst e1.
  set (e1 := fexp (digits p + e)) in *.
  rewrite Hm1.
  pose proof (round_nearest_even_bounds (Z.pos q1) (loc_of_shr_record mrs1))
    as Hrne.
  destruct (round_nearest_even (Z.pos q1) (loc_of_shr_record mrs1))
    as [| q2 | q2]; try lia.
  assert (F2R (Z.pos P) E <= F2R (Z.pos q2) e1) as Hle2.
  { apply Rle_trans with (1 := Hle1). apply F2R_le_mantissa. lia. }
  assert (e1 <= fexp (digits q2 + e1))%Z as Hpre2.
  { rewrite Hc1 at 1. apply fexp_mono.
    pose proof (digits_le q1 q2 ltac:(lia)). lia. }
  destruct (shr_fexp_lower P E q2 e1 loc_Exact HP Hle2 Hpre2)
    as (q3 & Hm3 & He3 & Hc3 & Hle3 & _).
  destruct (shr_fexp prec emax (Z.pos q2) e1 loc_Exact) as [mrs3 e3].
  cbn [fst snd] in Hm3, He3. subst e3.
  rewrite Hm3.
  destruct (Z.leb_spec (fexp (digits q2 + e1)) (emax - prec)) as [Hb | Hb].
  - split.
    + cbn [valid_binary]. unfold bounded.
      rewrite (canon_canonical _ _ Hc3). apply Z.leb_le. exact Hb.
    + right. exists q3, (fexp (digits q2 + e1)). split; [reflexivity | exact Hle3].
  - split; [reflexivity | left; reflexivity].
Qed.

(** Order of canonical positive numbers. *)
Lemma canon_exp_lt P E p e :
  canon P E -> canon p e -> (E < e)%Z -> F2R (Z.pos P) E < F2R (Z.pos p) e.
Proof.
  intros HP Hp Hlt.
  assert (digits P + E < digits p + e)%Z as Hd
      by (apply fexp_lt_inv; rewrite <- HP, <- Hp; exact Hlt).
  pose proof (F2R_bounds P E) as [_ H1].
  pose proof (F2R_bounds p e) as [H2 _].
  assert (bpow (digits P + E) <= bpow (digits p - 1 + e))
    by (apply bpow_le; lia).
  lra.
Qed.

Lemma SFcompare_canon P E p e :
  canon P E -> canon p e ->
  match SFcompare (S754_finite false P E) (S754_finite false p e) with
  | Some Lt => F2R (Z.pos P) E < F2R (Z.pos p) e
  | Some Eq => P = p /\ E = e
  | Some Gt => F2R (Z.pos p) e < F2R (Z.pos P) E
  | None => False
  end.
Proof.
  intros HP Hp. cbn [SFcompare].
  destruct (Z.compare_spec E e) as [Heq | Hlt | Hgt].
  - subst e. change (Pos.compare_cont Eq P p) with (Pos.compare P p).
    destruct (Pos.compare_spec P p) as [Hpp | Hpp | Hpp].
    + now split.
    + apply Rlt_le_trans with (F2R (Z.pos P + 1) E);
        [| apply F2R_le_mantissa with (p := (P + 1)%positive); lia].
      unfold F2R. rewrite plus_IZR. pose proof (bpow_pos E). nra.
    + apply Rlt_le_trans with (F2R (Z.pos p + 1) E);
        [| apply F2R_le_mantissa with (p := (p + 1)%positive); lia].
      unfold F2R. rewrite plus_IZR. pose proof (bpow_pos E). nra.
  - now apply canon_exp_lt.
  - now apply canon_exp_lt.
Qed.

(** What [Prim2SF] returns is valid, hence canonical. *)
Lemma Prim2SF_canon x s p e : Prim2SF x = S754_finite s p e -> canon p e.
Proof.
  intro H. pose proof (Prim2SF_valid x) as Hv. rewrite H in Hv.
  cbn [valid_binary] in Hv. unfold bounded in Hv.
  apply andb_true_iff in Hv. apply canonical_canon, Hv.
Qed.

(** Rounding a non-negative mantissa keeps the sign and yields a valid
    number. *)
Lemma shr_fexp_zero e l :
  shr_m (fst (shr_fexp prec emax 0 e l)) = 0%Z.
Proof.
  unfold shr_fexp, shr.
  destruct (fexp (Zdigits2 0 + e) - e)%Z; cbn [fst];
    rewrite ?iter_shr_1_m, shr_record_of_loc_m by
      (rewrite shr_record_of_loc_m; lia);
    reflexivity.
Qed.

Lemma binary_round_aux_shape s p e l :
  (e <= fexp (digits p + e))%Z ->
  let r := binary_round_aux prec emax s (Z.pos p) e l in
  valid r = true
  /\ (r = S754_zero s \/ r = S754_infinity s
      \/ exists q e', r = S754_finite s q e').
Proof.
  intro Hpre; cbv zeta.
  destruct (Rle_lt_dec (F2R 1 (-1074)) (F2R (Z.pos p) e)) as [Hbig | Hsmall].
  - destruct (binary_round_aux_lower 1 (-1074) s p e l
                ltac:(reflexivity) Hbig Hpre) as [Hv [Hi | (q & e' & Hr & _)]].
    + split; [exact Hv | right; left; exact Hi].
    + split; [exact Hv | right; right; exists q, e'; exact Hr].
  - assert (digits p + e <= -1074)%Z as Hd.
    { pose proof (F2R_bounds p e) as [Hl _].
      assert (bpow (digits p - 1 + e) < bpow (-1074)) as Hlt.
      { apply Rle_lt_trans with (1 := Hl).
        unfold F2R in Hsmall at 2. lra. }
      apply bpow_lt_inv in Hlt. lia. }
    unfold binary_round_aux.
    destruct (shr_fexp_spec p e l) as [Hm He]; cbv zeta in Hm, He.
    assert (fexp (digits p + e) = -1074)%Z as Hf by (rewrite fexp_spec; lia).
    rewrite Hf in Hm, He.
    replace (Z.max 0 (-1074 - e)) with (-1074 - e)%Z in Hm, He by lia.
    replace (e + (-1074 - e))%Z with (-1074)%Z in He by lia.
    assert (Z.pos p / 2 ^ (-1074 - e) = 0)%Z as H0.
    { apply Z.div_small. split; [lia |].
      pose proof (digits_bounds p) as [_ Hu].
      apply Z.lt_le_trans with (1 := Hu).
      apply Z.pow_le_mono_r; lia. }
    rewrite H0 in Hm.
    destruct (shr_fexp prec emax (Z.pos p) e l) as [mrs1 e1].
    cbn [fst snd] in Hm, He. subst e1. rewrite Hm.
    pose proof (round_nearest_even_bounds 0 (loc_of_shr_record mrs1)) as Hb.
    assert (round_nearest_even 0 (loc_of_shr_record mrs1) = 0%Z
            \/ round_nearest_even 0 (loc_of_shr_record mrs1) = 1%Z)
      as [-> | ->] by lia.
    + split; [reflexivity | left; reflexivity].
    + split; [reflexivity | right; right; eexists _, _; reflexivity].
Qed.

(** Alignment before rounding. *)
Lemma shl_align_spec p e :
  let mz := fst (shl_align p e (fexp (digits p + e))) in
  let ez := snd (shl_align p e (fexp (digits p + e))) in
  F2R (Z.pos mz) ez = F2R (Z.pos p) e /\ (ez <= fexp (digits mz + ez))%Z.
Proof.
  cbv zeta. unfold shl_align.
  destruct (fexp (digits p + e) - e)%Z as [| d | d] eqn:Hd; cbn [fst snd].
  - split; [reflexivity | lia].
  - split; [reflexivity | lia].
  - fold (shift_pos d p).
    assert (Z.pos (shift_pos d p) = Z.pos p * 2 ^ Z.pos d)%Z as Hs
        by (rewrite shift_pos_correct; change (Z.pow_pos 2 d) with (2 ^ Z.pos d)%Z; lia).
    assert (e = fexp (digits p + e) + Z.pos d)%Z as He by lia.
    split.
    + unfold F2R. rewrite Hs, mult_IZR, <- bpow_IZR by lia.
      rewrite He at 2. rewrite bpow_add. ring.
    + assert (digits (shift_pos d p) = digits p + Z.pos d)%Z as Hdig.
      { rewrite !digits_log2, Hs, Z.log2_mul_pow2 by lia. lia. }
      rewrite Hdig.
      replace (digits p + Z.pos d + fexp (digits p + e))%Z
        with (digits p + e)%Z by lia.
      lia.
Qed.

Lemma binary_round_lower P E s p e :
  canon P E ->
  F2R (Z.pos P) E <= F2R (Z.pos p) e ->
  let r := binary_round prec emax s p e in
  valid r = true
  /\ (r = S754_infinity s
      \/ exists q e', r = S754_finite s q e'
                      /\ F2R (Z.pos P) E <= F2R (Z.pos q) e').
Proof.
  intros HP Hle; cbv zeta. unfold binary_round. fold (digits p).
  destruct (shl_align_spec p e) as [Hv Hpre]; cbv zeta in Hv, Hpre.
  destruct (shl_align p e (fexp (digits p + e))) as [mz ez].
  cbn [fst snd] in Hv, Hpre.
  apply binary_round_aux_lower; [exact HP | rewrite Hv; exact Hle | exact Hpre].
Qed.

Lemma binary_round_shape s p e :
  let r := binary_round prec emax s p e in
  valid r = true
  /\ (r = S754_zero s \/ r = S754_infinity s
      \/ exists q e', r = S754_finite s q e').
Proof.
  cbv zeta. unfold binary_round. fold (digits p).
  destruct (shl_align_spec p e) as [_ Hpre]; cbv zeta in Hpre.
  destruct (shl_align p e (fexp (digits p + e))) as [mz ez].
  cbn [fst snd] in Hpre.
  now apply binary_round_aux_shape.
Qed.

(** The double of an integer. *)
Lemma Prim2SF_Z2F n :
  Prim2SF (JS.Z2F n) = binary_normalize prec emax n 0 false.
Proof.
  unfold JS.Z2F. apply Prim2SF_SF2Prim.
  destruct n as [| p | p]; cbn [binary_normalize];
    [reflexivity | apply binary_round_shape ..].
Qed.

Lemma Z2F_at_least P E p :
  canon P E -> F2R (Z.pos P) E <= IZR (Z.pos p) -> at_least P E (JS.Z2F (Z.pos p)).
Proof.
  intros HP Hle. unfold at_least. rewrite Prim2SF_Z2F. cbn [binary_normalize].
  apply (binary_round_lower P E false p 0 HP).
  unfold F2R at 2. unfold bpow; cbn [powerRZ]. lra.
Qed.

Lemma Z2F_nonpos p : nonpos (JS.Z2F (Z.neg p)).
Proof.
  unfold nonpos. rewrite Prim2SF_Z2F. cbn [binary_normalize].
  destruct (binary_round_shape true p 0) as [_ [-> | [-> | (q & e' & ->)]]];
    exact I.
Qed.

Lemma shr_fexp_nonneg m e l :
  (0 <= m)%Z -> (0 <= shr_m (fst (shr_fexp prec emax m e l)))%Z.
Proof.
  intro Hm. unfold shr_fexp, shr.
  destruct (fexp (Zdigits2 m + e) - e)%Z as [| n | n]; cbn [fst];
    rewrite ?iter_shr_1_m by (rewrite shr_record_of_loc_m; exact Hm);
    rewrite shr_record_of_loc_m; try exact Hm.
  apply Z.div_pos; [exact Hm | apply Z.pow_pos_nonneg; lia].
Qed.

(** Rounding a non-negative mantissa never changes the sign and never
    yields NaN. *)
Lemma binary_round_aux_sign s m e l :
  (0 <= m)%Z ->
  let r := binary_round_aux prec emax s m e l in
  r = S754_zero s \/ r = S754_infinity s \/ exists q e', r = S754_finite s q e'.
Proof.
  intro Hm; cbv zeta. unfold binary_round_aux.
  pose proof (shr_fexp_nonneg m e l Hm) as H1.
  destruct (shr_fexp prec emax m e l) as [mrs1 e1]. cbn [fst] in H1.
  pose proof (round_nearest_even_bounds (shr_m mrs1) (loc_of_shr_record mrs1))
    as Hb.
  set (m2 := round_nearest_even (shr_m mrs1) (loc_of_shr_record mrs1)) in *.
  pose proof (shr_fexp_nonneg m2 e1 loc_Exact ltac:(lia)) as H3.
  destruct (shr_fexp prec emax m2 e1 loc_Exact) as [mrs3 e3]. cbn [fst] in H3.
  destruct (shr_m mrs3) as [| q | q]; [now left | | lia].
  destruct (Z.leb e3 (emax - prec)).
  - right; right. now exists q, e3.
  - right; now left.
Qed.

Lemma Prim2SF_one : Prim2SF 1 = S754_finite false m_one (-52).
Proof. vm_compute; reflexivity. Qed.

Lemma Prim2SF_100 : Prim2SF 100 = S754_finite false m_100 (-46).
Proof. vm_compute; reflexivity. Qed.

Lemma Prim2SF_0 : Prim2SF 0 = S754_zero false.
Proof. vm_compute; reflexivity. Qed.

Lemma F2R_scaled a k : (0 <= k)%Z -> F2R (a * 2 ^ k) (- k) = IZR a.
Proof.
  intro Hk. unfold F2R. rewrite mult_IZR, <- bpow_IZR by assumption.
  rewrite Rmult_assoc, <- bpow_add.
  replace (k + - k)%Z with 0%Z by lia.
  unfold bpow; cbn [powerRZ]; ring.
Qed.

Lemma F2R_one : F2R (Z.pos m_one) (-52) = 1.
Proof. apply (F2R_scaled 1 52); lia. Qed.

Lemma F2R_100 : F2R (Z.pos m_100) (-46) = 100.
Proof. apply (F2R_scaled 100 46); lia. Qed.

(** Multiplication by 100. *)
Lemma mul_100_pre q e :
  (e + -46 <= fexp (digits (q * m_100) + (e + -46)))%Z.
Proof.
  assert (Z.pos m_100 <= Z.pos (q * m_100))%Z as Hm
      by (rewrite Pos2Z.inj_mul; nia).
  pose proof (digits_le m_100 (q * m_100) Hm) as Hd.
  change (digits m_100) with 53%Z in Hd.
  rewrite fexp_spec. lia.
Qed.

Lemma mul_100_at_least x :
  at_least m_one (-52) x -> at_least m_100 (-46) (x * 100)%float.
Proof.
  intros [Hinf | (q & e & Hx & Hle)]; unfold at_least;
    rewrite mul_spec, Prim2SF_100; unfold SF64mul.
  - rewrite Hinf. now left.
  - rewrite Hx. cbn [SFmul xorb].
    apply (binary_round_aux_lower m_100 (-46) false (q * m_100) (e + -46)
             loc_Exact ltac:(reflexivity)); [| apply mul_100_pre].
    rewrite F2R_one in Hle. rewrite F2R_100.
    unfold F2R in *. rewrite Pos2Z.inj_mul, mult_IZR, bpow_add.
    pose proof F2R_100 as H100. unfold F2R in H100.
    pose proof (bpow_pos (-46)). pose proof (bpow_pos e).
    assert (0 < IZR (Z.pos m_100)) by (apply IZR_lt; lia).
    nra.
Qed.

Lemma mul_100_nonpos x : nonpos x -> nonpos (x * 100)%float.
Proof.
  unfold nonpos. rewrite mul_spec, Prim2SF_100; unfold SF64mul.
  destruct (Prim2SF x) as [s | [] | | [] q e]; try contradiction; intros _;
    cbn [SFmul xorb]; try exact I.
  destruct (binary_round_aux_sign true (Z.pos (q * m_100)) (e + -46) loc_Exact
              ltac:(lia)) as [-> | [-> | (q' & e' & ->)]]; exact I.
Qed.

(** Division. *)
Lemma SFdiv_core_spec mc ec md ed :
  let D := (digits mc + ec - (digits md + ed))%Z in
  let e' := Z.min (fexp D) (ec - ed) in
  SFdiv_core_binary prec emax (Z.pos mc) ec (Z.pos md) ed
  = ((Z.pos mc * 2 ^ (ec - ed - e')) / Z.pos md, e',
     new_location (Z.pos md) ((Z.pos mc * 2 ^ (ec - ed - e')) mod Z.pos md))%Z.
Proof.
  cbv zeta. unfold SFdiv_core_binary. cbn [Zdigits2].
  fold (digits mc) (digits md).
  set (e' := Z.min (fexp (digits mc + ec - (digits md + ed))) (ec - ed)).
  assert (0 <= ec - ed - e')%Z as Hs by lia.
  set (m' := match (ec - ed - e')%Z with
             | 0%Z => Z.pos mc
             | Z.pos _ => Z.shiftl (Z.pos mc) (ec - ed - e')
             | Z.neg _ => 0%Z
             end).
  assert (m' = Z.pos mc * 2 ^ (ec - ed - e'))%Z as Hm'.
  { unfold m'. destruct (ec - ed - e')%Z as [| s | s] eqn:Es.
    - cbn; lia.
    - now rewrite Z.shiftl_mul_pow2 by lia.
    - lia. }
  rewrite Hm'. unfold Z.div, Z.modulo.
  now destruct (Z.div_eucl (Z.pos mc * 2 ^ (ec - ed - e')) (Z.pos md)).
Qed.

Lemma div_at_least_one c d mc ec md ed :
  Prim2SF c = S754_finite false mc ec ->
  Prim2SF d = S754_finite false md ed ->
  F2R (Z.pos md) ed <= F2R (Z.pos mc) ec ->
  at_least m_one (-52) (c / d)%float.
Proof.
  intros Hc Hd Hle. unfold at_least.
  rewrite div_spec, Hc, Hd. unfold SF64div. cbn [SFdiv xorb].
  rewrite SFdiv_core_spec.
  set (D := (digits mc + ec - (digits md + ed))%Z).
  set (e' := Z.min (fexp D) (ec - ed)).
  set (s := (ec - ed - e')%Z).
  assert (0 <= s)%Z as Hs by (unfold s; lia).
  set (q := (Z.pos mc * 2 ^ s / Z.pos md)%Z).
  pose proof (digits_bounds mc) as [Hcl Hcu].
  pose proof (digits_bounds md) as [Hdl Hdu].
  pose proof (digits_pos mc) as Hdc. pose proof (digits_pos md) as Hdd.
  assert (0 < 2 ^ s)%Z as Hps by (apply Z.pow_pos_nonneg; lia).
  (* a lower bound on the quotient *)
  assert (forall k, (0 <= k)%Z -> (Z.pos md * 2 ^ k <= Z.pos mc * 2 ^ s)%Z ->
                    (2 ^ k <= q)%Z) as Hq.
  { intros k Hk H. unfold q. apply Z.div_le_lower_bound; lia. }
  assert ((1 <= q)%Z /\ F2R (Z.pos m_one) (-52) <= F2R q e') as [Hq1 Hq2].
  { rewrite F2R_one.
    destruct (Z_le_gt_dec e' 0) as [Hneg | Hpos].
    - assert (2 ^ (- e') <= q)%Z as Hk.
      { apply Hq; [lia |]. apply le_IZR.
        rewrite !mult_IZR, <- !bpow_IZR by lia.
        unfold F2R in Hle.
        replace (bpow (- e')) with (bpow ed * bpow (- e' - ed))
          by (rewrite <- bpow_add; f_equal; lia).
        replace (bpow s) with (bpow ec * bpow (- e' - ed))
          by (rewrite <- bpow_add; f_equal; unfold s; lia).
        pose proof (bpow_pos (- e' - ed)). nra. }
      assert (0 < 2 ^ (- e'))%Z by (apply Z.pow_pos_nonneg; lia).
      split; [lia |].
      unfold F2R. apply IZR_le in Hk. rewrite <- bpow_IZR in Hk by lia.
      assert (bpow (- e') * bpow e' = 1) as H1.
      { rewrite <- bpow_add. replace (- e' + e')%Z with 0%Z by lia.
        reflexivity. }
      pose proof (bpow_pos e'). nra.
    - assert (2 ^ 52 <= q)%Z as Hk.
      { apply Hq; [lia |].
        assert (digits md + 52 <= digits mc - 1 + s)%Z as Hdig.
        { unfold s, e', D in *. rewrite fexp_spec in *. lia. }
        apply Z.le_trans with (2 ^ (digits md + 52))%Z.
        - rewrite Z.pow_add_r by lia. nia.
        - apply Z.le_trans with (2 ^ (digits mc - 1 + s))%Z;
            [apply Z.pow_le_mono_r; lia |].
          rewrite Z.pow_add_r by lia. nia. }
      split; [lia |].
      unfold F2R. apply IZR_le in Hk.
      pose proof (bpow_ge_1 e' ltac:(lia)). nra. }
  destruct q as [| pq | pq] eqn:Eq; try lia.
  apply (binary_round_aux_lower m_one (-52) false pq e' _ ltac:(reflexivity) Hq2).
  (* the quotient carries enough digits *)
  apply Z.le_trans with (fexp D); [unfold e'; lia |].
  apply fexp_mono.
  assert (digits mc - digits md + s <= digits pq)%Z as Hdq; [| unfold D, s; lia].
  destruct (Z_le_gt_dec (digits mc - digits md + s) 1) as [H1 | H1];
    [pose proof (digits_pos pq); lia |].
  assert (2 ^ (digits mc - digits md + s - 1) <= Z.pos pq)%Z as Hk.
  { apply Hq; [lia |].
    apply Z.le_trans with (2 ^ digits md * 2 ^ (digits mc - digits md + s - 1))%Z.
    - apply Z.mul_le_mono_nonneg_r; [apply Z.pow_nonneg |]; lia.
    - rewrite <- Z.pow_add_r by lia.
      replace (digits md + (digits mc - digits md + s - 1))%Z
        with (digits mc - 1 + s)%Z by lia.
      rewrite Z.pow_add_r by lia. nia. }
  rewrite (digits_log2 pq).
  apply Z.log2_le_pow2 in Hk; lia.
Qed.

Lemma div_nonpos c d md ed :
  nonpos c -> Prim2SF c <> S754_infinity true ->
  Prim2SF d = S754_finite false md ed ->
  nonpos (c / d)%float.
Proof.
  unfold nonpos. rewrite div_spec. unfold SF64div. intros Hc Hni ->.
  destruct (Prim2SF c) as [s | [] | | [] mc ec]; try contradiction;
    try congruence; cbn [SFdiv xorb]; try exact I.
  rewrite SFdiv_core_spec.
  match goal with
  | |- context [binary_round_aux _ _ true (?n / ?k)%Z ?e ?l] =>
      destruct (binary_round_aux_sign true (n / k)%Z e l) as
        [-> | [-> | (q' & e' & ->)]]; try exact I
  end.
  apply Z.div_pos; [| lia].
  apply Z.mul_nonneg_nonneg; [lia | apply Z.pow_nonneg; lia].
Qed.

(** [Math.round], [Math.min] and [Math.max] on the sign classes. *)
Lemma is_nan_SF x : is_nan x = negb (SFeqb (Prim2SF x) (Prim2SF x)).
Proof. unfold is_nan. now rewrite FloatAxioms.eqb_spec. Qed.

Lemma SFcompare_refl s q e :
  SFcompare (S754_finite s q e) (S754_finite s q e) = Some Eq.
Proof.
  cbn [SFcompare]. rewrite Z.compare_refl, Pcompare_refl. now destruct s.
Qed.

Lemma at_least_not_nan P E x : at_least P E x -> is_nan x = false.
Proof.
  intros [H | (q & e & H & _)]; rewrite is_nan_SF, H; [reflexivity |].
  unfold SFeqb. now rewrite SFcompare_refl.
Qed.

Lemma nonpos_not_nan x : nonpos x -> is_nan x = false.
Proof.
  unfold nonpos. rewrite is_nan_SF.
  destruct (Prim2SF x) as [s | [] | | [] q e]; try contradiction; intros _;
    try reflexivity.
  unfold SFeqb. now rewrite SFcompare_refl.
Qed.

Lemma Math_min_100_at_least r :
  at_least m_100 (-46) r -> JS.Math_min 100 r = 100%float.
Proof.
  intro Hr. unfold JS.Math_min.
  rewrite (at_least_not_nan _ _ _ Hr).
  change (is_nan 100) with false. cbn [orb].
  rewrite !FloatAxioms.ltb_spec, Prim2SF_100.
  destruct Hr as [Hr | (q & e & Hr & Hle)]; rewrite Hr; [reflexivity |].
  pose proof (SFcompare_canon m_100 (-46) q e ltac:(reflexivity)
                (Prim2SF_canon _ _ _ _ Hr)) as Hcmp.
  unfold SFltb at 1.
  destruct (SFcompare (S754_finite false m_100 (-46)) (S754_finite false q e))
    as [[| |] |]; try reflexivity; try contradiction; [| lra].
  destruct Hcmp as [<- <-].
  unfold SFltb. rewrite SFcompare_refl.
  change (get_sign 100) with false. cbv iota.
  apply Prim2SF_inj. now rewrite Hr, Prim2SF_100.
Qed.

Lemma Math_min_100_nonpos r : nonpos r -> JS.Math_min 100 r = r.
Proof.
  intro Hr. unfold JS.Math_min.
  rewrite (nonpos_not_nan _ Hr).
  change (is_nan 100) with false. cbn [orb].
  rewrite !FloatAxioms.ltb_spec, Prim2SF_100.
  unfold nonpos in Hr.
  destruct (Prim2SF r) as [s | [] | | [] q e]; try contradiction; reflexivity.
Qed.

Lemma Math_max_0_nonpos r : nonpos r -> JS.Math_max 0 r = 0%float.
Proof.
  intro Hr. unfold JS.Math_max.
  rewrite (nonpos_not_nan _ Hr).
  change (is_nan 0) with false. cbn [orb].
  rewrite !FloatAxioms.ltb_spec, Prim2SF_0.
  unfold nonpos in Hr.
  destruct (Prim2SF r) as [s | [] | | [] q e]; try contradiction; reflexivity.
Qed.

Lemma round_half_up_100 q e :
  (e < 0)%Z -> 100 <= F2R (Z.pos q) e ->
  (100 <= JS.round_half_up false q e)%Z.
Proof.
  intros He Hle. unfold JS.round_half_up.
  destruct (Z.leb_spec 0 e); [lia |].
  cbn [JS.signed]. rewrite Z.shiftr_div_pow2 by lia.
  assert (0 < 2 ^ (- e))%Z as Hp by (apply Z.pow_pos_nonneg; lia).
  assert (100 * 2 ^ (- e) <= Z.pos q)%Z as Hq.
  { apply le_IZR. rewrite mult_IZR, <- bpow_IZR by lia.
    unfold F2R in Hle.
    assert (bpow e * bpow (- e) = 1) as H1.
    { rewrite <- bpow_add. replace (e + - e)%Z with 0%Z by lia. reflexivity. }
    pose proof (bpow_pos (- e)). pose proof (bpow_pos e).
    assert (100 * bpow (- e) <= IZR (Z.pos q) * bpow e * bpow (- e))
      by (apply Rmult_le_compat_r; lra).
    nra. }
  apply Z.div_le_lower_bound; [apply Z.pow_pos_nonneg; lia |].
  replace (1 - e)%Z with (1 + - e)%Z by lia.
  rewrite Z.pow_add_r, Z.pow_1_r by lia. lia.
Qed.

Lemma round_half_up_nonpos q e :
  (e < 0)%Z -> (JS.round_half_up true q e <= 0)%Z.
Proof.
  intro He. unfold JS.round_half_up.
  destruct (Z.leb_spec 0 e); [lia |].
  cbn [JS.signed]. rewrite Z.shiftr_div_pow2 by lia.
  assert (0 < 2 ^ (- e))%Z as Hp by (apply Z.pow_pos_nonneg; lia).
  assert (2 ^ (1 - e) = 2 * 2 ^ (- e))%Z as H2.
  { replace (1 - e)%Z with (1 + - e)%Z by lia.
    now rewrite Z.pow_add_r, Z.pow_1_r by lia. }
  assert ((2 * Z.neg q + 2 ^ (- e)) / 2 ^ (1 - e) < 1)%Z; [| lia].
  apply Z.div_lt_upper_bound; lia.
Qed.

Lemma Math_round_at_least_100 y :
  at_least m_100 (-46) y -> at_least m_100 (-46) (JS.Math_round y).
Proof.
  intros [Hy | (q & e & Hy & Hle)]; unfold JS.Math_round; rewrite Hy.
  - now left.
  - destruct (Z.leb_spec 0 e) as [He | He].
    + right. now exists q, e.
    + rewrite F2R_100 in Hle.
      pose proof (round_half_up_100 q e He Hle) as Hn.
      destruct (JS.round_half_up false q e) as [| n | n] eqn:En; try lia.
      cbn [Z.eqb]. apply Z2F_at_least; [reflexivity |].
      rewrite F2R_100. apply IZR_le. exact Hn.
Qed.

Lemma Math_round_nonpos y : nonpos y -> nonpos (JS.Math_round y).
Proof.
  intro Hy. unfold JS.Math_round.
  pose proof Hy as Hy'. unfold nonpos in Hy'.
  destruct (Prim2SF y) as [s | [] | | [] q e] eqn:Ey; try contradiction;
    try exact Hy.
  destruct (Z.leb_spec 0 e) as [He | He]; [exact Hy |].
  pose proof (round_half_up_nonpos q e He) as Hn.
  destruct (JS.round_half_up true q e) as [| n | n]; try lia.
  - exact I.
  - apply Z2F_nonpos.
Qed.

(** Finite doubles are the zeros and the finite non-zero numbers. *)
Lemma is_finite_SF x :
  is_finite x = true ->
  (exists s, Prim2SF x = S754_zero s)
  \/ (exists s m e, Prim2SF x = S754_finite s m e).
Proof.
  unfold is_finite, is_infinity.
  rewrite is_nan_SF, FloatAxioms.eqb_spec, abs_spec.
  change (Prim2SF infinity) with (S754_infinity false).
  destruct (Prim2SF x) as [s | [] | | s m e]; cbn; try discriminate; intros _.
  - left; now exists s.
  - right; now exists s, m, e.
Qed.

Lemma positive_SF d :
  is_finite d = true -> (0 <? d)%float = true ->
  exists md ed, Prim2SF d = S754_finite false md ed.
Proof.
  intros Hf Hpos. rewrite FloatAxioms.ltb_spec, Prim2SF_0 in Hpos.
  destruct (is_finite_SF d Hf) as [(s & Hd) | (s & m & e & Hd)];
    rewrite Hd in Hpos; [discriminate |].
  destruct s; [discriminate |]. now exists m, e.
Qed.

Lemma leb_0_nonpos c :
  is_finite c = true -> (c <=? 0)%float = true ->
  nonpos c /\ Prim2SF c <> S754_infinity true.
Proof.
  intros Hf Hle. rewrite FloatAxioms.leb_spec, Prim2SF_0 in Hle.
  unfold nonpos.
  destruct (is_finite_SF c Hf) as [(s & Hc) | (s & m & e & Hc)];
    rewrite Hc in *; [split; [exact I | discriminate] |].
  destruct s; [split; [exact I | discriminate] | discriminate].
Qed.

Lemma not_leb_0_positive d :
  is_finite d = true -> (d <=? 0)%float = false -> (0 <? d)%float = true.
Proof.
  intros Hf Hle. rewrite FloatAxioms.leb_spec, Prim2SF_0 in Hle.
  rewrite FloatAxioms.ltb_spec, Prim2SF_0.
  destruct (is_finite_SF d Hf) as [(s & Hd) | (s & m & e & Hd)];
    rewrite Hd in *; [discriminate |].
  destruct s; [discriminate | reflexivity].
Qed.

(** The clamp of a rounded number that is not NaN is a whole number
    between 0 and 100. *)
Lemma clamp_small_integers n :
  (1 <= n < 1 + 99)%Z ->
  JS.Math_max 0 (JS.Math_min 100 (JS.Z2F n)) = JS.Z2F n.
Proof.
  intro Hn. apply Leibniz.eqb_spec.
  apply (Zrange_forallb
           (fun n => Leibniz.eqb
                       (JS.Math_max 0 (JS.Math_min 100 (JS.Z2F n)))
                       (JS.Z2F n)) 1 99);
    [vm_compute; reflexivity | exact Hn].
Qed.

Lemma clamp_at_least y :
  at_least m_100 (-46) y ->
  JS.Math_max 0 (JS.Math_min 100 (JS.Math_round y)) = 100%float.
Proof.
  intro Hy.
  now rewrite (Math_min_100_at_least _ (Math_round_at_least_100 _ Hy)).
Qed.

Lemma clamp_nonpos y :
  nonpos y -> JS.Math_max 0 (JS.Math_min 100 (JS.Math_round y)) = 0%float.
Proof.
  intro Hy. pose proof (Math_round_nonpos _ Hy) as Hr.
  now rewrite (Math_min_100_nonpos _ Hr), (Math_max_0_nonpos _ Hr).
Qed.

Lemma clamp_range y :
  nonpos y \/ Prim2SF y = S754_infinity false
  \/ (exists q e, Prim2SF y = S754_finite false q e) ->
  exists n : Z,
    (0 <= n <= 100)%Z
    /\ JS.Math_max 0 (JS.Math_min 100 (JS.Math_round y)) = JS.Z2F n.
Proof.
  intros [Hy | [Hy | (q & e & Hy)]].
  - exists 0%Z. split; [lia | now rewrite clamp_nonpos].
  - exists 100%Z. split; [lia |]. rewrite clamp_at_least; [reflexivity |].
    now left.
  - destruct (Z.leb_spec 0 e) as [He | He].
    + exists 100%Z. split; [lia |]. rewrite clamp_at_least; [reflexivity |].
      right. exists q, e. split; [exact Hy |].
      pose proof (Prim2SF_canon _ _ _ _ Hy) as Hc. unfold canon in Hc.
      rewrite fexp_spec in Hc.
      pose proof (F2R_bounds q e) as [Hl _].
      rewrite F2R_100.
      assert (bpow 52 <= bpow (digits q - 1 + e)) by (apply bpow_le; lia).
      assert (100 <= bpow 52)
        by (rewrite bpow_IZR by lia; apply IZR_le; vm_compute; discriminate).
      lra.
    + pose proof (JS.Math_round y) as r.
      assert (0 <= JS.round_half_up false q e)%Z as Hn0.
      { unfold JS.round_half_up. destruct (Z.leb_spec 0 e); [lia |].
        rewrite Z.shiftr_div_pow2 by lia. cbn [JS.signed].
        assert (0 < 2 ^ (- e))%Z by (apply Z.pow_pos_nonneg; lia).
        apply Z.div_pos; [lia | apply Z.pow_pos_nonneg; lia]. }
      assert (JS.Math_round y
              = if (JS.round_half_up false q e =? 0)%Z then 0%float
                else JS.Z2F (JS.round_half_up false q e)) as Hr.
      { unfold JS.Math_round. rewrite Hy.
        now destruct (Z.leb_spec 0 e); [lia |]. }
      rewrite Hr.
      set (n := JS.round_half_up false q e) in *.
      destruct (Z.eqb_spec n 0) as [Hz | Hz].
      * exists 0%Z. split; [lia | vm_compute; reflexivity].
      * destruct (Z_lt_le_dec n 100) as [Hlt | Hge].
        -- exists n. split; [lia | apply clamp_small_integers; lia].
        -- exists 100%Z. split; [lia |].
           rewrite Math_min_100_at_least; [vm_compute; reflexivity |].
           destruct n as [| pn | pn]; try lia.
           apply Z2F_at_least; [reflexivity |].
           rewrite F2R_100. now apply IZR_le.
Qed.

(** The quotient scaled to a percentage is never NaN for finite minutes
    and a positive finite duration. *)
Lemma percentage_class c d :
  is_finite c = true -> is_finite d = true -> (0 <? d)%float = true ->
  let y := (c / d * 100)%float in
  nonpos y \/ Prim2SF y = S754_infinity false
  \/ (exists q e, Prim2SF y = S754_finite false q e).
Proof.
  intros Hc Hd Hpos; cbv zeta.
  destruct (positive_SF d Hd Hpos) as (md & ed & Ed).
  destruct (is_finite_SF c Hc) as [(s & Ec) | ([] & mc & ec & Ec)].
  - left. apply mul_100_nonpos.
    apply (div_nonpos c d md ed); [| congruence | exact Ed].
    unfold nonpos. now rewrite Ec.
  - left. apply mul_100_nonpos.
    apply (div_nonpos c d md ed); [| congruence | exact Ed].
    unfold nonpos. now rewrite Ec.
  - assert (Prim2SF (c / d) = S754_zero false
            \/ Prim2SF (c / d) = S754_infinity false
            \/ exists q e, Prim2SF (c / d) = S754_finite false q e) as Hq.
    { rewrite div_spec, Ec, Ed. unfold SF64div. cbn [SFdiv xorb].
      rewrite SFdiv_core_spec.
      apply binary_round_aux_sign.
      apply Z.div_pos; [| lia].
      apply Z.mul_nonneg_nonneg; [lia | apply Z.pow_nonneg; lia]. }
    rewrite mul_spec, Prim2SF_100. unfold SF64mul, nonpos.
    rewrite mul_spec, Prim2SF_100. unfold SF64mul.
    destruct Hq as [-> | [-> | (q & e & ->)]]; cbn [SFmul xorb].
    + now left.
    + right; now left.
    + destruct (binary_round_aux_sign false (Z.pos (q * m_100)) (e + -46)
                  loc_Exact ltac:(lia)) as [-> | [-> | (q' & e' & ->)]].
      * now left.
      * right; now left.
      * right; right. now exists q', e'.
Qed.

(** Bits shifted out: when they are all zero and nothing was lost before,
    the shifted record is exact. *)
Lemma shr_1_exact mrs :
  (0 <= shr_m mrs)%Z -> shr_r mrs = false -> shr_s mrs = false ->
  (shr_m mrs mod 2 = 0)%Z ->
  shr_r (shr_1 mrs) = false /\ shr_s (shr_1 mrs) = false.
Proof.
  destruct mrs as [[| [p | p |] | p] r s]; cbn [shr_m shr_r shr_s];
    intros Hm -> -> Hmod; cbn; try (split; reflexivity); try lia.
  - rewrite Pos2Z.inj_xI in Hmod.
    rewrite Z.add_comm, Z.mul_comm, Z.mod_add in Hmod by lia. discriminate.
  - discriminate.
Qed.

Lemma iter_shr_1_exact n mrs :
  (0 <= shr_m mrs)%Z -> shr_r mrs = false -> shr_s mrs = false ->
  (shr_m mrs mod 2 ^ Z.pos n = 0)%Z ->
  shr_r (iter_pos shr_1 n mrs) = false /\ shr_s (iter_pos shr_1 n mrs) = false.
Proof.
  revert mrs.
  assert (forall a k, (0 < k)%Z -> (a mod (k * k) = 0 -> a mod k = 0 /\ (a / k) mod k = 0)%Z) as Hsq.
  { intros a k Hk H. apply Z.mod_divide in H; [| nia]. destruct H as [b ->].
    split.
    - apply Z.mod_divide; [lia |]. exists (b * k)%Z. ring.
    - replace (b * (k * k))%Z with (b * k * k)%Z by ring.
      rewrite Z.div_mul by lia. apply Z.mod_mul; lia. }
  induction n as [n IH | n IH |]; intros mrs Hm Hr Hs Hmod; cbn [iter_pos].
  - assert (0 < 2 ^ Z.pos n)%Z as Hp by (apply Z.pow_pos_nonneg; lia).
    rewrite Pos.xI_succ_xO, Pos2Z.inj_succ, Z.pow_succ_r in Hmod by lia.
    rewrite <- (Pos.add_diag n), Pos2Z.inj_add, Z.pow_add_r in Hmod by lia.
    apply Z.mod_divide in Hmod; [| nia]. destruct Hmod as [b Hb].
    assert (shr_m mrs mod 2 = 0)%Z as H2
        by (rewrite Hb; apply Z.mod_divide; [lia |]; exists (b * (2 ^ Z.pos n * 2 ^ Z.pos n))%Z; ring).
    destruct (shr_1_exact mrs Hm Hr Hs H2) as [Hr1 Hs1].
    assert (shr_m (shr_1 mrs) = b * (2 ^ Z.pos n * 2 ^ Z.pos n))%Z as Hm1.
    { rewrite shr_1_m, Z.div2_div, Hb by lia.
      replace (b * (2 * (2 ^ Z.pos n * 2 ^ Z.pos n)))%Z
        with (b * (2 ^ Z.pos n * 2 ^ Z.pos n) * 2)%Z by ring.
      apply Z.div_mul; lia. }
    assert (0 <= shr_m (shr_1 mrs))%Z as Hm1'
        by (rewrite shr_1_m, Z.div2_div by lia; apply Z.div_pos; lia).
    destruct (Hsq (shr_m (shr_1 mrs)) (2 ^ Z.pos n)%Z Hp) as [Ha Hb'].
    { rewrite Hm1. apply Z.mod_mul. nia. }
    destruct (IH _ Hm1' Hr1 Hs1 Ha) as [Hr2 Hs2].
    apply IH; try assumption.
    + rewrite iter_shr_1_m by assumption. apply Z.div_pos; lia.
    + rewrite iter_shr_1_m by assumption. exact Hb'.
  - assert (0 < 2 ^ Z.pos n)%Z as Hp by (apply Z.pow_pos_nonneg; lia).
    rewrite <- (Pos.add_diag n), Pos2Z.inj_add, Z.pow_add_r in Hmod by lia.
    destruct (Hsq _ _ Hp Hmod) as [Ha Hb].
    destruct (IH _ Hm Hr Hs Ha) as [Hr2 Hs2].
    apply IH; try assumption.
    + rewrite iter_shr_1_m by assumption. apply Z.div_pos; lia.
    + rewrite iter_shr_1_m by assumption. exact Hb.
  - apply shr_1_exact; assumption.
Qed.

(** If the first rounding step reports an inexact location, the exact
    value lies strictly above the truncated one. *)
Lemma shr_fexp_inexact p e l :
  (e <= fexp (digits p + e))%Z ->
  loc_of_shr_record (fst (shr_fexp prec emax (Z.pos p) e l)) <> loc_Exact ->
  l <> loc_Exact
  \/ (Z.pos p mod 2 ^ (fexp (digits p + e) - e) <> 0)%Z.
Proof.
  intros Hpre Hloc.
  destruct l as [| c]; [| left; discriminate].
  right. intro Hmod. apply Hloc.
  unfold shr_fexp, shr. cbn [Zdigits2]. fold (digits p).
  destruct (fexp (digits p + e) - e)%Z as [| n | n]; cbn [fst]; try reflexivity.
  destruct (iter_shr_1_exact n (shr_record_of_loc (Z.pos p) loc_Exact)
              ltac:(cbn; lia) eq_refl eq_refl Hmod) as [Hr Hs].
  destruct (iter_pos shr_1 n _) as [m r s]. cbn in Hr, Hs. now subst.
Qed.

Lemma round_nearest_even_up m l :
  round_nearest_even m l = m \/ (round_nearest_even m l = (m + 1)%Z /\ l <> loc_Exact).
Proof.
  destruct l as [| []]; cbn; auto.
  - destruct (Z.even m); [now left | right; split; [reflexivity | discriminate]].
  - right; split; [reflexivity | discriminate].
Qed.

Lemma F2R_div_pow2 p n e :
  (0 <= n)%Z -> F2R (Z.pos p / 2 ^ n) (e + n) <= F2R (Z.pos p) e.
Proof.
  intro Hn. unfold F2R. rewrite bpow_add, (bpow_IZR n) by assumption.
  assert (0 < 2 ^ n)%Z as Hp by (apply Z.pow_pos_nonneg; lia).
  pose proof (Z.mul_div_le (Z.pos p) (2 ^ n) Hp) as H.
  apply IZR_le in H. rewrite mult_IZR in H.
  pose proof (bpow_pos e). nra.
Qed.

Lemma F2R_div_pow2_lt p n e :
  (0 <= n)%Z -> (Z.pos p mod 2 ^ n <> 0)%Z ->
  F2R (Z.pos p / 2 ^ n) (e + n) < F2R (Z.pos p) e.
Proof.
  intros Hn Hmod. unfold F2R. rewrite bpow_add, (bpow_IZR n) by assumption.
  assert (0 < 2 ^ n)%Z as Hp by (apply Z.pow_pos_nonneg; lia).
  pose proof (Z.div_mod (Z.pos p) (2 ^ n) ltac:(lia)) as Hdm.
  pose proof (Z.mod_pos_bound (Z.pos p) (2 ^ n) Hp) as Hb.
  assert (2 ^ n * (Z.pos p / 2 ^ n) < Z.pos p)%Z as H by lia.
  apply IZR_lt in H. rewrite mult_IZR in H.
  pose proof (bpow_pos e). nra.
Qed.

(** Rounding to nearest never rises above a representable number that
    the exact value does not exceed. *)
Lemma binary_round_aux_upper P E s p e l (v : R) :
  canon P E -> (E <= emax - prec)%Z ->
  F2R (Z.pos p) e <= v ->
  (l <> loc_Exact -> F2R (Z.pos p) e < v) ->
  v <= F2R (Z.pos P) E ->
  (e <= fexp (digits p + e))%Z ->
  let r := binary_round_aux prec emax s (Z.pos p) e l in
  r = S754_zero s
  \/ exists q e', r = S754_finite s q e'
                  /\ F2R (Z.pos q) e' <= F2R (Z.pos P) E.
Proof.
  intros HP HE Hlo Hstrict Hhi Hpre; cbv zeta.
  unfold binary_round_aux.
  destruct (shr_fexp_spec p e l) as [Hm He]; cbv zeta in Hm, He.
  pose proof (shr_fexp_inexact p e l Hpre) as Hin.
  set (e1 := fexp (digits p + e)) in *.
  set (n := (e1 - e)%Z) in *.
  assert (Z.max 0 n = n) as Hmax by (unfold n; lia).
  rewrite Hmax in Hm, He.
  assert (e + n = e1)%Z as Hen by (unfold n; lia).
  rewrite Hen in He.
  assert (0 <= n)%Z as Hn0 by (unfold n; lia).
  assert (0 < 2 ^ n)%Z as Hpn by (apply Z.pow_pos_nonneg; lia).
  set (m1 := (Z.pos p / 2 ^ n)%Z) in *.
  assert (0 <= m1)%Z as Hm1 by (apply Z.div_pos; lia).
  assert (F2R m1 e1 <= F2R (Z.pos p) e) as Hfl.
  { replace e1 with (e + n)%Z by (unfold n; lia). now apply F2R_div_pow2. }
  assert (e1 <= E)%Z as He1E.
  { unfold e1. rewrite HP. apply fexp_mono, F2R_le_digits. lra. }
  set (K := (Z.pos P * 2 ^ (E - e1))%Z).
  assert (F2R (Z.pos P) E = F2R K e1) as HK.
  { unfold F2R, K. rewrite mult_IZR, <- bpow_IZR by lia.
    replace E with ((E - e1) + e1)%Z at 1 by lia. rewrite bpow_add. ring. }
  destruct (shr_fexp prec emax (Z.pos p) e l) as [mrs1 e1'].
  cbn [fst snd] in Hm, He, Hin. subst e1'. rewrite Hm.
  assert (round_nearest_even m1 (loc_of_shr_record mrs1) <= K)%Z as Hm2.
  { destruct (round_nearest_even_up m1 (loc_of_shr_record mrs1))
      as [-> | [-> Hne]].
    - apply le_IZR. pose proof (bpow_pos e1). unfold F2R in *. nra.
    - assert (F2R m1 e1 < v) as Hlt.
      { destruct (Hin Hne) as [Hl | Hmod].
        - specialize (Hstrict Hl). lra.
        - apply Rlt_le_trans with (F2R (Z.pos p) e); [| exact Hlo].
          replace e1 with (e + n)%Z by (unfold n; lia).
          apply F2R_div_pow2_lt; [lia | exact Hmod]. }
      assert (m1 < K)%Z; [| lia].
      apply lt_IZR. pose proof (bpow_pos e1). unfold F2R in *. nra. }
  pose proof (round_nearest_even_bounds m1 (loc_of_shr_record mrs1)) as Hb.
  destruct (round_nearest_even m1 (loc_of_shr_record mrs1)) as [| q2 | q2];
    [| | lia].
  { left. pose proof (shr_fexp_zero e1 loc_Exact) as Hz.
    destruct (shr_fexp prec emax 0 e1 loc_Exact) as [mrs0 e0].
    cbn [fst] in Hz. now rewrite Hz. }
  (* the rounded mantissa still fits the exponent *)
  assert (e1 <= fexp (digits q2 + e1))%Z as Hpre2.
  { destruct (Z.eq_dec m1 0) as [H0 | H0].
    - assert (Z.pos p < 2 ^ n)%Z as Hsmall.
      { destruct (Z_lt_le_dec (Z.pos p) (2 ^ n)) as [|Hge]; [assumption |].
        assert (1 <= m1)%Z; [| lia].
        unfold m1. apply Z.div_le_lower_bound; lia. }
      pose proof (digits_bounds p) as [Hl _].
      assert (digits p - 1 < n)%Z as Hd.
      { apply (Z.pow_lt_mono_r_iff 2); lia. }
      unfold e1, n in *. rewrite !fexp_spec in *. lia.
    - destruct m1 as [| q1 | q1] eqn:Eq1; try lia.
      pose proof (digits_div p q1 n ltac:(lia) Eq1) as Hdq.
      pose proof (digits_le q1 q2 ltac:(lia)) as Hd12.
      apply Z.le_trans with (fexp (digits q1 + e1)); [| apply fexp_mono; lia].
      rewrite Hdq. replace (digits p - n + e1)%Z with (digits p + e)%Z
        by (unfold n; lia). fold e1. lia. }
  assert (F2R (Z.pos q2) e1 <= F2R (Z.pos P) E) as Hq2.
  { rewrite HK. unfold F2R. apply IZR_le in Hm2.
    pose proof (bpow_pos e1). nra. }
  destruct (shr_fexp_spec q2 e1 loc_Exact) as [Hm3 He3]; cbv zeta in Hm3, He3.
  set (e3 := fexp (digits q2 + e1)) in *.
  replace (Z.max 0 (e3 - e1)) with (e3 - e1)%Z in Hm3, He3 by lia.
  replace (e1 + (e3 - e1))%Z with e3 in He3 by lia.
  destruct (shr_fexp prec emax (Z.pos q2) e1 loc_Exact) as [mrs3 e3'].
  cbn [fst snd] in Hm3, He3. subst e3'. rewrite Hm3.
  assert (0 < 2 ^ (e3 - e1))%Z by (apply Z.pow_pos_nonneg; lia).
  assert (0 <= Z.pos q2 / 2 ^ (e3 - e1))%Z as Hm3' by (apply Z.div_pos; lia).
  destruct (Z.pos q2 / 2 ^ (e3 - e1))%Z as [| q3 | q3] eqn:Eq3;
    [left; reflexivity | | lia].
  assert (e3 <= E)%Z as He3E.
  { unfold e3. rewrite HP. apply fexp_mono, F2R_le_digits. exact Hq2. }
  destruct (Z.leb_spec e3 (emax - prec)); [| lia].
  right. exists q3, e3. split; [reflexivity |].
  apply Rle_trans with (2 := Hq2).
  pose proof (F2R_div_pow2 q2 (e3 - e1) e1 ltac:(lia)) as Hd.
  rewrite Eq3 in Hd.
  now replace (e1 + (e3 - e1))%Z with e3 in Hd by lia.
Qed.

(** Addition to 1 and division of 10.5. *)

Lemma shl_align_value p e e' :
  (e' <= e)%Z ->
  F2R (Z.pos (fst (shl_align p e e'))) e' = F2R (Z.pos p) e.
Proof.
  intro Hle. unfold shl_align.
  destruct (e' - e)%Z as [| d | d] eqn:Hd; cbn [fst]; try lia.
  - now replace e' with e by lia.
  - fold (shift_pos d p).
    rewrite shift_pos_correct. change (Z.pow_pos 2 d) with (2 ^ Z.pos d)%Z.
    unfold F2R. rewrite mult_IZR, <- bpow_IZR by lia.
    replace e with (Z.pos d + e')%Z by lia. rewrite bpow_add. ring.
Qed.

Lemma leb_0_nonneg x : (0 <=? x)%float = true -> nonneg x.
Proof.
  rewrite FloatAxioms.leb_spec, Prim2SF_0. unfold nonneg.
  now destruct (Prim2SF x) as [s | [] | | [] m e].
Qed.

Lemma add_one_at_least x : nonneg x -> at_least m_one (-52) (1 + x)%float.
Proof.
  unfold nonneg, at_least. rewrite add_spec, Prim2SF_one. unfold SF64add.
  destruct (Prim2SF x) as [s | [] | | [] m e]; try contradiction; intros _;
    cbn [SFadd].
  - right. exists m_one, (-52)%Z. split; [reflexivity | lra].
  - now left.
  - cbn [cond_Zopp]. rewrite <- Pos2Z.inj_add. cbn [binary_normalize].
    apply (binary_round_lower m_one (-52) false _ _ ltac:(reflexivity)).
    unfold F2R at 2. rewrite Pos2Z.inj_add, plus_IZR, Rmult_plus_distr_r.
    fold (F2R (Z.pos (fst (shl_align m_one (-52) (Z.min (-52) e))))
            (Z.min (-52) e)).
    rewrite (shl_align_value m_one (-52)) by lia.
    pose proof (bpow_pos (Z.min (-52) e)).
    assert (0 < IZR (Z.pos (fst (shl_align m e (Z.min (-52) e)))))
      by (apply IZR_lt; lia).
    nra.
Qed.

Lemma Prim2SF_10_5 : Prim2SF 10.5 = S754_finite false m_10_5 (-49).
Proof. vm_compute; reflexivity. Qed.

Lemma new_location_inexact nb k :
  new_location nb k <> loc_Exact -> k <> 0%Z.
Proof.
  intros H ->. apply H. unfold new_location, new_location_even,
    new_location_odd. now destruct (Z.even nb).
Qed.

(** A positive normal double of at least 1 has a 53-bit mantissa. *)
Lemma at_least_one_normal q e :
  canon q e -> F2R (Z.pos m_one) (-52) <= F2R (Z.pos q) e ->
  digits q = 53%Z /\ (-52 <= e)%Z.
Proof.
  intros Hc Hle. rewrite F2R_one in Hle.
  pose proof (F2R_bounds q e) as [_ Hu].
  assert (bpow 0 < bpow (digits q + e)) as Hlt
      by (unfold bpow at 1; cbn [powerRZ]; lra).
  apply bpow_lt_inv in Hlt.
  unfold canon in Hc. rewrite fexp_spec in Hc. lia.
Qed.

Lemma div_10_5_range y :
  at_least m_one (-52) y ->
  let r := (10.5 / y)%float in
  (exists s, Prim2SF r = S754_zero s)
  \/ exists q e, Prim2SF r = S754_finite false q e
                 /\ F2R (Z.pos q) e <= F2R (Z.pos m_10_5) (-49).
Proof.
  intros [Hy | (my & ey & Hy & Hle)]; cbv zeta;
    rewrite div_spec, Prim2SF_10_5, Hy; unfold SF64div; cbn [SFdiv xorb].
  - left. now exists false.
  - pose proof (Prim2SF_canon _ _ _ _ Hy) as Hcy.
    destruct (at_least_one_normal my ey Hcy Hle) as [Hdy Hey].
    assert (ey <= emax - prec)%Z as Hby.
    { pose proof (Prim2SF_valid y) as Hv. rewrite Hy in Hv.
      cbn [valid_binary] in Hv. unfold bounded in Hv.
      apply andb_true_iff in Hv. now apply Z.leb_le. }
    change (emax - prec)%Z with 971%Z in Hby.
    rewrite SFdiv_core_spec.
    change (digits m_10_5) with 53%Z. rewrite Hdy.
    assert (Z.min (fexp (53 + -49 - (53 + ey))) (-49 - ey) = -102 - ey)%Z
      as -> by (rewrite fexp_spec; lia).
    replace (-49 - ey - (-102 - ey))%Z with 53%Z by lia.
    set (m' := (Z.pos m_10_5 * 2 ^ 53)%Z).
    pose proof (digits_bounds my) as [Hyl Hyu]. rewrite Hdy in Hyl, Hyu.
    change (2 ^ (53 - 1))%Z with 4503599627370496%Z in Hyl.
    change (2 ^ 53)%Z with 9007199254740992%Z in Hyu.
    assert (4503599627370496 <= m' / Z.pos my)%Z as Hq.
    { apply Z.div_le_lower_bound; [lia |]. unfold m', m_10_5.
      change (2 ^ 53)%Z with 9007199254740992%Z. lia. }
    pose proof (Z.div_mod m' (Z.pos my) ltac:(lia)) as Hdm.
    pose proof (Z.mod_pos_bound m' (Z.pos my) ltac:(lia)) as Hmod.
    destruct (m' / Z.pos my)%Z as [| q | q] eqn:Eq; try lia.
    assert (0 < IZR (Z.pos my)) as Hmy by (apply IZR_lt; lia).
    rewrite F2R_one in Hle. unfold F2R in Hle.
    set (v := IZR m' / IZR (Z.pos my) * bpow (-102 - ey)).
    assert (IZR (Z.pos q) * IZR (Z.pos my) + IZR (m' mod Z.pos my) = IZR m')
      as HR by (rewrite <- mult_IZR, <- plus_IZR; f_equal; lia).
    assert (0 <= IZR (m' mod Z.pos my)) as Hr0 by (apply IZR_le; lia).
    pose proof (bpow_pos (-102 - ey)) as Hbp.
    assert (IZR m' / IZR (Z.pos my)
            = IZR (Z.pos q) + IZR (m' mod Z.pos my) / IZR (Z.pos my)) as Hquot
      by (rewrite <- HR; field; lra).
    assert (0 <= IZR (m' mod Z.pos my) / IZR (Z.pos my)) as Hfrac
      by (apply Rmult_le_pos; [lra | left; now apply Rinv_0_lt_compat]).
    destruct (binary_round_aux_upper m_10_5 (-49) false q (-102 - ey)
                (new_location (Z.pos my) (m' mod Z.pos my)) v
                ltac:(reflexivity) ltac:(vm_compute; discriminate))
      as [Hz | Hfin].
    + unfold v, F2R. rewrite Hquot. nra.
    + intro Hne. apply new_location_inexact in Hne.
      assert (0 < IZR (m' mod Z.pos my)) as Hr1 by (apply IZR_lt; lia).
      assert (0 < IZR (m' mod Z.pos my) / IZR (Z.pos my))
        by (apply Rmult_lt_0_compat; [lra | now apply Rinv_0_lt_compat]).
      unfold v, F2R. rewrite Hquot. nra.
    + (* the exact quotient is 10.5 / y <= 10.5 *)
      unfold v, F2R, m'. rewrite mult_IZR, <- (bpow_IZR 53) by lia.
      replace (-102 - ey)%Z with (-53 + (-49 + - ey))%Z by lia.
      rewrite !bpow_add.
      assert (bpow 53 * bpow (-53) = 1) as H53
          by (rewrite <- bpow_add; reflexivity).
      assert (bpow ey * bpow (- ey) = 1) as H1.
      { rewrite <- bpow_add. replace (ey + - ey)%Z with 0%Z by lia.
        reflexivity. }
      pose proof (bpow_pos ey). pose proof (bpow_pos (- ey)).
      pose proof (bpow_pos (-49)).
      assert (0 < IZR (Z.pos m_10_5)) by (apply IZR_lt; lia).
      assert (bpow (- ey) <= IZR (Z.pos my)) as Hinv by nra.
      set (t := bpow (- ey) / IZR (Z.pos my)).
      assert (t * IZR (Z.pos my) = bpow (- ey)) as Ht
          by (unfold t; field; lra).
      assert (t <= 1) as Ht1 by nra.
      assert (0 <= t) as Ht0
          by (unfold t; apply Rmult_le_pos;
              [lra | left; now apply Rinv_0_lt_compat]).
      assert (IZR (Z.pos m_10_5) * bpow 53 / IZR (Z.pos my)
                * (bpow (-53) * (bpow (-49) * bpow (- ey)))
              = bpow 53 * bpow (-53) * (IZR (Z.pos m_10_5) * bpow (-49) * t))
        as -> by (unfold t; field; lra).
      rewrite H53, Rmult_1_l.
      assert (0 < IZR (Z.pos m_10_5) * bpow (-49)) as HAB
          by (apply Rmult_lt_0_compat; lra).
      set (AB := IZR (Z.pos m_10_5) * bpow (-49)) in *. nra.
    + pose proof (digits_le m_one q ltac:(unfold m_one; lia)) as Hd.
      change (digits m_one) with 53%Z in Hd.
      rewrite fexp_spec. lia.
    + left. now exists false.
    + right. exact Hfin.
Qed.

(** The round and sticky bits after a right shift. *)
Lemma iter_pos_nat {A : Type} (f : A -> A) (p : positive) (x : A) :
  iter_pos f p x = Nat.iter (Pos.to_nat p) f x.
Proof.
  revert x.
  induction p as [p IH | p IH |]; intro x; cbn [iter_pos].
  - rewrite !IH, Pos2Nat.inj_xI.
    replace (S (2 * Pos.to_nat p)) with (Pos.to_nat p + Pos.to_nat p + 1)%nat
      by lia.
    now rewrite !Nat.iter_add.
  - rewrite !IH, Pos2Nat.inj_xO.
    replace (2 * Pos.to_nat p)%nat with (Pos.to_nat p + Pos.to_nat p)%nat
      by lia.
    now rewrite Nat.iter_add.
  - reflexivity.
Qed.

Lemma shr_1_bits mrs :
  (0 <= shr_m mrs)%Z ->
  shr_r (shr_1 mrs) = Z.odd (shr_m mrs)
  /\ shr_s (shr_1 mrs) = shr_r mrs || shr_s mrs.
Proof.
  destruct mrs as [[| [p | p |] | p] r s]; cbn [shr_m]; intro H;
    (lia || (split; reflexivity)).
Qed.

Lemma mod_pow2_succ m k :
  (0 <= k)%Z ->
  negb (m mod 2 ^ (k + 1) =? 0)%Z
  = Z.odd (m / 2 ^ k) || negb (m mod 2 ^ k =? 0)%Z.
Proof.
  intro Hk.
  assert (0 < 2 ^ k)%Z as Hp by (apply Z.pow_pos_nonneg; lia).
  rewrite Z.pow_add_r, Z.pow_1_r, Z.rem_mul_r by lia.
  rewrite Zmod_odd.
  pose proof (Z.mod_pos_bound m (2 ^ k) Hp) as Hb.
  destruct (Z.odd (m / 2 ^ k)); cbn [orb].
  - apply negb_true_iff, Z.eqb_neq. lia.
  - now rewrite Z.mul_0_r, Z.add_0_r.
Qed.

Lemma iter_shr_1_bits k mrs :
  (0 <= shr_m mrs)%Z ->
  let mrs' := Nat.iter (S k) shr_1 mrs in
  shr_m mrs' = (shr_m mrs / 2 ^ (Z.of_nat k + 1))%Z
  /\ shr_r mrs' = Z.odd (shr_m mrs / 2 ^ Z.of_nat k)
  /\ shr_s mrs'
     = negb (shr_m mrs mod 2 ^ Z.of_nat k =? 0)%Z || (shr_r mrs || shr_s mrs).
Proof.
  intro Hm. cbv zeta.
  induction k as [| k IH].
  - cbn [Nat.iter]. destruct (shr_1_bits mrs Hm) as [Hr Hs].
    rewrite shr_1_m, Z.div2_div by assumption.
    change (2 ^ Z.of_nat 0)%Z with 1%Z. rewrite Z.div_1_r, Z.mod_1_r.
    repeat split; assumption.
  - destruct IH as (IHm & IHr & IHs).
    set (prev := Nat.iter (S k) shr_1 mrs) in *.
    change (Nat.iter (S (S k)) shr_1 mrs) with (shr_1 prev).
    assert (0 < 2 ^ (Z.of_nat k + 1))%Z as Hp by (apply Z.pow_pos_nonneg; lia).
    assert (0 <= shr_m prev)%Z as Hprev
        by (rewrite IHm; apply Z.div_pos; lia).
    destruct (shr_1_bits prev Hprev) as [Hr Hs].
    rewrite shr_1_m, Z.div2_div, Hr, Hs, IHm, IHr, IHs by assumption.
    rewrite Nat2Z.inj_succ. unfold Z.succ.
    repeat split.
    + rewrite Z.div_div by lia. f_equal.
      rewrite (Z.pow_add_r 2 (Z.of_nat k + 1) 1), Z.pow_1_r by lia.
      reflexivity.
    + rewrite (mod_pow2_succ _ (Z.of_nat k)) by lia.
      now rewrite orb_assoc.
Qed.

Lemma Prim2SF_2m53 : Prim2SF 0x1p-53 = S754_finite false m_one (-105).
Proof. vm_compute; reflexivity. Qed.

(** Adding a number of at most 2^-53 to 1 gives 1: the sum lies at most
    halfway to the next double, and on the tie the even mantissa of 1
    wins. *)
Lemma add_one_tiny x :
  (0 <=? x)%float = true -> (x <=? 0x1p-53)%float = true ->
  (1 + x)%float = 1%float.
Proof.
  intros H0 Hle.
  apply Prim2SF_inj. rewrite add_spec, Prim2SF_one. unfold SF64add.
  pose proof (leb_0_nonneg _ H0) as Hx. unfold nonneg in Hx.
  rewrite FloatAxioms.leb_spec, Prim2SF_2m53 in Hle.
  destruct (Prim2SF x) as [s | [] | | [] me ee] eqn:Ex; try contradiction;
    try discriminate; [reflexivity |].
  pose proof (Prim2SF_canon _ _ _ _ Ex) as Hc.
  (* the value of [x] is at most 2^-53 *)
  assert (F2R (Z.pos me) ee <= F2R (Z.pos m_one) (-105)) as Hv.
  { pose proof (SFcompare_canon me ee m_one (-105) Hc ltac:(reflexivity))
      as Hcmp.
    unfold SFleb in Hle.
    destruct (SFcompare (S754_finite false me ee)
                (S754_finite false m_one (-105))) as [[| |] |];
      try discriminate; [destruct Hcmp as [-> ->] |]; lra. }
  pose proof (F2R_le_digits _ _ _ _ Hv) as Hd.
  change (digits m_one) with 53%Z in Hd.
  assert (ee <= -105)%Z as Hee
      by (unfold canon in Hc; rewrite fexp_spec in Hc; lia).
  set (d := (-52 - ee)%Z).
  assert (53 <= d)%Z as Hd53 by (unfold d; lia).
  assert (0 < 2 ^ (d - 1))%Z as Hpd by (apply Z.pow_pos_nonneg; lia).
  assert (Z.pos me <= 2 ^ (d - 1))%Z as Hme.
  { apply le_IZR. rewrite <- bpow_IZR by lia.
    unfold F2R in Hv.
    assert (IZR (Z.pos m_one) * bpow (-105) = bpow (d - 1) * bpow ee) as E.
    { change (IZR (Z.pos m_one)) with (IZR (2 ^ 52)).
      rewrite <- (bpow_IZR 52), <- !bpow_add by lia. f_equal. unfold d. lia. }
    rewrite E in Hv. pose proof (bpow_pos ee). nra. }
  (* the aligned sum *)
  cbn [SFadd cond_Zopp].
  replace (Z.min (-52) ee) with ee by lia.
  assert (shl_align m_one (-52) ee = (shift_pos (Z.to_pos d) m_one, ee))
    as Ha.
  { unfold shl_align. replace (ee - -52)%Z with (Z.neg (Z.to_pos d))
      by (unfold d; lia). reflexivity. }
  assert (shl_align me ee ee = (me, ee)) as Hb
      by (unfold shl_align; now rewrite Z.sub_diag).
  rewrite Ha, Hb. cbn [fst].
  assert (Z.pos (shift_pos (Z.to_pos d) m_one) = 2 ^ (52 + d))%Z as Hsh.
  { rewrite shift_pos_correct.
    change (Z.pow_pos 2 (Z.to_pos d)) with (2 ^ Z.pos (Z.to_pos d))%Z.
    rewrite Z2Pos.id by lia. change (Z.pos m_one) with (2 ^ 52)%Z.
    rewrite <- Z.pow_add_r by lia. f_equal. lia. }
  rewrite <- Pos2Z.inj_add. cbn [binary_normalize].
  set (sm := (shift_pos (Z.to_pos d) m_one + me)%positive).
  assert (Z.pos sm = 2 ^ (52 + d) + Z.pos me)%Z as HS
      by (unfold sm; rewrite Pos2Z.inj_add, Hsh; reflexivity).
  assert (2 ^ (d - 1) * 2 = 2 ^ d)%Z as Hdd.
  { replace d with (d - 1 + 1)%Z at 2 by lia.
    now rewrite Z.pow_add_r, Z.pow_1_r by lia. }
  assert (0 < 2 ^ d)%Z as Hpdd by lia.
  assert (2 ^ (52 + d) = 4503599627370496 * 2 ^ d)%Z as H52
      by (rewrite Z.pow_add_r by lia; reflexivity).
  assert (digits sm = 53 + d)%Z as HdS.
  { rewrite digits_log2.
    rewrite (Z.log2_unique (Z.pos sm) (52 + d)); [lia | lia |].
    rewrite HS. split; [lia |].
    replace (Z.succ (52 + d)) with (52 + d + 1)%Z by lia.
    rewrite (Z.pow_add_r 2 (52 + d) 1), Z.pow_1_r by lia. lia. }
  unfold binary_round. fold (digits sm). rewrite HdS.
  replace (fexp (53 + d + ee)) with (-52)%Z
    by (rewrite fexp_spec; unfold d; lia).
  assert (shl_align sm ee (-52) = (sm, ee)) as ->.
  { unfold shl_align. destruct (-52 - ee)%Z eqn:E; try reflexivity.
    unfold d in Hd53. lia. }
  unfold binary_round_aux, shr_fexp. cbn [Zdigits2]. fold (digits sm).
  rewrite HdS.
  replace (fexp (53 + d + ee)) with (-52)%Z
    by (rewrite fexp_spec; unfold d; lia).
  fold d. unfold shr.
  destruct d as [| pd | pd] eqn:Ed; try lia.
  rewrite iter_pos_nat.
  destruct (Pos2Nat.is_succ pd) as [k Hk]. rewrite Hk.
  assert (Z.pos pd = Z.of_nat k + 1)%Z as Hkd by lia.
  destruct (iter_shr_1_bits k (shr_record_of_loc (Z.pos sm) loc_Exact)
              ltac:(cbn; lia)) as (Hm & Hr & Hs).
  cbn [shr_record_of_loc shr_m shr_r shr_s orb] in Hm, Hr, Hs.
  rewrite orb_false_r in Hs.
  replace (Z.of_nat k) with (Z.pos pd - 1)%Z in Hr, Hs by lia.
  rewrite <- Hkd in Hm.
  change {| shr_m := Z.pos sm; shr_r := false; shr_s := false |}
    with (shr_record_of_loc (Z.pos sm) loc_Exact) in Hm, Hr, Hs.
  set (mrs := Nat.iter (S k) shr_1
                (shr_record_of_loc (Z.pos sm) loc_Exact)) in *.
  (* the shifted mantissa is that of 1 *)
  assert (shr_m mrs = Z.pos m_one) as Hm1.
  { rewrite Hm, HS, H52.
    rewrite Z.add_comm, Z.div_add by lia.
    rewrite Z.div_small by lia. reflexivity. }
  (* rounding does not go up *)
  assert (round_nearest_even (shr_m mrs) (loc_of_shr_record mrs)
          = Z.pos m_one) as Hrne.
  { rewrite Hm1.
    destruct (shr_r mrs) eqn:Er.
    - (* the round bit is set: an exact tie *)
      assert (Z.pos me = 2 ^ (Z.pos pd - 1))%Z as Htie.
      { rewrite HS, H52 in Hr.
        replace (4503599627370496 * 2 ^ Z.pos pd)%Z
          with (9007199254740992 * 2 ^ (Z.pos pd - 1))%Z in Hr by lia.
        rewrite Z.add_comm, Z.div_add in Hr by lia.
        destruct (Z.eq_dec (Z.pos me) (2 ^ (Z.pos pd - 1))) as [|Hne];
          [assumption |].
        rewrite Z.div_small in Hr by lia. discriminate. }
      assert (shr_s mrs = false) as Es.
      { rewrite Hs. apply negb_false_iff, Z.eqb_eq.
        rewrite HS, H52, Htie.
        replace (4503599627370496 * 2 ^ Z.pos pd + 2 ^ (Z.pos pd - 1))%Z
          with ((9007199254740992 + 1) * 2 ^ (Z.pos pd - 1))%Z by lia.
        apply Z.mod_mul. lia. }
      destruct mrs as [m r s]. cbn in Er, Es. subst. reflexivity.
    - destruct mrs as [m r s]. cbn in Er. subst. now destruct s. }
  rewrite Hrne.
  replace (ee + Z.pos pd)%Z with (-52)%Z by lia.
  reflexivity.
Qed.

(** Whenever the exponential is a non-negative number, the unrounded
    commitment bonus lies between 0 and 10.5. *)
Lemma commitment_range exp_impl c :
  (0 <=? JS.Math_exp exp_impl (-0.07 * (c - 45)))%float = true ->
  (0 <=? commitment exp_impl c)%float = true
  /\ (commitment exp_impl c <=? 10.5)%float = true.
Proof.
  intro He. unfold commitment.
  change (maxBonus + 0.5)%float with 10.5%float.
  pose proof (div_10_5_range _ (add_one_at_least _ (leb_0_nonneg _ He))) as Hr.
  cbv zeta in Hr.
  set (r := (10.5 / (1 + JS.Math_exp exp_impl (-0.07 * (c - 45))))%float) in *.
  rewrite !FloatAxioms.leb_spec, Prim2SF_0, Prim2SF_10_5.
  destruct Hr as [(s & Hr) | (q & e & Hr & Hle)]; rewrite Hr.
  - split; reflexivity.
  - split; [reflexivity |].
    pose proof (SFcompare_canon q e m_10_5 (-49) (Prim2SF_canon _ _ _ _ Hr)
                  ltac:(reflexivity)) as Hcmp.
    unfold SFleb.
    destruct (SFcompare (S754_finite false q e) (S754_finite false m_10_5 (-49)))
      as [[| |] |]; try reflexivity; [lra | contradiction].
Qed.




End Binary64.

(** * The claims *)

(** ** The delay in whole minutes *)



(** ** The completion percentage *)

(** C5, as the code computes it, for finite numbers: the result is 0 when
    the duration is not positive; otherwise it is [Math.round] of the
    double product of the double quotient [c / d] by 100, clamped to
    [0, 100]; it is 100 whenever [c >= d > 0] and 0 whenever [c <= 0 < d];
    and it is always one of the whole numbers 0 to 100, so no input makes
    the function fail. *)
Theorem getCompletionPercentage_clamped (c d : float) :
  is_finite c = true -> is_finite d = true ->
  ((d <=? 0)%float = true -> getCompletionPercentage c d = 0%float)
  /\ ((d <=? 0)%float = false ->
      getCompletionPercentage c d
      = JS.Math_max 0 (JS.Math_min 100 (JS.Math_round (c / d * 100)%float)))
  /\ ((0 <? d)%float = true -> (d <=? c)%float = true ->
      getCompletionPercentage c d = 100%float)
  /\ ((0 <? d)%float = true -> (c <=? 0)%float = true ->
      getCompletionPercentage c d = 0%float)
  /\ (exists n : Z, (0 <= n <= 100)%Z /\ getCompletionPercentage c d = JS.Z2F n).
Proof.
  intros Hc Hd.
  assert (forall b, (d <=? 0)%float = b ->
            getCompletionPercentage c d
            = if b then 0%float
              else JS.Math_max 0
                     (JS.Math_min 100 (JS.Math_round (c / d * 100)%float)))
    as Hdef by (intros b <-; reflexivity).
  assert ((0 <? d)%float = true -> (d <=? 0)%float = false) as Hpos.
  { intro H. destruct (positive_SF d Hd H) as (md & ed & Ed).
    now rewrite FloatAxioms.leb_spec, Ed, Prim2SF_0. }
  repeat split.
  - intro H. exact (Hdef true H).
  - intro H. exact (Hdef false H).
  - intros H0 Hle. rewrite (Hdef false (Hpos H0)).
    apply clamp_at_least, mul_100_at_least.
    destruct (positive_SF d Hd H0) as (md & ed & Ed).
    rewrite FloatAxioms.leb_spec, Ed in Hle.
    destruct (is_finite_SF c Hc) as [(s & Ec) | (s & mc & ec & Ec)];
      rewrite Ec in Hle; [discriminate |].
    destruct s; [discriminate |].
    apply (div_at_least_one c d mc ec md ed Ec Ed).
    pose proof (SFcompare_canon md ed mc ec (Prim2SF_canon _ _ _ _ Ed)
                  (Prim2SF_canon _ _ _ _ Ec)) as Hcmp.
    unfold SFleb in Hle.
    destruct (SFcompare (S754_finite false md ed) (S754_finite false mc ec))
      as [[| |] |]; try discriminate.
    + destruct Hcmp as [-> ->]. lra.
    + lra.
  - intros H0 Hle. rewrite (Hdef false (Hpos H0)).
    destruct (positive_SF d Hd H0) as (md & ed & Ed).
    destruct (leb_0_nonpos c Hc Hle) as [Hn Hi].
    apply clamp_nonpos, mul_100_nonpos.
    exact (div_nonpos c d md ed Hn Hi Ed).
  - destruct (d <=? 0)%float eqn:Hle.
    + exists 0%Z. split; [lia | exact (Hdef true eq_refl)].
    + rewrite (Hdef false eq_refl).
      apply clamp_range, percentage_class; try assumption.
      now apply not_leb_0_positive.
Qed.

Lemma getCompletionPercentage_clamped_witness :
  is_finite 50 = true /\ is_finite 45 = true
  /\ getCompletionPercentage 50 45 = 100%float.
Proof.
  split; [reflexivity | split; [reflexivity |]].
  destruct (getCompletionPercentage_clamped 50 45 eq_refl eq_refl)
    as (_ & _ & Hfull & _).
  apply Hfull; reflexivity.
Defined.

(** C5, as stated, fails: with 23 of 40 minutes completed the exact
    percentage is 57.5, which rounds to 58, and so does the formula
    [100 * c / d] evaluated in doubles from left to right; the code
    divides first, the double nearest to 0.575 lies below it, the product
    by 100 is the double just below 57.5, and the result is 57. *)
Lemma completion_23_of_40 :
  getCompletionPercentage 23 40 = 57%float
  /\ percentage_exact 23 40 = 58%Z
  /\ JS.Math_round (100 * 23 / 40)%float = 58%float
  /\ (23 / 40 * 100 <? 57.5)%float = true
  /\ getCompletionPercentage 23 40 <> JS.Z2F (percentage_exact 23 40).
Proof.
  repeat split; try (vm_compute; reflexivity).
  apply F2Q_neq; vm_compute; discriminate.
Qed.

(** ** The promptness pillar *)

Lemma promptness_early (d : Z) : (d <= 2)%Z -> promptness d = 30%float.
Proof.
  intro H; unfold promptness.
  now destruct (Z.leb_spec d 2); [| lia].
Qed.

Lemma promptness_gentle (d : Z) :
  (2 < d <= 10)%Z -> promptness d = gentlePenalty d.
Proof.
  intro H; unfold promptness.
  destruct (Z.leb_spec d 2); [lia |].
  now destruct (Z.leb_spec d 10); [| lia].
Qed.

Lemma promptness_steep (d : Z) :
  (10 < d <= 30)%Z -> promptness d = steepPenalty d.
Proof.
  intro H; unfold promptness.
  destruct (Z.leb_spec d 2); [lia |].
  destruct (Z.leb_spec d 10); [lia |].
  now destruct (Z.leb_spec d 30); [| lia].
Qed.

Lemma promptness_late (d : Z) : (30 < d)%Z -> promptness d = 0%float.
Proof.
  intro H; unfold promptness.
  destruct (Z.leb_spec d 2); [lia |].
  destruct (Z.leb_spec d 10); [lia |].
  now destruct (Z.leb_spec d 30); [lia |].
Qed.

(** On the whole-minute delays of each linear branch the double
    computation is exact. *)
Lemma gentlePenalty_exact (d : Z) :
  (2 < d <= 10)%Z ->
  denotes (gentlePenalty d) (30 - 1.875 * (inject_Z d - 2)) = true.
Proof.
  intro H.
  apply (Zrange_forallb
           (fun d => denotes (gentlePenalty d)
                       (30 - 1.875 * (inject_Z d - 2))) 3 8);
    [vm_compute; reflexivity | lia].
Qed.

Lemma steepPenalty_exact (d : Z) :
  (10 < d <= 30)%Z ->
  denotes (steepPenalty d) (15 - 0.75 * (inject_Z d - 10)) = true.
Proof.
  intro H.
  apply (Zrange_forallb
           (fun d => denotes (steepPenalty d)
                       (15 - 0.75 * (inject_Z d - 10))) 11 20);
    [vm_compute; reflexivity | lia].
Qed.

(** C2: the promptness field of the breakdown is the rounding of
    [promptness] at the delay [getDelayMinutes] gives; for every whole-minute
    delay the unrounded promptness score is the number the specification's
    table gives, exactly; and the pieces meet at the breakpoints: both
    linear formulas give 15 at a delay of 10 and the steeper one gives 0 at
    30, where the flat 0 takes over. *)
Theorem promptness_piecewise :
  (forall (exp_impl : float -> float) (input : ProductivityScoreInput),
     promptnessScore (calculateProductivityScore exp_impl input)
     = JS.Math_round
         (promptness
            (getDelayMinutes (scheduledStart input) (actualStart input))))
  /\ (forall delay : Z,
     exists q : Q,
       F2Q (promptness delay) = Some q /\ promptness_table delay q)
  /\ gentlePenalty 10 = 15%float
  /\ steepPenalty 10 = 15%float
  /\ promptness 10 = 15%float
  /\ steepPenalty 30 = 0%float
  /\ promptness 30 = 0%float
  /\ promptness 31 = 0%float.
Proof.
  split; [reflexivity |].
  split; [| repeat split; vm_compute; reflexivity].
  intro d.
  destruct (Z_le_gt_dec d 2) as [H2 | H2].
  - exists 30%Q; rewrite promptness_early by assumption.
    split; [vm_compute; reflexivity |].
    unfold promptness_table; repeat split; intros; (reflexivity || lia).
  - destruct (Z_le_gt_dec d 10) as [H10 | H10].
    + destruct (denotes_spec _ _ (gentlePenalty_exact d ltac:(lia)))
        as (v & Hv & Hq).
      exists v; rewrite promptness_gentle by lia.
      split; [exact Hv |].
      unfold promptness_table; repeat split; intros; (exact Hq || lia).
    + destruct (Z_le_gt_dec d 30) as [H30 | H30].
      * destruct (denotes_spec _ _ (steepPenalty_exact d ltac:(lia)))
          as (v & Hv & Hq).
        exists v; rewrite promptness_steep by lia.
        split; [exact Hv |].
        unfold promptness_table; repeat split; intros; (exact Hq || lia).
      * exists 0%Q; rewrite promptness_late by lia.
        split; [vm_compute; reflexivity |].
        unfold promptness_table; repeat split; intros; (reflexivity || lia).
Qed.

(** The score depends on the delay only through its clamp to [2, 31]. *)
Lemma promptness_clamp (d : Z) :
  promptness d = promptness (Z.max 2 (Z.min 31 d)).
Proof.
  destruct (Z_le_gt_dec d 2) as [H2 | H2].
  - rewrite promptness_early by assumption.
    replace (Z.max 2 (Z.min 31 d)) with 2%Z by lia.
    vm_compute; reflexivity.
  - destruct (Z_le_gt_dec d 30) as [H30 | H30].
    + now replace (Z.max 2 (Z.min 31 d)) with d by lia.
    + rewrite promptness_late by lia.
      replace (Z.max 2 (Z.min 31 d)) with 31%Z by lia.
      vm_compute; reflexivity.
Qed.

(** C9: a longer delay never earns a higher unrounded promptness score,
    over all delays, early starts included. *)
Theorem promptness_antitone (d1 d2 : Z) :
  (d1 <= d2)%Z -> (promptness d2 <=? promptness d1)%float = true.
Proof.
  intro Hle.
  rewrite (promptness_clamp d1), (promptness_clamp d2).
  set (c1 := Z.max 2 (Z.min 31 d1)).
  set (c2 := Z.max 2 (Z.min 31 d2)).
  assert (c1 <= c2)%Z as Hc by lia.
  assert (2 <= c1 < 2 + 30)%Z as Hr1 by lia.
  assert (2 <= c2 < 2 + 30)%Z as Hr2 by lia.
  pose (P := fun a b : Z =>
               if (a <=? b)%Z then (promptness b <=? promptness a)%float
               else true).
  assert (forallb (fun a => forallb (P a) (Zrange 2 30)) (Zrange 2 30)
          = true) as Hall by (vm_compute; reflexivity).
  pose proof (Zrange_forallb _ _ _ Hall c1 Hr1) as H1; cbv beta in H1.
  pose proof (Zrange_forallb _ _ _ H1 c2 Hr2) as H12.
  unfold P in H12.
  now destruct (Z.leb_spec c1 c2); [| lia].
Qed.

Lemma promptness_antitone_witness :
  (5 <= 12)%Z /\ (promptness 12 <=? promptness 5)%float = true.
Proof.
  split; [lia | apply (promptness_antitone 5 12); lia].
Defined.

(** ** The commitment pillar *)

Section Logistic.

Local Open Scope R_scope.

Lemma Rdiv_lt_upper (a b c : R) : 0 < b -> a < c * b -> a / b < c.
Proof.
  intros Hb H.
  assert (a / b * b = a) as Hq by (field; lra).
  nra.
Qed.

Lemma Rdiv_lt_lower (a b c : R) : 0 < b -> c * b < a -> c < a / b.
Proof.
  intros Hb H.
  assert (a / b * b = a) as Hq by (field; lra).
  nra.
Qed.

Lemma commitment_exact_bounds (c : R) : 0 < commitment_exact c < 10.5.
Proof.
  unfold commitment_exact.
  pose proof (exp_pos (-0.07 * (c - 45))) as He.
  set (e := exp _) in *.
  split; [apply Rdiv_lt_lower | apply Rdiv_lt_upper]; lra.
Qed.


Lemma commitment_exact_midpoint : commitment_exact 45 = 10.5 / 2.
Proof.
  unfold commitment_exact.
  replace (-0.07 * (45 - 45)) with 0 by lra.
  rewrite exp_0. lra.
Qed.

(** The curve comes as close to 10.5 as one wishes. *)
Lemma commitment_exact_approaches (eps : R) :
  0 < eps -> exists c, 10.5 - eps < commitment_exact c.
Proof.
  intro Heps.
  set (d := Rmin (eps / 21) 1).
  assert (0 < d) as Hd by (unfold d; apply Rmin_glb_lt; lra).
  assert (d <= eps / 21) as Hd1 by apply Rmin_l.
  exists (45 - ln d / 0.07).
  unfold commitment_exact.
  replace (-0.07 * (45 - ln d / 0.07 - 45)) with (ln d) by lra.
  rewrite exp_ln by assumption.
  apply Rdiv_lt_lower; [lra |]. nra.
Qed.

Lemma commitment_exact_sup :
  is_lub (fun y => exists c, y = commitment_exact c) 10.5.
Proof.
  split.
  - intros y [c ->]. left. apply commitment_exact_bounds.
  - intros b Hb. destruct (Rle_lt_dec 10.5 b) as [| Hlt]; [assumption |].
    destruct (commitment_exact_approaches (10.5 - b) ltac:(lra)) as [c Hc].
    specialize (Hb _ (ex_intro _ c eq_refl)). lra.
Qed.

End Logistic.

(** ** The commitment bonus far from the midpoint *)

Section Tails.

Local Open Scope R_scope.

Lemma Z2F_magnitude (s : bool) P E p :
  canon P E -> F2R (Z.pos P) E <= IZR (Z.pos p) ->
  magnitude_at_least s P E (JS.Z2F (if s then Z.neg p else Z.pos p)).
Proof.
  intros HP Hle. unfold magnitude_at_least. rewrite Prim2SF_Z2F.
  destruct s; cbn [binary_normalize];
    (apply (binary_round_lower P E _ p 0 HP);
     unfold F2R at 2; unfold bpow; cbn [powerRZ]; lra).
Qed.

Lemma Prim2SF_45 : Prim2SF 45 = S754_finite false m_45 (-47).
Proof. vm_compute; reflexivity. Qed.

Lemma F2R_45 : F2R (Z.pos m_45) (-47) = 45.
Proof. apply (F2R_scaled 45 47); lia. Qed.

(** Subtracting 45 from a number far from zero. *)
Lemma sub_45_magnitude (s : bool) P E P' E' y :
  canon P' E' ->
  (if s then F2R (Z.pos P') E' <= F2R (Z.pos P) E + 45
   else F2R (Z.pos P') E' + 45 <= F2R (Z.pos P) E) ->
  magnitude_at_least s P E y ->
  magnitude_at_least s P' E' (y - 45)%float.
Proof.
  intros HP' Hb [Hy | (q & e & Hy & Hle)]; unfold magnitude_at_least;
    rewrite sub_spec, Prim2SF_45, Hy; unfold SF64sub; cbn [SFsub].
  - now left.
  - set (ez := Z.min e (-47)).
    pose proof (shl_align_value q e ez ltac:(unfold ez; lia)) as Hq.
    pose proof (shl_align_value m_45 (-47) ez ltac:(unfold ez; lia)) as H45.
    rewrite F2R_45 in H45.
    set (A := fst (shl_align q e ez)) in *.
    set (B := fst (shl_align m_45 (-47) ez)) in *.
    pose proof (bpow_pos ez) as Hez.
    assert (0 < F2R (Z.pos P') E') as HP'0
        by (unfold F2R; pose proof (bpow_pos E');
            assert (0 < IZR (Z.pos P')) by (apply IZR_lt; lia); nra).
    destruct s; cbn [cond_Zopp].
    + change (Z.neg A - Z.pos B)%Z with (Z.neg (A + B)).
      cbn [binary_normalize].
      apply (binary_round_lower P' E' true _ _ HP').
      replace (F2R (Z.pos (A + B)) ez)
        with (F2R (Z.pos A) ez + F2R (Z.pos B) ez)
        by (unfold F2R; rewrite Pos2Z.inj_add, plus_IZR; ring).
      rewrite Hq, H45. lra.
    + assert (F2R (Z.pos A - Z.pos B) ez = F2R (Z.pos q) e - 45) as Hd
          by (rewrite <- Hq, <- H45; unfold F2R; rewrite minus_IZR; ring).
      assert (Z.pos B < Z.pos A)%Z as HBA.
      { apply Z.lt_0_sub, lt_IZR. unfold F2R in Hd at 1. nra. }
      destruct (Z.pos A - Z.pos B)%Z as [| d | d] eqn:Ed; try lia.
      cbn [binary_normalize].
      apply (binary_round_lower P' E' false _ _ HP').
      rewrite Hd. lra.
Qed.

Lemma Prim2SF_m0_07 : Prim2SF (-0.07) = S754_finite true m_0_07 (-56).
Proof. vm_compute; reflexivity. Qed.

(** Multiplying a number far from zero by -0.07. *)
Lemma mul_m0_07_magnitude (s : bool) P E P' E' y :
  canon P' E' ->
  F2R (Z.pos P') E' <= F2R (Z.pos m_0_07) (-56) * F2R (Z.pos P) E ->
  magnitude_at_least s P E y ->
  magnitude_at_least (negb s) P' E' (-0.07 * y)%float.
Proof.
  intros HP' Hb [Hy | (q & e & Hy & Hle)]; unfold magnitude_at_least;
    rewrite mul_spec, Prim2SF_m0_07, Hy; unfold SF64mul; cbn [SFmul xorb].
  - now left.
  - apply (binary_round_aux_lower P' E' (negb s) (m_0_07 * q) (-56 + e)
             loc_Exact HP').
    + replace (F2R (Z.pos (m_0_07 * q)) (-56 + e))
        with (F2R (Z.pos m_0_07) (-56) * F2R (Z.pos q) e)
        by (unfold F2R; rewrite Pos2Z.inj_mul, mult_IZR, bpow_add; ring).
      assert (0 < F2R (Z.pos m_0_07) (-56))
        by (unfold F2R; pose proof (bpow_pos (-56));
            assert (0 < IZR (Z.pos m_0_07)) by (apply IZR_lt; lia); nra).
      nra.
    + assert (Z.pos m_0_07 <= Z.pos (m_0_07 * q))%Z as Hm
          by (rewrite Pos2Z.inj_mul; nia).
      pose proof (digits_le m_0_07 (m_0_07 * q) Hm) as Hd.
      change (digits m_0_07) with 53%Z in Hd.
      rewrite fexp_spec. lia.
Qed.

(** Comparison of two negative numbers. *)
Lemma SFcompare_negative m1 e1 m2 e2 :
  SFcompare (S754_finite true m1 e1) (S754_finite true m2 e2)
  = SFcompare (S754_finite false m2 e2) (S754_finite false m1 e1).
Proof.
  cbn [SFcompare]. rewrite (Z.compare_antisym e1 e2).
  destruct (e1 ?= e2)%Z; cbn [CompOpp]; try reflexivity.
  f_equal. symmetry. apply Pos.compare_antisym.
Qed.

Lemma finite_tests (s : bool) q e x :
  Prim2SF x = S754_finite s q e ->
  is_nan x = false /\ is_infinity x = false /\ is_zero x = false
  /\ (x =? infinity)%float = false /\ (x =? neg_infinity)%float = false.
Proof.
  intro Hx. unfold is_infinity, is_zero.
  rewrite is_nan_SF, !FloatAxioms.eqb_spec, abs_spec, Hx.
  change (Prim2SF infinity) with (S754_infinity false).
  change (Prim2SF neg_infinity) with (S754_infinity true).
  change (Prim2SF 0) with (S754_zero false).
  unfold SFeqb. rewrite SFcompare_refl.
  destruct s; repeat split; reflexivity.
Qed.

Lemma Prim2SF_u_threshold :
  Prim2SF Fdlibm.u_threshold = S754_finite true m_u_threshold (-43).
Proof. vm_compute; reflexivity. Qed.

Lemma Prim2SF_o_threshold :
  Prim2SF Fdlibm.o_threshold = S754_finite false m_o_threshold (-43).
Proof. vm_compute; reflexivity. Qed.

(** Below -750 the exponential underflows to zero. *)
Lemma Math_exp_underflow x :
  magnitude_at_least true m_750 (-43) x ->
  JS.Math_exp Fdlibm.exp x = 0%float.
Proof.
  intros [Hx | (q & e & Hx & Hle)].
  - assert (x = neg_infinity) as -> by (apply Prim2SF_inj; exact Hx).
    vm_compute; reflexivity.
  - destruct (finite_tests _ _ _ _ Hx) as (Hn & Hi & Hz & Hp & Hm).
    unfold JS.Math_exp. rewrite Hn, Hp, Hz, Hm.
    unfold Fdlibm.exp; cbv zeta. rewrite Hn, Hi.
    assert ((Fdlibm.o_threshold <? x)%float = false) as ->
        by (rewrite FloatAxioms.ltb_spec, Prim2SF_o_threshold, Hx;
            reflexivity).
    assert ((x <? Fdlibm.u_threshold)%float = true) as ->.
    { rewrite FloatAxioms.ltb_spec, Prim2SF_u_threshold, Hx.
      unfold SFltb. rewrite SFcompare_negative.
      pose proof (SFcompare_canon m_u_threshold (-43) q e
                    ltac:(reflexivity) (Prim2SF_canon _ _ _ _ Hx)) as Hc.
      assert (F2R (Z.pos m_u_threshold) (-43) < F2R (Z.pos m_750) (-43))
        as Hlt by (apply Rlt_le_trans with (F2R (Z.pos m_u_threshold + 1) (-43));
                   [unfold F2R; rewrite plus_IZR; pose proof (bpow_pos (-43));
                    nra
                   | apply (F2R_le_mantissa (m_u_threshold + 1) m_750);
                     vm_compute; discriminate]).
      destruct (SFcompare _ _) as [[| |] |]; try reflexivity.
      - destruct Hc as [<- <-]. lra.
      - lra.
      - contradiction. }
    vm_compute; reflexivity.
Qed.

(** Above 720 the exponential overflows to infinity. *)
Lemma Math_exp_overflow x :
  magnitude_at_least false m_45 (-43) x ->
  JS.Math_exp Fdlibm.exp x = infinity.
Proof.
  intros [Hx | (q & e & Hx & Hle)].
  - assert (x = infinity) as -> by (apply Prim2SF_inj; exact Hx).
    vm_compute; reflexivity.
  - destruct (finite_tests _ _ _ _ Hx) as (Hn & Hi & Hz & Hp & Hm).
    unfold JS.Math_exp. rewrite Hn, Hp, Hz, Hm.
    unfold Fdlibm.exp; cbv zeta. rewrite Hn, Hi.
    assert ((Fdlibm.o_threshold <? x)%float = true) as ->; [| reflexivity].
    rewrite FloatAxioms.ltb_spec, Prim2SF_o_threshold, Hx.
    unfold SFltb.
    pose proof (SFcompare_canon m_o_threshold (-43) q e
                  ltac:(reflexivity) (Prim2SF_canon _ _ _ _ Hx)) as Hc.
    assert (F2R (Z.pos m_o_threshold) (-43) < F2R (Z.pos m_45) (-43))
      as Hlt by (apply Rlt_le_trans with (F2R (Z.pos m_o_threshold + 1) (-43));
                 [unfold F2R; rewrite plus_IZR; pose proof (bpow_pos (-43));
                  nra
                 | apply (F2R_le_mantissa (m_o_threshold + 1) m_45);
                   vm_compute; discriminate]).
    destruct (SFcompare _ _) as [[| |] |]; try reflexivity.
    + destruct Hc as [<- <-]. lra.
    + lra.
    + contradiction.
Qed.

Lemma F2R_0_07 :
  F2R (Z.pos m_0_07) (-56) * 72057594037927936 = 5044031582654956.
Proof.
  unfold F2R. change 72057594037927936 with (IZR (2 ^ 56)).
  rewrite Rmult_assoc, <- (bpow_IZR 56), <- bpow_add by lia.
  change (bpow (-56 + 56)) with 1. apply Rmult_1_r.
Qed.

Lemma F2R_750 : F2R (Z.pos m_750) (-43) = 750.
Proof. apply (F2R_scaled 750 43); lia. Qed.

Lemma F2R_720 : F2R (Z.pos m_45) (-43) = 720.
Proof. apply (F2R_scaled 720 43); lia. Qed.

Lemma F2R_10300 : F2R (Z.pos m_10300) (-39) = 10300.
Proof. apply (F2R_scaled 10300 39); lia. Qed.

Lemma F2R_10755 : F2R (Z.pos m_10755) (-39) = 10755.
Proof. apply (F2R_scaled 10755 39); lia. Qed.

Lemma F2R_10800 : F2R (Z.pos m_10800) (-39) = 10800.
Proof. apply (F2R_scaled 10800 39); lia. Qed.

(** From 10800 completed minutes on, the argument of the exponential is
    below -750, the exponential is 0 and the bonus is 10.5. *)
Lemma bonus_at_upper_tail c : (10800 <= c)%Z -> bonus_at c = 10.5%float.
Proof.
  intro Hc. unfold bonus_at, commitment.
  destruct c as [| p | p]; try lia.
  rewrite (Math_exp_underflow (-0.07 * (JS.Z2F (Z.pos p) - 45))%float);
    [vm_compute; reflexivity |].
  apply (mul_m0_07_magnitude false m_10755 (-39) m_750 (-43));
    [reflexivity | |].
  { rewrite F2R_750, F2R_10755. pose proof F2R_0_07. lra. }
  apply (sub_45_magnitude false m_10800 (-39) m_10755 (-39));
    [reflexivity | |].
  { rewrite F2R_10800, F2R_10755. lra. }
  apply (Z2F_magnitude false m_10800 (-39) p); [reflexivity |].
  rewrite F2R_10800. apply IZR_le. lia.
Qed.

(** Down to -10300 completed minutes, the argument of the exponential is
    above 720, the exponential is infinite and the bonus is 0. *)
Lemma bonus_at_lower_tail c : (c <= -10300)%Z -> bonus_at c = 0%float.
Proof.
  intro Hc. unfold bonus_at, commitment.
  destruct c as [| p | p]; try lia.
  rewrite (Math_exp_overflow (-0.07 * (JS.Z2F (Z.neg p) - 45))%float);
    [vm_compute; reflexivity |].
  apply (mul_m0_07_magnitude true m_10300 (-39) m_45 (-43));
    [reflexivity | |].
  { rewrite F2R_720, F2R_10300. pose proof F2R_0_07. lra. }
  apply (sub_45_magnitude true m_10300 (-39) m_10300 (-39));
    [reflexivity | lra |].
  apply (Z2F_magnitude true m_10300 (-39) p); [reflexivity |].
  rewrite F2R_10300. apply IZR_le. lia.
Qed.

Lemma bonus_at_saturated c : (570 <= c)%Z -> bonus_at c = 10.5%float.
Proof.
  intro Hc. destruct (Z_le_gt_dec 10800 c) as [Hhi | Hlo].
  - now apply bonus_at_upper_tail.
  - apply Leibniz.eqb_spec.
    apply (Zrange_forallb (fun c => Leibniz.eqb (bonus_at c) 10.5%float)
             570 10230); [vm_compute; reflexivity | lia].
Qed.

Lemma bonus_at_vanishes c : (c <= -10095)%Z -> bonus_at c = 0%float.
Proof.
  intro Hc. destruct (Z_le_gt_dec c (-10300)) as [Hlo | Hhi].
  - now apply bonus_at_lower_tail.
  - apply Leibniz.eqb_spec.
    apply (Zrange_forallb (fun c => Leibniz.eqb (bonus_at c) 0%float)
             (-10300) 206); [vm_compute; reflexivity | lia].
Qed.

(** Order of positive doubles. *)
Lemma ltb_leb x y : (x <? y)%float = true -> (x <=? y)%float = true.
Proof.
  rewrite FloatAxioms.ltb_spec, FloatAxioms.leb_spec. unfold SFltb, SFleb.
  now destruct (SFcompare _ _) as [[| |] |].
Qed.

Lemma leb_positive_F2R x y :
  positive_finite x = true -> positive_finite y = true ->
  (x <=? y)%float = true <->
  exists mx ex my ey,
    Prim2SF x = S754_finite false mx ex /\ Prim2SF y = S754_finite false my ey
    /\ F2R (Z.pos mx) ex <= F2R (Z.pos my) ey.
Proof.
  unfold positive_finite. intros Hx Hy.
  destruct (Prim2SF x) as [| | | [] mx ex] eqn:Ex; try discriminate.
  destruct (Prim2SF y) as [| | | [] my ey] eqn:Ey; try discriminate.
  rewrite FloatAxioms.leb_spec, Ex, Ey. unfold SFleb.
  pose proof (SFcompare_canon mx ex my ey (Prim2SF_canon _ _ _ _ Ex)
                (Prim2SF_canon _ _ _ _ Ey)) as Hcmp.
  split.
  - intro H. exists mx, ex, my, ey. repeat split.
    destruct (SFcompare _ _) as [[| |] |]; try discriminate.
    + destruct Hcmp as [-> ->]. lra.
    + lra.
  - intros (mx' & ex' & my' & ey' & H1 & H2 & Hle).
    injection H1 as <- <-. injection H2 as <- <-.
    destruct (SFcompare _ _) as [[| |] |]; try reflexivity.
    + lra.
    + contradiction.
Qed.

Lemma leb_positive_trans x y z :
  positive_finite x = true -> positive_finite y = true ->
  positive_finite z = true ->
  (x <=? y)%float = true -> (y <=? z)%float = true -> (x <=? z)%float = true.
Proof.
  intros Hx Hy Hz Hxy Hyz.
  apply (leb_positive_F2R x y Hx Hy) in Hxy.
  apply (leb_positive_F2R y z Hy Hz) in Hyz.
  apply (leb_positive_F2R x z Hx Hz).
  destruct Hxy as (mx & ex & my & ey & E1 & E2 & H12).
  destruct Hyz as (my' & ey' & mz & ez & E3 & E4 & H23).
  rewrite E2 in E3. injection E3 as <- <-.
  exists mx, ex, mz, ez. repeat split; try assumption. lra.
Qed.

Lemma nondecreasing_chain (f : Z -> float) (lo hi : Z) :
  (forall c, (lo <= c <= hi)%Z -> positive_finite (f c) = true) ->
  (forall c, (lo <= c < hi)%Z -> (f c <=? f (c + 1)%Z)%float = true) ->
  forall c1 c2, (lo <= c1 <= c2)%Z -> (c2 <= hi)%Z ->
                (f c1 <=? f c2)%float = true.
Proof.
  intros Hpos Hstep c1 c2 H12 Hhi.
  replace c2 with (c1 + (c2 - c1))%Z by lia.
  assert (0 <= c2 - c1)%Z as Hk by lia.
  assert (c1 + (c2 - c1) <= hi)%Z as Hb by lia.
  revert Hb. generalize (c2 - c1)%Z Hk.
  apply (natlike_ind
           (fun k => (c1 + k <= hi)%Z ->
                     (f c1 <=? f (c1 + k)%Z)%float = true)).
  - intro Hb. rewrite Z.add_0_r.
    apply (leb_positive_F2R _ _ (Hpos c1 ltac:(lia)) (Hpos c1 ltac:(lia))).
    pose proof (Hpos c1 ltac:(lia)) as Hp. unfold positive_finite in Hp.
    destruct (Prim2SF (f c1)) as [| | | [] m e] eqn:E; try discriminate.
    exists m, e, m, e. repeat split. lra.
  - intros k Hk0 IH Hb.
    apply leb_positive_trans with (f (c1 + k)%Z);
      try (apply Hpos; lia).
    + apply IH. lia.
    + replace (c1 + Z.succ k)%Z with (c1 + k + 1)%Z by lia.
      apply Hstep. lia.
Qed.

(** With fdlibm's exponential the bonus never decreases from one whole
    minute to a later one. *)
Lemma bonus_at_monotone (c1 c2 : Z) :
  (c1 <= c2)%Z -> (bonus_at c1 <=? bonus_at c2)%float = true.
Proof.
  intro H12.
  assert (forall c, (-10094 <= c <= 569)%Z ->
                    (0 <? bonus_at c)%float = true
                    /\ (bonus_at c <? 10.5)%float = true) as Hmid.
  { intros c Hc. apply andb_true_iff.
    apply (Zrange_forallb
             (fun c => (0 <? bonus_at c)%float && (bonus_at c <? 10.5)%float)
             (-10094) 10664); [vm_compute; reflexivity | lia]. }
  destruct (Z_le_gt_dec c1 (-10095)) as [H1 | H1].
  { rewrite (bonus_at_vanishes c1 H1).
    destruct (Z_le_gt_dec c2 (-10095)) as [H2 | H2];
      [rewrite (bonus_at_vanishes c2 H2); reflexivity |].
    destruct (Z_le_gt_dec 570 c2) as [H3 | H3];
      [rewrite (bonus_at_saturated c2 H3); reflexivity |].
    apply ltb_leb, Hmid. lia. }
  destruct (Z_le_gt_dec 570 c2) as [H2 | H2].
  { rewrite (bonus_at_saturated c2 H2).
    destruct (Z_le_gt_dec 570 c1) as [H3 | H3];
      [rewrite (bonus_at_saturated c1 H3); reflexivity |].
    apply ltb_leb, Hmid. lia. }
  apply (nondecreasing_chain bonus_at (-10094) 569); try lia.
  - intros c Hc.
    apply (Zrange_forallb (fun c => positive_finite (bonus_at c))
             (-10094) 10664); [vm_compute; reflexivity | lia].
  - intros c Hc.
    apply (Zrange_forallb
             (fun c => (bonus_at c <=? bonus_at (c + 1)%Z)%float)
             (-10094) 10663); [vm_compute; reflexivity | lia].
Qed.

End Tails.

(** ** The distance between the doubles and the logistic curve *)

Section Enclosures.

Import Qreals.

Local Open Scope R_scope.

Lemma fixed_one_pos : 0 < IZR fixed_one.
Proof. apply IZR_lt. reflexivity. Qed.

Lemma mul_down_sound a b x y :
  (0 <= a)%Z -> (0 <= b)%Z -> fixed_value a <= x -> fixed_value b <= y ->
  (0 <= mul_down a b)%Z /\ fixed_value (mul_down a b) <= x * y.
Proof.
  intros Ha Hb Hx Hy. unfold mul_down. rewrite Z.shiftr_div_pow2 by lia.
  change (2 ^ 120)%Z with fixed_one.
  pose proof fixed_one_pos as Hs.
  assert (0 < fixed_one)%Z as Hs' by reflexivity.
  split; [apply Z.div_pos; nia |].
  pose proof (Z.mul_div_le (a * b) fixed_one Hs') as Hq.
  apply IZR_le in Hq. rewrite !mult_IZR in Hq.
  unfold fixed_value in *.
  set (s := IZR fixed_one) in *. set (q := IZR (a * b / fixed_one)) in *.
  assert (0 <= IZR a) as HA by (apply IZR_le; lia).
  assert (0 <= IZR b) as HB by (apply IZR_le; lia).
  set (u := IZR a / s) in *. set (v := IZR b / s) in *.
  assert (IZR a = u * s) as Ea by (unfold u; field; lra).
  assert (IZR b = v * s) as Eb by (unfold v; field; lra).
  assert (0 <= u) as Hu by (unfold u; apply Rmult_le_pos;
                            [lra | left; now apply Rinv_0_lt_compat]).
  assert (0 <= v) as Hv by (unfold v; apply Rmult_le_pos;
                            [lra | left; now apply Rinv_0_lt_compat]).
  apply Rle_trans with (u * v); [| nra].
  rewrite Ea, Eb in Hq.
  apply Rmult_le_reg_r with s; [exact Hs |].
  replace (q / s * s) with q by (field; lra).
  apply Rmult_le_reg_r with s; [exact Hs |]. nra.
Qed.

Lemma mul_up_sound a b x y :
  (0 <= a)%Z -> (0 <= b)%Z ->
  0 <= x <= fixed_value a -> 0 <= y <= fixed_value b ->
  (0 <= mul_up a b)%Z /\ x * y <= fixed_value (mul_up a b).
Proof.
  intros Ha Hb Hx Hy. unfold mul_up. rewrite Z.shiftr_div_pow2 by lia.
  change (2 ^ 120)%Z with fixed_one.
  pose proof fixed_one_pos as Hs.
  assert (0 < fixed_one)%Z as Hs' by reflexivity.
  split; [apply Z.div_pos; nia |].
  pose proof (Z.div_mod (a * b + (fixed_one - 1)) fixed_one ltac:(lia)) as Hdm.
  pose proof (Z.mod_pos_bound (a * b + (fixed_one - 1)) fixed_one Hs') as Hm.
  assert (a * b <= fixed_one * ((a * b + (fixed_one - 1)) / fixed_one))%Z
    as Hq by lia.
  apply IZR_le in Hq. rewrite !mult_IZR in Hq.
  unfold fixed_value in *.
  set (s := IZR fixed_one) in *.
  set (q := IZR ((a * b + (fixed_one - 1)) / fixed_one)) in *.
  set (u := IZR a / s) in *. set (v := IZR b / s) in *.
  assert (IZR a = u * s) as Ea by (unfold u; field; lra).
  assert (IZR b = v * s) as Eb by (unfold v; field; lra).
  apply Rle_trans with (u * v); [nra |].
  rewrite Ea, Eb in Hq.
  apply Rmult_le_reg_r with s; [exact Hs |].
  replace (q / s * s) with q by (field; lra).
  apply Rmult_le_reg_r with s; [exact Hs |]. nra.
Qed.

Lemma exp_double z : exp z * exp z = exp (2 * z).
Proof. rewrite <- exp_plus. f_equal. ring. Qed.

Lemma iter_square_down (j : nat) a y :
  (0 <= a)%Z -> fixed_value a <= exp y ->
  (0 <= Nat.iter j (fun a => mul_down a a) a)%Z
  /\ fixed_value (Nat.iter j (fun a => mul_down a a) a) <= exp (2 ^ j * y).
Proof.
  intros Ha Hy. induction j as [| j [IH0 IH]].
  - cbn [Nat.iter]. split; [exact Ha |]. now rewrite pow_O, Rmult_1_l.
  - rewrite Nat.iter_succ.
    destruct (mul_down_sound _ _ _ _ IH0 IH0 IH IH) as [H0 H].
    split; [exact H0 |].
    rewrite exp_double in H.
    now replace (2 ^ S j * y) with (2 * (2 ^ j * y)) by (simpl; ring).
Qed.

Lemma iter_square_up (j : nat) a y :
  (0 <= a)%Z -> exp y <= fixed_value a ->
  (0 <= Nat.iter j (fun a => mul_up a a) a)%Z
  /\ exp (2 ^ j * y) <= fixed_value (Nat.iter j (fun a => mul_up a a) a).
Proof.
  intros Ha Hy. induction j as [| j [IH0 IH]].
  - cbn [Nat.iter]. split; [exact Ha |]. now rewrite pow_O, Rmult_1_l.
  - rewrite Nat.iter_succ.
    pose proof (exp_pos (2 ^ j * y)) as Hp.
    destruct (mul_up_sound _ _ (exp (2 ^ j * y)) (exp (2 ^ j * y)) IH0 IH0)
      as [H0 H]; [lra | lra |].
    split; [exact H0 |].
    rewrite exp_double in H.
    now replace (2 ^ S j * y) with (2 * (2 ^ j * y)) by (simpl; ring).
Qed.

Lemma scale_IZR (m : nat) : IZR (100 * 2 ^ Z.of_nat m) = 100 * 2 ^ m.
Proof. rewrite mult_IZR, <- pow_IZR. reflexivity. Qed.

Lemma exp_down_sound p (m : nat) :
  (0 < 100 * 2 ^ Z.of_nat m + p)%Z ->
  (0 <= exp_down p m)%Z /\ fixed_value (exp_down p m) <= exp (IZR p / 100).
Proof.
  intro Hp. unfold exp_down; cbv zeta.
  set (d := (100 * 2 ^ Z.of_nat m)%Z) in *.
  assert (0 < d)%Z as Hd
      by (unfold d; apply Z.mul_pos_pos; [lia | apply Z.pow_pos_nonneg; lia]).
  assert (0 < IZR d) as HD by (apply IZR_lt; exact Hd).
  assert (0 < 2 ^ m) as H2m by (apply pow_lt; lra).
  pose proof fixed_one_pos as Hs.
  assert (0 < fixed_one)%Z as Hs' by reflexivity.
  set (a0 := (fixed_one * (d + p) / d)%Z).
  assert (0 <= a0)%Z as Ha0 by (apply Z.div_pos; nia).
  assert (fixed_value a0 <= exp (IZR p / IZR d)) as H0.
  { apply Rle_trans with (1 + IZR p / IZR d); [| apply exp_ineq1_le].
    pose proof (Z.mul_div_le (fixed_one * (d + p)) d Hd) as Hq.
    fold a0 in Hq. apply IZR_le in Hq.
    rewrite !mult_IZR, plus_IZR in Hq.
    unfold fixed_value.
    apply Rmult_le_reg_r with (IZR fixed_one); [exact Hs |].
    replace (IZR a0 / IZR fixed_one * IZR fixed_one) with (IZR a0)
      by (field; lra).
    apply Rmult_le_reg_r with (IZR d); [exact HD |].
    replace ((1 + IZR p / IZR d) * IZR fixed_one * IZR d)
      with (IZR fixed_one * (IZR d + IZR p)) by (field; lra).
    lra. }
  destruct (iter_square_down m a0 _ Ha0 H0) as [H1 H2].
  split; [exact H1 |].
  replace (IZR p / 100) with (2 ^ m * (IZR p / IZR d)); [exact H2 |].
  unfold d. rewrite scale_IZR. field. lra.
Qed.

Lemma exp_up_sound p (m : nat) :
  (0 < 100 * 2 ^ Z.of_nat m - p)%Z ->
  (0 <= exp_up p m)%Z /\ exp (IZR p / 100) <= fixed_value (exp_up p m).
Proof.
  intro Hp. unfold exp_up; cbv zeta.
  set (d := (100 * 2 ^ Z.of_nat m)%Z) in *.
  assert (0 < d)%Z as Hd
      by (unfold d; apply Z.mul_pos_pos; [lia | apply Z.pow_pos_nonneg; lia]).
  assert (0 < IZR d) as HD by (apply IZR_lt; exact Hd).
  assert (0 < IZR (d - p)) as HDp by (apply IZR_lt; exact Hp).
  assert (0 < 2 ^ m) as H2m by (apply pow_lt; lra).
  pose proof fixed_one_pos as Hs.
  assert (0 < fixed_one)%Z as Hs' by reflexivity.
  set (a0 := ((fixed_one * d + (d - p - 1)) / (d - p))%Z).
  assert (0 <= a0)%Z as Ha0 by (apply Z.div_pos; nia).
  assert (exp (IZR p / IZR d) <= fixed_value a0) as H0.
  { set (y := IZR p / IZR d).
    assert (0 < 1 - y) as Hy.
    { unfold y. rewrite minus_IZR in HDp.
      apply Rmult_lt_reg_r with (IZR d); [exact HD |].
      replace ((1 - IZR p / IZR d) * IZR d) with (IZR d - IZR p)
        by (field; lra).
      lra. }
    apply Rle_trans with (/ (1 - y)).
    - pose proof (exp_ineq1_le (- y)) as H. rewrite exp_Ropp in H.
      pose proof (exp_pos y) as He.
      apply Rmult_le_reg_r with (1 - y); [exact Hy |].
      rewrite Rinv_l by lra.
      apply Rmult_le_reg_r with (/ exp y);
        [now apply Rinv_0_lt_compat |].
      replace (exp y * (1 - y) * / exp y) with (1 - y) by (field; lra).
      lra.
    - pose proof (Z.div_mod (fixed_one * d + (d - p - 1)) (d - p)
                    ltac:(lia)) as Hdm.
      pose proof (Z.mod_pos_bound (fixed_one * d + (d - p - 1)) (d - p) Hp)
        as Hm.
      fold a0 in Hdm.
      assert (fixed_one * d <= (d - p) * a0)%Z as Hq by lia.
      apply IZR_le in Hq. rewrite !mult_IZR in Hq.
      unfold fixed_value.
      apply Rmult_le_reg_r with (1 - y); [exact Hy |].
      rewrite Rinv_l by lra.
      apply Rmult_le_reg_r with (IZR fixed_one * IZR d);
        [apply Rmult_lt_0_compat; lra |].
      replace (IZR a0 / IZR fixed_one * (1 - y) * (IZR fixed_one * IZR d))
        with (IZR a0 * (IZR d - IZR p)) by (unfold y; field; lra).
      rewrite minus_IZR in Hq. lra. }
  destruct (iter_square_up m a0 _ Ha0 H0) as [H1 H2].
  split; [exact H1 |].
  replace (IZR p / 100) with (2 ^ m * (IZR p / IZR d)); [exact H2 |].
  unfold d. rewrite scale_IZR. field. lra.
Qed.

Lemma Q2R_inject_Z n : Q2R (inject_Z n) = IZR n.
Proof. unfold Q2R, inject_Z; cbn. field. Qed.

Lemma within_logistic_sound eps lo hi x e :
  (0 <= lo)%Z -> fixed_value lo <= e <= fixed_value hi ->
  within_logistic eps (lo, hi) x = true ->
  exists q, F2Q x = Some q
            /\ Rabs (Q2R q - (10 + 0.5) / (1 + e)) <= Q2R eps.
Proof.
  intros Hlo He. unfold within_logistic. cbn [fst snd].
  destruct (F2Q x) as [q |]; [| discriminate].
  intro H. apply andb_true_iff in H. destruct H as [H1 H2].
  apply RMicromega.Qle_true in H1. apply RMicromega.Qle_true in H2.
  rewrite !Q2R_mult, !Q2R_inject_Z, !plus_IZR in H1, H2.
  rewrite Q2R_minus in H1. rewrite Q2R_plus in H2.
  assert (Q2R (21 # 2) = 10 + 0.5) as E21 by (unfold Q2R; cbn; field).
  rewrite E21 in H1, H2.
  exists q. split; [reflexivity |].
  pose proof fixed_one_pos as Hs.
  unfold fixed_value in He.
  assert (0 <= IZR lo) as Hl by (apply IZR_le; exact Hlo).
  set (s := IZR fixed_one) in *.
  assert (0 <= IZR lo / s) as Hl'
      by (apply Rmult_le_pos; [lra | left; now apply Rinv_0_lt_compat]).
  assert (IZR lo = IZR lo / s * s) as El by (field; lra).
  assert (IZR hi = IZR hi / s * s) as Eh by (field; lra).
  set (l := IZR lo / s) in *. set (h := IZR hi / s) in *.
  rewrite El in H2. rewrite Eh in H1.
  assert ((Q2R q - Q2R eps) * (1 + h) <= 10 + 0.5) as H1'.
  { apply Rmult_le_reg_r with s; [exact Hs |]. lra. }
  assert (10 + 0.5 <= (Q2R q + Q2R eps) * (1 + l)) as H2'.
  { apply Rmult_le_reg_r with s; [exact Hs |]. lra. }
  set (t := (10 + 0.5) / (1 + e)).
  assert (t * (1 + e) = 10 + 0.5) as Ht by (unfold t; field; lra).
  assert (0 < t) as Ht0
      by (unfold t; apply Rmult_lt_0_compat;
          [lra | apply Rinv_0_lt_compat; lra]).
  apply Rabs_le. split.
  - (* t <= q + eps *)
    assert (t <= Q2R q + Q2R eps); [| lra].
    apply Rmult_le_reg_r with (1 + l); [lra |].
    apply Rle_trans with (t * (1 + e)); [| lra].
    apply Rmult_le_compat_l; lra.
  - (* q - eps <= t *)
    assert (Q2R q - Q2R eps <= t); [| lra].
    destruct (Rle_lt_dec (Q2R q - Q2R eps) 0) as [Hn | Hp]; [lra |].
    apply Rmult_le_reg_r with (1 + e); [lra |].
    apply Rle_trans with ((Q2R q - Q2R eps) * (1 + h)); [| lra].
    apply Rmult_le_compat_l; lra.
Qed.

Lemma logistic_run_sound eps step (dir : Z) (n : nat) :
  (0 <= fst step)%Z ->
  fixed_value (fst step) <= exp (-0.07 * IZR dir) <= fixed_value (snd step) ->
  (0 <= snd step)%Z ->
  forall bounds c,
    (0 <= fst bounds)%Z -> (0 <= snd bounds)%Z ->
    fixed_value (fst bounds) <= exp (-0.07 * (IZR c - 45))
      <= fixed_value (snd bounds) ->
    logistic_run eps step dir n bounds c = true ->
    forall j : nat, (j < n)%nat ->
      exists q,
        F2Q (commitment Fdlibm.exp (JS.Z2F (c + dir * Z.of_nat j))) = Some q
        /\ Rabs (Q2R q - commitment_exact (IZR (c + dir * Z.of_nat j)))
           <= Q2R eps.
Proof.
  intros Hs0 Hs Hs1. induction n as [| n IH]; intros bounds c Hb0 Hb1 Hb Hrun j Hj;
    [lia |].
  cbn [logistic_run] in Hrun. apply andb_true_iff in Hrun.
  destruct Hrun as [Hhere Hnext].
  destruct j as [| j].
  - replace (c + dir * Z.of_nat 0)%Z with c by lia.
    unfold commitment_exact.
    destruct bounds as [lo hi]. cbn [fst snd] in *.
    now apply (within_logistic_sound eps lo hi).
  - replace (c + dir * Z.of_nat (S j))%Z with (c + dir + dir * Z.of_nat j)%Z
      by lia.
    apply (IH _ _) with (4 := Hnext); cbn [fst snd]; [| | | lia].
    + now apply (mul_down_sound _ _ _ _ Hb0 Hs0 (proj1 Hb) (proj1 Hs)).
    + pose proof (exp_pos (-0.07 * (IZR c - 45))).
      pose proof (exp_pos (-0.07 * IZR dir)).
      apply (mul_up_sound _ _ (exp (-0.07 * (IZR c - 45)))
               (exp (-0.07 * IZR dir)) Hb1 Hs1); lra.
    + replace (exp (-0.07 * (IZR (c + dir) - 45)))
        with (exp (-0.07 * (IZR c - 45)) * exp (-0.07 * IZR dir))
        by (rewrite <- exp_plus, plus_IZR; f_equal; ring).
      pose proof (exp_pos (-0.07 * (IZR c - 45))).
      pose proof (exp_pos (-0.07 * IZR dir)).
      split.
      * now apply (mul_down_sound _ _ _ _ Hb0 Hs0 (proj1 Hb) (proj1 Hs)).
      * apply (mul_up_sound _ _ (exp (-0.07 * (IZR c - 45)))
                 (exp (-0.07 * IZR dir)) Hb1 Hs1); lra.
Qed.

(** With fdlibm's exponential, on every whole minute of a day, the
    unrounded bonus differs from the logistic curve by at most 10^-14. *)
Lemma bonus_at_near_logistic (c : Z) :
  (0 <= c <= 1440)%Z ->
  exists q, F2Q (bonus_at c) = Some q
            /\ Rabs (Q2R q - commitment_exact (IZR c)) <= Q2R logistic_error.
Proof.
  intro Hc. unfold bonus_at.
  assert (fixed_value fixed_one <= exp (-0.07 * (IZR 45 - 45))
          <= fixed_value fixed_one) as H45.
  { replace (-0.07 * (IZR 45 - 45)) with 0 by lra. rewrite exp_0.
    unfold fixed_value. pose proof fixed_one_pos.
    replace (IZR fixed_one / IZR fixed_one) with 1 by (field; lra). lra. }
  destruct (Z_le_gt_dec 45 c) as [Hup | Hdown].
  - destruct (exp_down_sound (-7) 52 ltac:(cbn; lia)) as [Hd0 Hd].
    destruct (exp_up_sound (-7) 52 ltac:(cbn; lia)) as [Hu0 Hu].
    replace (IZR (-7) / 100) with (-0.07 * IZR 1) in Hd, Hu by lra.
    destruct (logistic_run_sound logistic_error
                (exp_down (-7) 52, exp_up (-7) 52) 1 1396 Hd0
                (conj Hd Hu) Hu0 (fixed_one, fixed_one) 45
                ltac:(cbn; lia) ltac:(cbn; lia) H45
                ltac:(vm_compute; reflexivity)
                (Z.to_nat (c - 45)) ltac:(lia)) as (q & Hq & Herr).
    replace (45 + 1 * Z.of_nat (Z.to_nat (c - 45)))%Z with c in Hq, Herr
      by lia.
    now exists q.
  - destruct (exp_down_sound 7 52 ltac:(cbn; lia)) as [Hd0 Hd].
    destruct (exp_up_sound 7 52 ltac:(cbn; lia)) as [Hu0 Hu].
    replace (IZR 7 / 100) with (-0.07 * IZR (-1)) in Hd, Hu by lra.
    destruct (logistic_run_sound logistic_error
                (exp_down 7 52, exp_up 7 52) (-1) 46 Hd0
                (conj Hd Hu) Hu0 (fixed_one, fixed_one) 45
                ltac:(cbn; lia) ltac:(cbn; lia) H45
                ltac:(vm_compute; reflexivity)
                (Z.to_nat (45 - c)) ltac:(lia)) as (q & Hq & Herr).
    replace (45 + -1 * Z.of_nat (Z.to_nat (45 - c)))%Z with c in Hq, Herr
      by lia.
    now exists q.
Qed.

End Enclosures.

(** C3: the returned bonus is [Math.round] of the unrounded bonus, which is
    the double evaluation of
    [10.5 / (1 + e^(-0.07 * (completedMinutes - 45)))] and depends on the
    input through [completedMinutes] alone.  At 45 minutes it is exactly
    5.25, whatever the engine's exponential, and 5.25 is half of 10.5.
    10.5 is the supremum of the values the code computes: for every
    engine the bonus at [completedMinutes = +infinity] is 10.5
    ([Math.exp] of -infinity is +0), and it never exceeds 10.5 when the
    exponential is a non-negative number; with fdlibm's exponential the
    bonus is at most 10.5 on every whole minute and equals 10.5 from 570
    minutes on, and on every whole minute of a day (0 to 1440) it
    is within 10^-14 of the logistic curve read over the reals.  Over the
    reals 10.5 is the least upper bound of that curve, whose value at 45
    is 10.5 / 2. *)
Theorem commitment_is_logistic (exp_impl : float -> float) :
  (forall input : ProductivityScoreInput,
     commitmentBonus (calculateProductivityScore exp_impl input)
     = JS.Math_round (commitment exp_impl (completedMinutes input)))
  /\ (forall c : float,
        commitment exp_impl c
        = (10.5 / (1 + JS.Math_exp exp_impl (-0.07 * (c - 45))))%float)
  /\ (forall i1 i2 : ProductivityScoreInput,
        completedMinutes i1 = completedMinutes i2 ->
        commitmentBonus (calculateProductivityScore exp_impl i1)
        = commitmentBonus (calculateProductivityScore exp_impl i2))
  /\ commitment exp_impl 45 = 5.25%float
  /\ (5.25 * 2)%float = 10.5%float
  /\ F2Q (commitment exp_impl 45) = Some (21 # 4)
  /\ F2Q 10.5 = Some (21 # 2)
  /\ commitment exp_impl infinity = 10.5%float
  /\ (forall c : float,
        (0 <=? JS.Math_exp exp_impl (-0.07 * (c - 45)))%float = true ->
        (commitment exp_impl c <=? 10.5)%float = true)
  /\ (forall c : Z,
        (commitment Fdlibm.exp (JS.Z2F c) <=? 10.5)%float = true)
  /\ (forall c : Z,
        (570 <= c)%Z -> commitment Fdlibm.exp (JS.Z2F c) = 10.5%float)
  /\ (forall c : Z,
        (0 <= c <= 1440)%Z ->
        exists q : Q,
          F2Q (commitment Fdlibm.exp (JS.Z2F c)) = Some q
          /\ (Rabs (Q2R q - commitment_exact (IZR c))
              <= 1 / 100000000000000)%R)
  /\ commitment_exact 45 = (10.5 / 2)%R
  /\ is_lub (fun y => exists c, y = commitment_exact c) 10.5%R.
Proof.
  split; [reflexivity |].
  split; [reflexivity |].
  split.
  { intros i1 i2 H. unfold calculateProductivityScore.
    cbn [commitmentBonus]. now rewrite H. }
  do 5 (split; [vm_compute; reflexivity |]).
  split; [intros c Hc; now apply commitment_range |].
  split.
  { intro c. fold (bonus_at c).
    destruct (Z_le_gt_dec c 570) as [Hle | Hgt].
    - rewrite <- (bonus_at_saturated 570 ltac:(lia)).
      now apply bonus_at_monotone.
    - rewrite (bonus_at_saturated c ltac:(lia)). vm_compute; reflexivity. }
  split; [exact bonus_at_saturated |].
  split.
  { intros c Hc. destruct (bonus_at_near_logistic c Hc) as (q & Hq & He).
    exists q. split; [exact Hq |].
    replace (1 / 100000000000000)%R with (Q2R logistic_error)
      by (unfold Q2R, logistic_error; cbn; lra).
    exact He. }
  split; [exact commitment_exact_midpoint | exact commitment_exact_sup].
Qed.





(** ** Rounding of the breakdown *)

(** C1: the returned total is [Math.round] of the sum of the three
    unrounded pillars capped at 100, each returned pillar is [Math.round] of
    its own unrounded value, and the rounded pillars need not add up to the
    returned total: for a 45-minute session completed in full and started
    five minutes late they add up to 89 while the total is 90
    (24.375 + 60 + 5.25 = 89.625). *)
Theorem total_rounds_the_unrounded_sum (exp_impl : float -> float) :
  (forall input : ProductivityScoreInput,
     let p :=
       promptness
         (getDelayMinutes (scheduledStart input) (actualStart input)) in
     let f := focus (completedMinutes input) (durationMinutes input) in
     let c := commitment exp_impl (completedMinutes input) in
     let r := calculateProductivityScore exp_impl input in
     totalScore r = JS.Math_round (JS.Math_min 100 (p + f + c)%float)
     /\ promptnessScore r = JS.Math_round p
     /\ focusScore r = JS.Math_round f
     /\ commitmentBonus r = JS.Math_round c)
  /\ (exists input : ProductivityScoreInput,
        let r := calculateProductivityScore exp_impl input in
        let shown :=
          (promptnessScore r + focusScore r + commitmentBonus r)%float in
        shown = 89%float /\ totalScore r = 90%float
        /\ shown <> totalScore r).
Proof.
  split.
  - intro input; cbv zeta.
    unfold calculateProductivityScore, total; cbn [totalScore promptnessScore
      focusScore commitmentBonus].
    repeat split.
  - exists five_minutes_late; cbv zeta.
    assert (calculateProductivityScore exp_impl five_minutes_late
            = {| promptnessScore := 24; focusScore := 60;
                 commitmentBonus := 5; totalScore := 90 |}) as ->
      by (vm_compute; reflexivity).
    cbn [totalScore promptnessScore focusScore commitmentBonus].
    repeat split; try (vm_compute; reflexivity).
    apply F2Q_neq; vm_compute; discriminate.
Qed.

(** ** Concrete sessions *)

(** C7, as the code computes it: promptness 30, focus 60, and a commitment
    bonus of 5 (5.25 before rounding, the midpoint of the logistic curve),
    for a total of 95; whatever the engine's exponential. *)
Theorem full_session_on_time_score (exp_impl : float -> float) :
  calculateProductivityScore exp_impl full_session_on_time
  = {| promptnessScore := 30; focusScore := 60;
       commitmentBonus := 5; totalScore := 95 |}
  /\ commitment exp_impl (completedMinutes full_session_on_time)
     = 5.25%float.
Proof. split; vm_compute; reflexivity. Qed.

(** C7, as stated, fails: the bonus is 5, not about 10, and the total is
    95, not 100. *)
Lemma full_session_on_time_total_not_100 :
  let r := calculateProductivityScore Fdlibm.exp full_session_on_time in
  commitmentBonus r = 5%float /\ totalScore r = 95%float
  /\ totalScore r <> 100%float.
Proof.
  cbv zeta; repeat split; try (vm_compute; reflexivity).
  apply F2Q_neq; vm_compute; discriminate.
Qed.

(** C4 fails on long sessions.  Whenever the exponential at
    [-0.07 * (completedMinutes - 45)] is a non-negative number of at most
    2^-53, half the spacing of doubles at 1, the sum [1 + Math.exp ...] is
    exactly 1, the unrounded bonus is exactly 10.5 and [Math.round] takes
    it to 11, above the documented maximum of 10. *)
Theorem long_session_bonus_is_11
    (exp_impl : float -> float) (input : ProductivityScoreInput) :
  let e :=
    JS.Math_exp exp_impl (-0.07 * (completedMinutes input - 45))%float in
  (0 <=? e)%float = true -> (e <=? 0x1p-53)%float = true ->
  commitment exp_impl (completedMinutes input) = 10.5%float
  /\ commitmentBonus (calculateProductivityScore exp_impl input) = 11%float.
Proof.
  cbv zeta. intros H0 Hle.
  unfold calculateProductivityScore. cbn [commitmentBonus].
  unfold commitment.
  rewrite (add_one_tiny _ H0 Hle).
  split; vm_compute; reflexivity.
Qed.

(** A ten-hour session: with fdlibm's exponential the hypotheses hold, as
    they do from 570 completed minutes on; at 569 the bonus is still 10. *)
Lemma long_session_bonus_is_11_witness :
  (0 <=? JS.Math_exp Fdlibm.exp (-0.07 * (600 - 45)))%float = true
  /\ (JS.Math_exp Fdlibm.exp (-0.07 * (600 - 45)) <=? 0x1p-53)%float = true
  /\ commitmentBonus (calculateProductivityScore Fdlibm.exp ten_hour_session)
     = 11%float.
Proof.
  split; [vm_compute; reflexivity | split; [vm_compute; reflexivity |]].
  apply (long_session_bonus_is_11 Fdlibm.exp ten_hour_session);
    vm_compute; reflexivity.
Defined.

Lemma bonus_11_from_570_minutes :
  JS.Math_round (commitment Fdlibm.exp 570) = 11%float
  /\ JS.Math_round (commitment Fdlibm.exp 569) = 10%float
  /\ totalScore (calculateProductivityScore Fdlibm.exp ten_hour_session)
     = 100%float.
Proof. repeat split; vm_compute; reflexivity. Qed.

(** * The returned scores *)

Section Ranges.

Local Open Scope R_scope.

Lemma add_zero_or_positive x y :
  zero_or_positive x = true -> zero_or_positive y = true ->
  zero_or_positive (x + y)%float = true.
Proof.
  unfold zero_or_positive. rewrite add_spec. unfold SF64add.
  destruct (Prim2SF x) as [[] | [] | | [] mx ex]; try discriminate; intros _;
    destruct (Prim2SF y) as [[] | [] | | [] my ey]; try discriminate; intros _;
    try reflexivity.
  cbn [SFadd cond_Zopp]. rewrite <- Pos2Z.inj_add. cbn [binary_normalize].
  destruct (binary_round_shape false
              (fst (shl_align mx ex (Z.min ex ey))
               + fst (shl_align my ey (Z.min ex ey)))
              (Z.min ex ey)) as [_ [-> | [-> | (q & e & ->)]]]; reflexivity.
Qed.

(** [Math.round] of a positive double below [K + 1/2] and at least [L]. *)
Lemma round_half_up_between (L K : Z) q e :
  (e < 0)%Z -> IZR L <= F2R (Z.pos q) e -> 2 * F2R (Z.pos q) e < IZR (2 * K + 1) ->
  (L <= JS.round_half_up false q e <= K)%Z.
Proof.
  intros He Hl Hu. unfold JS.round_half_up.
  destruct (Z.leb_spec 0 e) as [Hge | _]; [lia |].
  cbn [JS.signed]. rewrite Z.shiftr_div_pow2 by lia.
  assert (0 < 2 ^ (- e))%Z as Hp by (apply Z.pow_pos_nonneg; lia).
  assert (2 ^ (1 - e) = 2 * 2 ^ (- e))%Z as H2.
  { replace (1 - e)%Z with (1 + - e)%Z by lia.
    now rewrite Z.pow_add_r, Z.pow_1_r by lia. }
  assert (bpow e * bpow (- e) = 1) as H1.
  { rewrite <- bpow_add. replace (e + - e)%Z with 0%Z by lia. reflexivity. }
  pose proof (bpow_pos (- e)) as Hb. pose proof (bpow_pos e) as Hb'.
  unfold F2R in Hl, Hu.
  assert (L * 2 ^ (- e) <= Z.pos q)%Z as Hq1.
  { apply le_IZR. rewrite mult_IZR, <- bpow_IZR by lia.
    assert (IZR L * bpow (- e) <= IZR (Z.pos q) * bpow e * bpow (- e)) as H
      by (apply Rmult_le_compat_r; lra).
    rewrite Rmult_assoc, H1, Rmult_1_r in H. exact H. }
  assert (2 * Z.pos q < (2 * K + 1) * 2 ^ (- e))%Z as Hq2.
  { apply lt_IZR. rewrite !mult_IZR, <- bpow_IZR by lia.
    assert (2 * (IZR (Z.pos q) * bpow e) * bpow (- e)
            < IZR (2 * K + 1) * bpow (- e)) as H
      by (apply Rmult_lt_compat_r; lra).
    rewrite !Rmult_assoc, H1, Rmult_1_r in H. exact H. }
  split.
  - apply Z.div_le_lower_bound; [lia |]. rewrite H2. nia.
  - assert ((2 * Z.pos q + 2 ^ (- e)) / 2 ^ (1 - e) < K + 1)%Z; [| lia].
    apply Z.div_lt_upper_bound; [lia |]. rewrite H2. nia.
Qed.

Lemma Math_round_between (L K : Z) y q e :
  Prim2SF y = S754_finite false q e ->
  (0 <= L)%Z -> (K < 2 ^ 52)%Z ->
  IZR L <= F2R (Z.pos q) e -> 2 * F2R (Z.pos q) e < IZR (2 * K + 1) ->
  exists n : Z, (L <= n <= K)%Z /\ JS.Math_round y = JS.Z2F n.
Proof.
  intros Hy HL HK Hl Hu.
  pose proof (Prim2SF_canon _ _ _ _ Hy) as Hc. unfold canon in Hc.
  rewrite fexp_spec in Hc.
  destruct (Z.leb_spec 0 e) as [He | He].
  - exfalso.
    pose proof (F2R_bounds q e) as [Hlo _].
    assert (bpow 52 <= bpow (digits q - 1 + e)) by (apply bpow_le; lia).
    assert (IZR (2 * K + 1) <= 2 * bpow 52).
    { rewrite bpow_IZR by lia. rewrite <- mult_IZR. apply IZR_le. lia. }
    lra.
  - pose proof (round_half_up_between L K q e He Hl Hu) as Hn.
    exists (JS.round_half_up false q e). split; [exact Hn |].
    unfold JS.Math_round. rewrite Hy.
    destruct (Z.leb_spec 0 e); [lia |].
    destruct (Z.eqb_spec (JS.round_half_up false q e) 0) as [-> |];
      reflexivity.
Qed.

Lemma is_nan_zero_or_positive y :
  zero_or_positive y = true -> is_nan y = false.
Proof.
  unfold zero_or_positive. rewrite is_nan_SF.
  destruct (Prim2SF y) as [[] | [] | | [] q e]; try discriminate; intros _;
    try reflexivity.
  unfold SFeqb. now rewrite SFcompare_refl.
Qed.

(** The cap at 100 followed by [Math.round], on non-negative sums. *)
Lemma Math_min_100_below y q e :
  Prim2SF y = S754_finite false q e -> F2R (Z.pos q) e < 100 ->
  JS.Math_min 100 y = y.
Proof.
  intros Hy Hlt. unfold JS.Math_min.
  assert (is_nan y = false) as ->
      by (apply is_nan_zero_or_positive; unfold zero_or_positive;
          now rewrite Hy).
  change (is_nan 100) with false. cbn [orb].
  rewrite !FloatAxioms.ltb_spec, Prim2SF_100, Hy.
  pose proof (SFcompare_canon m_100 (-46) q e ltac:(reflexivity)
                (Prim2SF_canon _ _ _ _ Hy)) as H1.
  pose proof (SFcompare_canon q e m_100 (-46) (Prim2SF_canon _ _ _ _ Hy)
                ltac:(reflexivity)) as H2.
  rewrite F2R_100 in H1, H2.
  unfold SFltb.
  destruct (SFcompare (S754_finite false m_100 (-46)) (S754_finite false q e))
    as [[| |] |]; try contradiction.
  - destruct H1 as [<- <-]. rewrite F2R_100 in Hlt. lra.
  - lra.
  - now destruct (SFcompare (S754_finite false q e)
                    (S754_finite false m_100 (-46))) as [[| |] |].
Qed.

Lemma positive_cases q e (y : float) :
  Prim2SF y = S754_finite false q e ->
  F2R (Z.pos q) e < 100 \/ at_least m_100 (-46) y.
Proof.
  intro Hy.
  destruct (Rlt_le_dec (F2R (Z.pos q) e) 100) as [H | H]; [now left |].
  right. right. exists q, e. split; [exact Hy |]. now rewrite F2R_100.
Qed.

Lemma capped_total_range y :
  zero_or_positive y = true ->
  exists n : Z,
    (0 <= n <= 100)%Z /\ JS.Math_round (JS.Math_min 100 y) = JS.Z2F n.
Proof.
  intro Hy. pose proof Hy as Hy'. unfold zero_or_positive in Hy'.
  destruct (Prim2SF y) as [[] | [] | | [] q e] eqn:Ey; try discriminate.
  - exists 0%Z. split; [lia |].
    assert (y = 0%float) as -> by (apply Prim2SF_inj; now rewrite Ey).
    vm_compute; reflexivity.
  - exists 100%Z. split; [lia |].
    rewrite Math_min_100_at_least by (now left). vm_compute; reflexivity.
  - destruct (positive_cases q e y Ey) as [Hlt | Hge].
    + rewrite (Math_min_100_below y q e Ey Hlt).
      apply (Math_round_between 0 100 y q e Ey); try lia.
      * pose proof (F2R_bounds q e) as [Hlo _].
        pose proof (bpow_pos (digits q - 1 + e)). lra.
      * change (IZR (2 * 100 + 1)) with 201. lra.
    + exists 100%Z. split; [lia |].
      rewrite Math_min_100_at_least by exact Hge. vm_compute; reflexivity.
Qed.

Lemma percentage_whole c d :
  is_finite c = true -> is_finite d = true ->
  exists n : Z,
    (0 <= n <= 100)%Z /\ getCompletionPercentage c d = JS.Z2F n.
Proof.
  intros Hc Hd. unfold getCompletionPercentage.
  destruct (d <=? 0)%float eqn:Hle.
  - exists 0%Z. split; [lia | reflexivity].
  - apply clamp_range, percentage_class; try assumption.
    now apply not_leb_0_positive.
Qed.

Lemma focus_values n :
  (0 <= n < 0 + 101)%Z ->
  zero_or_positive (JS.Z2F n / 100 * 60)%float = true
  /\ JS.Math_round (JS.Z2F n / 100 * 60)%float
     = JS.Z2F (focusScore_exact n).
Proof.
  intro Hn.
  assert (zero_or_positive (JS.Z2F n / 100 * 60)%float
          && Leibniz.eqb (JS.Math_round (JS.Z2F n / 100 * 60)%float)
               (JS.Z2F (focusScore_exact n)) = true) as H.
  { apply (Zrange_forallb
             (fun n => zero_or_positive (JS.Z2F n / 100 * 60)%float
                       && Leibniz.eqb
                            (JS.Math_round (JS.Z2F n / 100 * 60)%float)
                            (JS.Z2F (focusScore_exact n))) 0 101);
      [vm_compute; reflexivity | exact Hn]. }
  apply andb_true_iff in H. destruct H as [H1 H2].
  split; [exact H1 | now apply Leibniz.eqb_spec].
Qed.

Lemma promptness_values d :
  zero_or_positive (promptness d) = true
  /\ JS.Math_round (promptness d) = JS.Z2F (promptnessScore_exact d).
Proof.
  assert (promptnessScore_exact d
          = promptnessScore_exact (Z.max 2 (Z.min 31 d))) as ->.
  { unfold promptnessScore_exact.
    destruct (Z_le_gt_dec d 2) as [H2 | H2].
    - replace (Z.max 2 (Z.min 31 d)) with 2%Z by lia.
      now destruct (Z.leb_spec d 2); [| lia].
    - destruct (Z_le_gt_dec d 30) as [H30 | H30].
      + now replace (Z.max 2 (Z.min 31 d)) with d by lia.
      + replace (Z.max 2 (Z.min 31 d)) with 31%Z by lia.
        destruct (Z.leb_spec d 2); [lia |].
        destruct (Z.leb_spec d 10); [lia |].
        now destruct (Z.leb_spec d 30); [lia |]. }
  rewrite (promptness_clamp d).
  set (k := Z.max 2 (Z.min 31 d)).
  assert (2 <= k < 2 + 30)%Z as Hk by (unfold k; lia).
  assert (zero_or_positive (promptness k)
          && Leibniz.eqb (JS.Math_round (promptness k))
               (JS.Z2F (promptnessScore_exact k)) = true) as H.
  { apply (Zrange_forallb
             (fun k => zero_or_positive (promptness k)
                       && Leibniz.eqb (JS.Math_round (promptness k))
                            (JS.Z2F (promptnessScore_exact k))) 2 30);
      [vm_compute; reflexivity | exact Hk]. }
  apply andb_true_iff in H. destruct H as [H1 H2].
  split; [exact H1 | now apply Leibniz.eqb_spec].
Qed.

Lemma F2R_10_5 : F2R (Z.pos m_10_5) (-49) = 10.5.
Proof.
  unfold F2R. change (Z.pos m_10_5) with (21 * 2 ^ 48)%Z.
  rewrite mult_IZR, <- bpow_IZR by lia.
  rewrite Rmult_assoc, <- bpow_add.
  change (48 + -49)%Z with (-1)%Z.
  unfold bpow; simpl. rewrite Rmult_1_r. lra.
Qed.

(** The unrounded bonus is +0 or a positive number of at most 10.5. *)
Lemma commitment_class exp_impl c :
  (0 <=? JS.Math_exp exp_impl (-0.07 * (c - 45)))%float = true ->
  Prim2SF (commitment exp_impl c) = S754_zero false
  \/ exists q e, Prim2SF (commitment exp_impl c) = S754_finite false q e
                 /\ F2R (Z.pos q) e <= 10.5.
Proof.
  intro He. unfold commitment.
  change (maxBonus + 0.5)%float with 10.5%float.
  pose proof (add_one_at_least _ (leb_0_nonneg _ He)) as Hy.
  pose proof (div_10_5_range _ Hy) as Hr. cbv zeta in Hr.
  set (y := (1 + JS.Math_exp exp_impl (-0.07 * (c - 45)))%float) in *.
  assert (Prim2SF (10.5 / y) <> S754_zero true) as Hs.
  { rewrite div_spec, Prim2SF_10_5. unfold SF64div.
    destruct Hy as [-> | (my & ey & -> & _)]; cbn [SFdiv xorb];
      [discriminate |].
    rewrite SFdiv_core_spec.
    match goal with
    | |- binary_round_aux _ _ ?s ?m ?e ?l <> _ =>
        destruct (binary_round_aux_sign s m e l) as [-> | [-> | (q & e' & ->)]];
          try discriminate
    end.
    apply Z.div_pos; [| lia].
    apply Z.mul_nonneg_nonneg; [lia | apply Z.pow_nonneg; lia]. }
  destruct Hr as [([] & Hr) | (q & e & Hr & Hle)].
  - contradiction.
  - now left.
  - right. exists q, e. split; [exact Hr |]. now rewrite <- F2R_10_5.
Qed.

Lemma commitment_values exp_impl c :
  (0 <=? JS.Math_exp exp_impl (-0.07 * (c - 45)))%float = true ->
  zero_or_positive (commitment exp_impl c) = true
  /\ exists n : Z,
       (0 <= n <= 11)%Z
       /\ JS.Math_round (commitment exp_impl c) = JS.Z2F n.
Proof.
  intro He.
  destruct (commitment_class exp_impl c He) as [Hz | (q & e & Hq & Hle)].
  - split; [unfold zero_or_positive; now rewrite Hz |].
    exists 0%Z. split; [lia |].
    assert (commitment exp_impl c = 0%float) as ->
        by (apply Prim2SF_inj; now rewrite Hz).
    vm_compute; reflexivity.
  - split; [unfold zero_or_positive; now rewrite Hq |].
    apply (Math_round_between 0 11 _ q e Hq); try lia.
    + pose proof (F2R_bounds q e) as [Hlo _].
      pose proof (bpow_pos (digits q - 1 + e)). lra.
    + change (IZR (2 * 11 + 1)) with 23. lra.
Qed.

Lemma binary_round_upper P E s p e :
  canon P E -> (E <= emax - prec)%Z ->
  F2R (Z.pos p) e <= F2R (Z.pos P) E ->
  let r := binary_round prec emax s p e in
  r = S754_zero s
  \/ exists q e', r = S754_finite s q e'
                  /\ F2R (Z.pos q) e' <= F2R (Z.pos P) E.
Proof.
  intros HP HE Hle; cbv zeta. unfold binary_round. fold (digits p).
  destruct (shl_align_spec p e) as [Hv Hpre]; cbv zeta in Hv, Hpre.
  destruct (shl_align p e (fexp (digits p + e))) as [mz ez].
  cbn [fst snd] in Hv, Hpre.
  apply (binary_round_aux_upper P E s mz ez loc_Exact (F2R (Z.pos mz) ez));
    try assumption.
  - lra.
  - intro H; now contradiction H.
  - rewrite Hv; exact Hle.
Qed.

Lemma is_finite_of_SF x :
  (exists s, Prim2SF x = S754_zero s)
  \/ (exists s m e, Prim2SF x = S754_finite s m e) ->
  is_finite x = true.
Proof.
  unfold is_finite, is_infinity.
  rewrite is_nan_SF, FloatAxioms.eqb_spec, abs_spec.
  change (Prim2SF infinity) with (S754_infinity false).
  intros [(s & ->) | (s & m & e & ->)]; [reflexivity |].
  unfold SFeqb at 1. rewrite SFcompare_refl. reflexivity.
Qed.

(** Integers of magnitude up to 2^53 are finite doubles. *)
Lemma F2R_2p53 : F2R (Z.pos m_one) 1 = IZR (2 ^ 53).
Proof.
  unfold F2R. change (2 ^ 53)%Z with (Z.pos m_one * 2)%Z.
  rewrite mult_IZR. unfold bpow; simpl. now rewrite Rmult_1_r.
Qed.

Lemma F2R_int p : F2R (Z.pos p) 0 = IZR (Z.pos p).
Proof. unfold F2R, bpow; cbn [powerRZ]. apply Rmult_1_r. Qed.

Lemma Z2F_finite z :
  (Z.abs z <= 2 ^ 53)%Z -> is_finite (JS.Z2F z) = true.
Proof.
  intro Hz. apply is_finite_of_SF. rewrite Prim2SF_Z2F.
  destruct z as [| p | p]; cbn [binary_normalize].
  - left; now exists false.
  - destruct (binary_round_upper m_one 1 false p 0 ltac:(reflexivity)
                ltac:(vm_compute; discriminate)) as [H | (q & e & H & _)].
    + rewrite F2R_2p53, F2R_int. apply IZR_le. lia.
    + left; now exists false.
    + right; now exists false, q, e.
  - destruct (binary_round_upper m_one 1 true p 0 ltac:(reflexivity)
                ltac:(vm_compute; discriminate)) as [H | (q & e & H & _)].
    + rewrite F2R_2p53, F2R_int. apply IZR_le. lia.
    + left; now exists true.
    + right; now exists true, q, e.
Qed.

Lemma add_at_least x P E y :
  Prim2SF x = S754_finite false P E -> zero_or_positive y = true ->
  at_least P E (x + y)%float.
Proof.
  intros Hx. pose proof (Prim2SF_canon _ _ _ _ Hx) as HP.
  unfold zero_or_positive, at_least. rewrite add_spec, Hx. unfold SF64add.
  destruct (Prim2SF y) as [[] | [] | | [] m e]; try discriminate; intros _;
    cbn [SFadd].
  - right. exists P, E. split; [reflexivity | lra].
  - now left.
  - cbn [cond_Zopp]. rewrite <- Pos2Z.inj_add. cbn [binary_normalize].
    apply (binary_round_lower P E false _ _ HP).
    unfold F2R at 2. rewrite Pos2Z.inj_add, plus_IZR, Rmult_plus_distr_r.
    fold (F2R (Z.pos (fst (shl_align P E (Z.min E e)))) (Z.min E e)).
    rewrite (shl_align_value P E) by lia.
    pose proof (bpow_pos (Z.min E e)).
    assert (0 < IZR (Z.pos (fst (shl_align m e (Z.min E e)))))
      by (apply IZR_lt; lia).
    nra.
Qed.

Lemma capped_total_at_least (L : Z) P E y :
  at_least P E y -> F2R (Z.pos P) E = IZR L -> (0 <= L <= 100)%Z ->
  exists n : Z,
    (L <= n <= 100)%Z /\ JS.Math_round (JS.Math_min 100 y) = JS.Z2F n.
Proof.
  intros [Hy | (q & e & Hy & Hle)] HL Hr.
  - exists 100%Z. split; [lia |].
    rewrite Math_min_100_at_least by (now left). vm_compute; reflexivity.
  - destruct (positive_cases q e y Hy) as [Hlt | Hge].
    + rewrite (Math_min_100_below y q e Hy Hlt).
      apply (Math_round_between L 100 y q e Hy); try lia.
      * now rewrite <- HL.
      * change (IZR (2 * 100 + 1)) with 201. lra.
    + exists 100%Z. split; [lia |].
      rewrite Math_min_100_at_least by exact Hge. vm_compute; reflexivity.
Qed.

End Ranges.

Ltac div_bounds :=
  split; [apply Z.div_pos | apply Z.lt_succ_r, Z.div_lt_upper_bound]; lia.

Lemma promptnessScore_exact_range d : (0 <= promptnessScore_exact d <= 30)%Z.
Proof.
  unfold promptnessScore_exact.
  destruct (Z.leb_spec d 2); [lia |].
  destruct (Z.leb_spec d 10); [div_bounds |].
  destruct (Z.leb_spec d 30); [div_bounds | lia].
Qed.

Lemma focusScore_exact_range n :
  (0 <= n <= 100)%Z -> (0 <= focusScore_exact n <= 60)%Z.
Proof. intro Hn. unfold focusScore_exact. div_bounds. Qed.

Lemma focus_whole c d :
  is_finite c = true -> is_finite d = true ->
  exists n : Z,
    (0 <= n <= 100)%Z
    /\ getCompletionPercentage c d = JS.Z2F n
    /\ zero_or_positive (focus c d) = true
    /\ JS.Math_round (focus c d) = JS.Z2F (focusScore_exact n).
Proof.
  intros Hc Hd.
  destruct (percentage_whole _ _ Hc Hd) as (n & Hn & Hpct).
  destruct (focus_values n ltac:(lia)) as [Hf Hfr].
  exists n. unfold focus. now rewrite Hpct.
Qed.

Lemma totalScore_whole exp_impl input :
  is_finite (completedMinutes input) = true ->
  is_finite (durationMinutes input) = true ->
  (0 <=? JS.Math_exp exp_impl (-0.07 * (completedMinutes input - 45)))%float
  = true ->
  exists n : Z,
    (0 <= n <= 100)%Z
    /\ totalScore (calculateProductivityScore exp_impl input) = JS.Z2F n.
Proof.
  intros Hc Hd He.
  unfold calculateProductivityScore; cbn [totalScore].
  destruct (promptness_values
              (getDelayMinutes (scheduledStart input) (actualStart input)))
    as [Hp _].
  destruct (focus_whole _ _ Hc Hd) as (n & _ & _ & Hf & _).
  destruct (commitment_values exp_impl _ He) as [Hb _].
  unfold total. apply capped_total_range.
  apply add_zero_or_positive; [| exact Hb].
  now apply add_zero_or_positive.
Qed.

(** Every field of the breakdown is a whole number: promptness 0 to 30,
    focus 0 to 60, bonus 0 to 11, total 0 to 100. *)
Theorem breakdown_fields_in_range
    (exp_impl : float -> float) (input : ProductivityScoreInput) :
  is_finite (completedMinutes input) = true ->
  is_finite (durationMinutes input) = true ->
  (0 <=? JS.Math_exp exp_impl (-0.07 * (completedMinutes input - 45)))%float
  = true ->
  let r := calculateProductivityScore exp_impl input in
  (exists n, (0 <= n <= 30)%Z /\ promptnessScore r = JS.Z2F n)
  /\ (exists n, (0 <= n <= 60)%Z /\ focusScore r = JS.Z2F n)
  /\ (exists n, (0 <= n <= 11)%Z /\ commitmentBonus r = JS.Z2F n)
  /\ (exists n, (0 <= n <= 100)%Z /\ totalScore r = JS.Z2F n).
Proof.
  intros Hc Hd He; cbv zeta.
  split; [| split; [| split]].
  - exists (promptnessScore_exact
              (getDelayMinutes (scheduledStart input) (actualStart input))).
    split; [apply promptnessScore_exact_range |].
    apply promptness_values.
  - destruct (focus_whole _ _ Hc Hd) as (n & Hn & _ & _ & Hf).
    exists (focusScore_exact n).
    split; [now apply focusScore_exact_range | exact Hf].
  - apply (commitment_values exp_impl _ He).
  - now apply totalScore_whole.
Qed.

Lemma breakdown_fields_in_range_witness :
  is_finite (completedMinutes ten_hour_session) = true
  /\ exists n, (0 <= n <= 100)%Z
               /\ totalScore
                    (calculateProductivityScore Fdlibm.exp ten_hour_session)
                  = JS.Z2F n.
Proof.
  split; [reflexivity |].
  apply (breakdown_fields_in_range Fdlibm.exp ten_hour_session);
    vm_compute; reflexivity.
Defined.

Lemma Z2F_small_inj n m :
  (0 <= n <= 100)%Z -> (0 <= m <= 100)%Z -> JS.Z2F n = JS.Z2F m -> n = m.
Proof.
  intros Hn Hm H.
  pose (P := fun a b : Z =>
               implb (Leibniz.eqb (JS.Z2F a) (JS.Z2F b)) (a =? b)%Z).
  assert (forallb (fun a => forallb (P a) (Zrange 0 101)) (Zrange 0 101)
          = true) as Hall by (vm_compute; reflexivity).
  pose proof (Zrange_forallb _ _ _ Hall n ltac:(lia)) as H1; cbv beta in H1.
  pose proof (Zrange_forallb _ _ _ H1 m ltac:(lia)) as H2.
  unfold P in H2. apply Leibniz.eqb_spec in H. rewrite H in H2.
  now apply Z.eqb_eq.
Qed.

Lemma rounded_promptness_antitone d1 d2 :
  (d1 <= d2)%Z ->
  (JS.Math_round (promptness d2) <=? JS.Math_round (promptness d1))%float
  = true.
Proof.
  intro Hle.
  rewrite (promptness_clamp d1), (promptness_clamp d2).
  set (c1 := Z.max 2 (Z.min 31 d1)).
  set (c2 := Z.max 2 (Z.min 31 d2)).
  assert (c1 <= c2)%Z as Hc by lia.
  assert (2 <= c1 < 2 + 30)%Z as Hr1 by lia.
  assert (2 <= c2 < 2 + 30)%Z as Hr2 by lia.
  pose (P := fun a b : Z =>
               if (a <=? b)%Z
               then (JS.Math_round (promptness b)
                     <=? JS.Math_round (promptness a))%float
               else true).
  assert (forallb (fun a => forallb (P a) (Zrange 2 30)) (Zrange 2 30)
          = true) as Hall by (vm_compute; reflexivity).
  pose proof (Zrange_forallb _ _ _ Hall c1 Hr1) as H1; cbv beta in H1.
  pose proof (Zrange_forallb _ _ _ H1 c2 Hr2) as H12.
  unfold P in H12.
  now destruct (Z.leb_spec c1 c2); [| lia].
Qed.

(** The rounded promptness score the breakdown returns is the table's value
    rounded half up, computed without error; it is 30 exactly for delays of
    at most 2 whole minutes, that is for starts less than 180 000 ms after
    the scheduled one, 0 exactly from 30 minutes (1 800 000 ms) on, and a
    longer delay never earns more. *)
Theorem promptnessScore_thresholds
    (exp_impl : float -> float) (input : ProductivityScoreInput) :
  let d := getDelayMinutes (scheduledStart input) (actualStart input) in
  let r := promptnessScore (calculateProductivityScore exp_impl input) in
  r = JS.Z2F (promptnessScore_exact d)
  /\ (r = 30%float <-> (d <= 2)%Z)
  /\ (r = 0%float <-> (30 <= d)%Z)
  /\ ((d <= 2)%Z <-> (actualStart input - scheduledStart input < 180000)%Z)
  /\ ((30 <= d)%Z <-> (1800000 <= actualStart input - scheduledStart input)%Z)
  /\ (forall (exp_impl' : float -> float) (input' : ProductivityScoreInput),
        (d <= getDelayMinutes (scheduledStart input') (actualStart input'))%Z ->
        (promptnessScore (calculateProductivityScore exp_impl' input') <=? r)%float
        = true).
Proof.
  cbv zeta. unfold calculateProductivityScore; cbn [promptnessScore].
  assert (forall k : Z,
            (getDelayMinutes (scheduledStart input) (actualStart input) < k
             <-> actualStart input - scheduledStart input < 60000 * k)%Z)
    as Hfloor.
  { intro k. unfold getDelayMinutes. change (1000 * 60)%Z with 60000%Z.
    pose proof (Z.div_mod (actualStart input - scheduledStart input) 60000
                  ltac:(lia)).
    pose proof (Z.mod_pos_bound (actualStart input - scheduledStart input)
                  60000 ltac:(lia)).
    lia. }
  pose proof (Hfloor 3%Z) as Hf3. pose proof (Hfloor 30%Z) as Hf30.
  clear Hfloor.
  set (d := getDelayMinutes (scheduledStart input) (actualStart input)) in *.
  clearbody d.
  destruct (promptness_values d) as [_ Hr]. rewrite Hr.
  pose proof (promptnessScore_exact_range d) as Hrange.
  split; [reflexivity |].
  split; [| split; [| split; [lia | split; [lia |]]]].
  - change 30%float with (JS.Z2F 30). split.
    + intro H. apply Z2F_small_inj in H; [| lia | lia].
      revert H. unfold promptnessScore_exact.
      destruct (Z.leb_spec d 2) as [? | H2]; [lia |].
      destruct (Z.leb_spec d 10) as [H10 | H10].
      * intro He.
        assert ((8 * 30 - 15 * (d - 2) + 4) / 8 < 30)%Z; [| lia].
        apply Z.div_lt_upper_bound; lia.
      * destruct (Z.leb_spec d 30) as [H30 | ?]; [| lia].
        intro He.
        assert ((8 * 15 - 6 * (d - 10) + 4) / 8 < 30)%Z; [| lia].
        apply Z.div_lt_upper_bound; lia.
    + intro H. unfold promptnessScore_exact.
      now destruct (Z.leb_spec d 2); [| lia].
  - change 0%float with (JS.Z2F 0). split.
    + intro H. apply Z2F_small_inj in H; [| lia | lia].
      revert H. unfold promptnessScore_exact.
      destruct (Z.leb_spec d 2) as [? | H2]; [lia |].
      destruct (Z.leb_spec d 10) as [H10 | H10].
      * intro He.
        assert (1 <= (8 * 30 - 15 * (d - 2) + 4) / 8)%Z; [| lia].
        apply Z.div_le_lower_bound; lia.
      * destruct (Z.leb_spec d 30) as [H30 | ?]; [| lia].
        intro He.
        destruct (Z_lt_le_dec d 30) as [Hlt | Hge]; [| exact Hge].
        assert (1 <= (8 * 15 - 6 * (d - 10) + 4) / 8)%Z; [| lia].
        apply Z.div_le_lower_bound; lia.
    + intro H. f_equal. unfold promptnessScore_exact.
      destruct (Z.leb_spec d 2) as [? | H2]; [lia |].
      destruct (Z.leb_spec d 10) as [? | H10]; [lia |].
      destruct (Z.leb_spec d 30) as [H30 | ?]; [| reflexivity].
      now replace d with 30%Z by lia.
  - intros _ input' Hle. rewrite <- Hr.
    now apply rounded_promptness_antitone.
Qed.

(** For finite minutes the rounded focus score is 0.6 times the completion
    percentage rounded half up, computed without error: 60 exactly at 100
    per cent and 0 exactly at 0 per cent. *)
Theorem focusScore_from_percentage
    (exp_impl : float -> float) (input : ProductivityScoreInput) :
  is_finite (completedMinutes input) = true ->
  is_finite (durationMinutes input) = true ->
  let r := focusScore (calculateProductivityScore exp_impl input) in
  exists n : Z,
    (0 <= n <= 100)%Z
    /\ getCompletionPercentage (completedMinutes input) (durationMinutes input)
       = JS.Z2F n
    /\ r = JS.Z2F (focusScore_exact n)
    /\ (r = 60%float <-> n = 100%Z)
    /\ (r = 0%float <-> n = 0%Z).
Proof.
  intros Hc Hd; cbv zeta.
  unfold calculateProductivityScore; cbn [focusScore].
  destruct (focus_whole _ _ Hc Hd) as (n & Hn & Hpct & _ & Hf).
  exists n. rewrite Hf.
  pose proof (focusScore_exact_range n Hn) as Hrange.
  repeat split; try assumption; try lia.
  - change 60%float with (JS.Z2F 60). intro H.
    apply Z2F_small_inj in H; [| lia | lia].
    unfold focusScore_exact in H.
    destruct (Z_lt_le_dec n 100) as [Hlt | Hge]; [| lia].
    assert ((60 * n + 50) / 100 < 60)%Z; [| lia].
    apply Z.div_lt_upper_bound; lia.
  - now intros ->.
  - change 0%float with (JS.Z2F 0). intro H.
    apply Z2F_small_inj in H; [| lia | lia].
    unfold focusScore_exact in H.
    destruct (Z_lt_le_dec 0 n) as [Hlt | Hge]; [| lia].
    assert (1 <= (60 * n + 50) / 100)%Z; [| lia].
    apply Z.div_le_lower_bound; lia.
  - now intros ->.
Qed.

Lemma focusScore_from_percentage_witness :
  is_finite (completedMinutes five_minutes_late) = true
  /\ is_finite (durationMinutes five_minutes_late) = true
  /\ exists n : Z,
       focusScore (calculateProductivityScore Fdlibm.exp five_minutes_late)
       = JS.Z2F (focusScore_exact n).
Proof.
  split; [reflexivity | split; [reflexivity |]].
  destruct (focusScore_from_percentage Fdlibm.exp five_minutes_late
              eq_refl eq_refl) as (n & _ & _ & H & _).
  now exists n.
Defined.

Lemma percentage_checked (d c : Z) :
  (1 <= d <= 300)%Z -> (0 <= c <= d)%Z -> percentage_check d c = true.
Proof.
  intros Hd Hc.
  assert (forallb (fun d => forallb (percentage_check d) (Zrange 0 (d + 1)))
            (Zrange 1 300) = true) as Hall by (vm_compute; reflexivity).
  pose proof (Zrange_forallb _ _ _ Hall d ltac:(lia)) as H; cbv beta in H.
  apply (Zrange_forallb _ _ _ H c). lia.
Qed.

(** For sessions of 1 to 300 whole minutes (the range the form allows) and
    whole completed minutes up to the duration: the percentage is the
    exactly rounded one, or one below it when the exact percentage ends in
    one half; it is 100 only for a full session or, from 200 minutes on, a
    session one minute short; and one more completed minute never lowers
    it. *)
Theorem percentage_of_whole_minutes (c d : Z) :
  (1 <= d <= 300)%Z -> (0 <= c <= d)%Z ->
  let p := getCompletionPercentage (JS.Z2F c) (JS.Z2F d) in
  (p = JS.Z2F (percentage_exact c d)
   \/ (p = JS.Z2F (percentage_exact c d - 1)
       /\ ((200 * c) mod (2 * d) = d)%Z))
  /\ ((100 <=? p)%float = true
      <-> c = d \/ ((200 <= d)%Z /\ c = (d - 1)%Z))
  /\ ((c < d)%Z ->
      (p <=? getCompletionPercentage (JS.Z2F (c + 1)) (JS.Z2F d))%float
      = true).
Proof.
  intros Hd Hc; cbv zeta.
  pose proof (percentage_checked d c Hd Hc) as H.
  unfold percentage_check in H; cbv zeta in H.
  apply andb_true_iff in H. destruct H as [H H3].
  apply andb_true_iff in H. destruct H as [H1 H2].
  split; [| split].
  - apply orb_true_iff in H1. destruct H1 as [H1 | H1].
    + left. now apply Leibniz.eqb_spec.
    + right. apply andb_true_iff in H1. destruct H1 as [H1 Ht].
      split; [now apply Leibniz.eqb_spec | now apply Z.eqb_eq].
  - apply Bool.eqb_prop in H2. rewrite H2.
    rewrite orb_true_iff, andb_true_iff, !Z.eqb_eq, Z.leb_le. tauto.
  - intro Hlt. now destruct (Z.ltb_spec c d); [| lia].
Qed.

Lemma percentage_of_whole_minutes_witness :
  (1 <= 40 <= 300)%Z /\ (0 <= 23 <= 40)%Z
  /\ (getCompletionPercentage (JS.Z2F 23) (JS.Z2F 40)
      = JS.Z2F (percentage_exact 23 40)
      \/ (getCompletionPercentage (JS.Z2F 23) (JS.Z2F 40)
          = JS.Z2F (percentage_exact 23 40 - 1)
          /\ ((200 * 23) mod (2 * 40) = 40)%Z)).
Proof.
  split; [lia | split; [lia |]].
  apply (percentage_of_whole_minutes 23 40); lia.
Defined.

(** * The session timer *)

(** ** The countdown *)

Lemma tick_running (st : SessionTimer.State) :
  SessionTimer.isRunning st = true -> (1 < SessionTimer.timeRemaining st)%Z ->
  SessionTimer.tick st
  = SessionTimer.setTimeRemaining (SessionTimer.timeRemaining st - 1) st.
Proof.
  intros Hr Ht. unfold SessionTimer.tick. rewrite Hr.
  now destruct (Z.leb_spec (SessionTimer.timeRemaining st) 1); [lia |].
Qed.

Lemma ticks_running (k : nat) (st : SessionTimer.State) :
  SessionTimer.isRunning st = true ->
  (Z.of_nat k < SessionTimer.timeRemaining st)%Z ->
  Nat.iter k SessionTimer.tick st
  = SessionTimer.setTimeRemaining
      (SessionTimer.timeRemaining st - Z.of_nat k) st.
Proof.
  intro Hr. induction k as [| k IH]; intro Hk.
  - cbn. rewrite Z.sub_0_r. now destruct st.
  - rewrite Nat.iter_succ, IH by lia.
    rewrite tick_running; cbn [SessionTimer.setTimeRemaining
      SessionTimer.isRunning SessionTimer.timeRemaining]; [| exact Hr | lia].
    unfold SessionTimer.setTimeRemaining; cbn. f_equal. lia.
Qed.

(** A running countdown of [n] seconds keeps running for [n - 1] ticks,
    losing one second per tick; the [n]-th tick stops it at zero and opens
    the reflection; later ticks change nothing. *)
Theorem countdown_completes_on_last_tick (st : SessionTimer.State) (n : nat) :
  SessionTimer.isRunning st = true ->
  SessionTimer.timeRemaining st = Z.of_nat (S n) ->
  (forall k : nat, (k <= n)%nat ->
     let s := Nat.iter k SessionTimer.tick st in
     SessionTimer.isRunning s = true
     /\ SessionTimer.timeRemaining s = (Z.of_nat (S n) - Z.of_nat k)%Z
     /\ SessionTimer.showReflection s = SessionTimer.showReflection st)
  /\ (let s := Nat.iter (S n) SessionTimer.tick st in
      SessionTimer.isRunning s = false
      /\ SessionTimer.timeRemaining s = 0%Z
      /\ SessionTimer.showReflection s = true
      /\ SessionTimer.actualStart s = SessionTimer.actualStart st
      /\ forall j : nat, Nat.iter j SessionTimer.tick s = s).
Proof.
  intros Hr Ht.
  assert (forall k : nat, (k <= n)%nat ->
            Nat.iter k SessionTimer.tick st
            = SessionTimer.setTimeRemaining
                (Z.of_nat (S n) - Z.of_nat k) st) as Hk.
  { intros k Hle. rewrite ticks_running by (try assumption; lia).
    now rewrite Ht. }
  split.
  - intros k Hle; cbv zeta. rewrite (Hk k Hle). cbn. now rewrite Hr.
  - cbv zeta. rewrite Nat.iter_succ, (Hk n (le_n n)).
    replace (Z.of_nat (S n) - Z.of_nat n)%Z with 1%Z by lia.
    assert (SessionTimer.tick (SessionTimer.setTimeRemaining 1 st)
            = SessionTimer.setTimeRemaining 0
                (SessionTimer.handleComplete
                   (SessionTimer.setTimeRemaining 1 st))) as ->.
    { unfold SessionTimer.tick.
      cbn [SessionTimer.setTimeRemaining SessionTimer.isRunning
           SessionTimer.timeRemaining].
      now rewrite Hr. }
    repeat split.
    intro j; induction j as [| j IH]; [reflexivity |].
    rewrite Nat.iter_succ. now rewrite IH.
Qed.

Lemma countdown_completes_on_last_tick_witness :
  let session :=
    {| SessionTimer.id := "s"; SessionTimer.task_name := "t";
       SessionTimer.scheduled_start := 0;
       SessionTimer.duration_minutes := 1;
       SessionTimer.status := "scheduled" |} in
  let st := fst (SessionTimer.handleStart session 0
                   (SessionTimer.initial session)) in
  SessionTimer.isRunning st = true
  /\ SessionTimer.timeRemaining st = 60%Z
  /\ SessionTimer.showReflection (Nat.iter 60 SessionTimer.tick st) = true.
Proof.
  cbv zeta. split; [reflexivity | split; [reflexivity |]].
  match goal with
  | |- SessionTimer.showReflection (Nat.iter 60 _ ?st) = _ =>
      destruct (countdown_completes_on_last_tick st 59 eq_refl eq_refl)
        as (_ & _ & _ & H & _)
  end.
  exact H.
Defined.

(** ** Resuming a stored timer *)

(** With a stored entry for this session, a mount without
    [startImmediately] (what the dashboard passes for a session in
    progress) writes nothing and resumes the countdown exactly when less
    than the whole duration has elapsed since the stored start; the start
    time is then the stored one and the time left is the duration less the
    whole seconds elapsed, which is within the session's length when the
    stored start is not in the future.  A mount with [startImmediately]
    starts the timer whatever the stored entry says: the auto-start effect
    still sees the initial state, so it replaces the restored start time
    and the stored entry by the current time, while the time left stays
    the restored one. *)
Theorem restore_resumes_unfinished_timer
    (session : SessionTimer.Session)
    (stored : SessionTimer.StoredSessionState) (now startNow : Z) :
  SessionTimer.sessionId stored = SessionTimer.id session ->
  let start := SessionTimer.startTime stored in
  let length := (SessionTimer.duration_minutes session * 60)%Z in
  let resumed :=
    SessionTimer.mount false session (Some stored) now startNow in
  let st := fst resumed in
  snd resumed = None
  /\ (SessionTimer.isRunning st = true <-> (now - start < length * 1000)%Z)
  /\ (SessionTimer.isRunning st = true ->
      SessionTimer.actualStart st = Some start
      /\ SessionTimer.timeRemaining st = (length - (now - start) / 1000)%Z
      /\ (0 < SessionTimer.timeRemaining st)%Z
      /\ SessionTimer.showReflection st = false
      /\ ((start <= now)%Z -> (SessionTimer.timeRemaining st <= length)%Z))
  /\ (let started :=
        SessionTimer.mount true session (Some stored) now startNow in
      snd started
      = Some {| SessionTimer.sessionId := SessionTimer.id session;
                SessionTimer.startTime := startNow |}
      /\ fst started
         = SessionTimer.setIsRunning true
             (SessionTimer.setActualStart (Some startNow) st)).
Proof.
  intros Hid; cbv zeta.
  unfold SessionTimer.mount, SessionTimer.autoStart,
    SessionTimer.handleStartOf.
  cbn [SessionTimer.initial SessionTimer.isRunning SessionTimer.actualStart
       andb negb fst snd].
  split; [reflexivity |].
  unfold SessionTimer.restore.
  rewrite Hid, String.eqb_refl.
  set (start := SessionTimer.startTime stored).
  set (d := SessionTimer.duration_minutes session).
  pose proof (Z.div_mod (now - start) 1000 ltac:(lia)) as Hdm.
  pose proof (Z.mod_pos_bound (now - start) 1000 ltac:(lia)) as Hm.
  destruct (Z.ltb_spec 0 (d * 60 - (now - start) / 1000)) as [Hpos | Hneg];
    cbn.
  - split; [split; [lia | reflexivity] |].
    split; [| split; reflexivity].
    intros _. repeat split; try lia.
  - split; [split; [discriminate | lia] |].
    split; [discriminate | split; reflexivity].
Qed.

Lemma restore_resumes_unfinished_timer_witness :
  let session :=
    {| SessionTimer.id := "a"; SessionTimer.task_name := "t";
       SessionTimer.scheduled_start := 0;
       SessionTimer.duration_minutes := 45;
       SessionTimer.status := "in_progress" |} in
  let stored :=
    {| SessionTimer.sessionId := "a"; SessionTimer.startTime := 1000 |} in
  SessionTimer.sessionId stored = SessionTimer.id session
  /\ SessionTimer.timeRemaining
       (fst (SessionTimer.mount false session (Some stored) 61999 62000))
     = 2640%Z
  /\ SessionTimer.actualStart
       (fst (SessionTimer.mount true session (Some stored) 61999 62000))
     = Some 62000%Z.
Proof.
  cbv zeta. split; [reflexivity |].
  match goal with
  | |- SessionTimer.timeRemaining
         (fst (SessionTimer.mount false ?s (Some ?e) ?n ?n')) = _ /\ _ =>
      destruct (restore_resumes_unfinished_timer s e n n' eq_refl)
        as (_ & _ & H & _ & Hs)
  end.
  destruct (H eq_refl) as (_ & -> & _).
  cbv zeta in Hs. rewrite Hs. split; reflexivity.
Defined.

(** When the stored timer has already run out, the mount effect only opens
    the reflection: no start time is set, the time left keeps its initial
    value, the auto-start effect of a resumed session (one opened without
    [startImmediately]) changes nothing, whichever render it belongs to,
    so this is the state after the mount, and [submitReflection] in that
    state writes nothing. *)
Theorem restore_finished_timer_cannot_submit
    (session : SessionTimer.Session)
    (stored : SessionTimer.StoredSessionState) (now : Z) :
  SessionTimer.sessionId stored = SessionTimer.id session ->
  (SessionTimer.duration_minutes session * 60 * 1000
   <= now - SessionTimer.startTime stored)%Z ->
  let st := SessionTimer.restore session (Some stored) now
              (SessionTimer.initial session) in
  SessionTimer.showReflection st = true
  /\ SessionTimer.isRunning st = false
  /\ SessionTimer.actualStart st = None
  /\ SessionTimer.timeRemaining st
     = (SessionTimer.duration_minutes session * 60)%Z
  /\ (forall now' render,
        SessionTimer.autoStart false session now' render st = (st, None))
  /\ (forall startNow,
        SessionTimer.mount false session (Some stored) now startNow
        = (st, None))
  /\ forall exp_impl getHours endOfDay user existingStats now' today,
       SessionTimer.submitReflection exp_impl getHours endOfDay session user
         existingStats now' today st = None.
Proof.
  intros Hid Hdone; cbv zeta.
  unfold SessionTimer.mount, SessionTimer.autoStart, SessionTimer.restore.
  rewrite Hid, String.eqb_refl.
  set (start := SessionTimer.startTime stored) in *.
  set (d := SessionTimer.duration_minutes session) in *.
  pose proof (Z.div_mod (now - start) 1000 ltac:(lia)) as Hdm.
  pose proof (Z.mod_pos_bound (now - start) 1000 ltac:(lia)) as Hm.
  destruct (Z.ltb_spec 0 (d * 60 - (now - start) / 1000)) as [Hpos | Hneg];
    [lia |].
  cbn. repeat split.
  intros. unfold SessionTimer.submitReflection. cbn.
  now destruct user.
Qed.

Lemma restore_finished_timer_cannot_submit_witness :
  let session :=
    {| SessionTimer.id := "a"; SessionTimer.task_name := "t";
       SessionTimer.scheduled_start := 0;
       SessionTimer.duration_minutes := 45;
       SessionTimer.status := "in_progress" |} in
  let stored :=
    {| SessionTimer.sessionId := "a"; SessionTimer.startTime := 0 |} in
  SessionTimer.sessionId stored = SessionTimer.id session
  /\ (SessionTimer.duration_minutes session * 60 * 1000
      <= 2700000 - SessionTimer.startTime stored)%Z
  /\ SessionTimer.actualStart
       (SessionTimer.restore session (Some stored) 2700000
          (SessionTimer.initial session)) = None.
Proof.
  cbv zeta. split; [reflexivity | split; [cbn; lia |]].
  match goal with
  | |- SessionTimer.actualStart
         (SessionTimer.restore ?s (Some ?e) ?n _) = _ =>
      destruct (restore_finished_timer_cannot_submit s e n eq_refl
                  ltac:(cbn; lia)) as (_ & _ & H & _)
  end.
  exact H.
Defined.

(** ** Submitting the reflection *)

Lemma completedMinutes_range (session : SessionTimer.Session)
    (st : SessionTimer.State) :
  (0 <= SessionTimer.timeRemaining st
   <= SessionTimer.duration_minutes session * 60)%Z ->
  (0 <= SessionTimer.completedMinutes session st
   <= SessionTimer.duration_minutes session)%Z.
Proof.
  intro Ht. unfold SessionTimer.completedMinutes; cbv zeta.
  split; [apply Z.div_pos; lia |].
  apply Z.div_le_upper_bound; lia.
Qed.

Section Submit.

Variable exp_impl : float -> float.
Variables getHours endOfDay : Z -> Z.
Variable session : SessionTimer.Session.
Variable st : SessionTimer.State.

Hypothesis duration_range :
  (0 < SessionTimer.duration_minutes session < 2 ^ 31)%Z.
Hypothesis timer_range :
  (0 <= SessionTimer.timeRemaining st
   <= SessionTimer.duration_minutes session * 60)%Z.

Lemma submitted_minutes_finite :
  is_finite (JS.Z2F (SessionTimer.completedMinutes session st)) = true
  /\ is_finite (JS.Z2F (SessionTimer.duration_minutes session)) = true.
Proof.
  pose proof (completedMinutes_range session st timer_range).
  assert (2 ^ 31 < 2 ^ 53)%Z by (vm_compute; reflexivity).
  split; apply Z2F_finite; lia.
Qed.

Lemma finalScore_whole (a : Z) :
  (0 <=? JS.Math_exp exp_impl
           (-0.07 * (JS.Z2F (SessionTimer.completedMinutes session st) - 45)))%float
  = true ->
  exists n : Z,
    (0 <= n <= 100)%Z
    /\ SessionTimer.finalScore exp_impl getHours endOfDay session a st
       = JS.Z2F n.
Proof.
  intro He. unfold SessionTimer.finalScore.
  destruct (SessionTimer.deadline getHours endOfDay
              (SessionTimer.scheduled_start session) <? a)%Z.
  - exists 0%Z. split; [lia | reflexivity].
  - destruct submitted_minutes_finite as [Hc Hd].
    unfold SessionTimer.score. now apply totalScore_whole.
Qed.

End Submit.

(** With a user and a start time, for a session of a positive whole number
    of minutes and a countdown within it, whenever Math.exp returns a
    non-negative number: [submitReflection] writes a log whose
    [productivity_score] and [completion_percentage] are whole numbers from
    0 to 100, as the table's CHECK constraints require, and the score is 0
    when the session was started after its deadline. *)
Theorem submitReflection_log_within_checks
    (exp_impl : float -> float) (getHours endOfDay : Z -> Z)
    (session : SessionTimer.Session) (user : string)
    (existingStats : option SessionTimer.UserStats) (now : Z)
    (today : string) (st : SessionTimer.State) (a : Z) :
  SessionTimer.actualStart st = Some a ->
  (0 < SessionTimer.duration_minutes session < 2 ^ 31)%Z ->
  (0 <= SessionTimer.timeRemaining st
   <= SessionTimer.duration_minutes session * 60)%Z ->
  (0 <=? JS.Math_exp exp_impl
           (-0.07 * (JS.Z2F (SessionTimer.completedMinutes session st) - 45)))%float
  = true ->
  exists log stats,
    SessionTimer.submitReflection exp_impl getHours endOfDay session
      (Some user) existingStats now today st = Some (log, stats)
    /\ (exists n, (0 <= n <= 100)%Z
                  /\ SessionTimer.productivity_score log = JS.Z2F n)
    /\ (exists n, (0 <= n <= 100)%Z
                  /\ SessionTimer.completion_percentage log = JS.Z2F n)
    /\ ((SessionTimer.deadline getHours endOfDay
           (SessionTimer.scheduled_start session) < a)%Z ->
        SessionTimer.productivity_score log = 0%float).
Proof.
  intros Ha Hd Ht He.
  unfold SessionTimer.submitReflection. rewrite Ha.
  eexists; eexists. split; [reflexivity |].
  cbn [SessionTimer.productivity_score SessionTimer.completion_percentage].
  split; [| split].
  - now apply finalScore_whole.
  - destruct (submitted_minutes_finite session st Hd Ht) as [Hc Hf].
    unfold SessionTimer.completionPercentage.
    now apply percentage_whole.
  - intro Hlate. unfold SessionTimer.finalScore.
    now destruct (Z.ltb_spec
                    (SessionTimer.deadline getHours endOfDay
                       (SessionTimer.scheduled_start session)) a); [| lia].
Qed.

Lemma full_percentage n :
  (0 <= n <= 100)%Z -> (100 <=? JS.Z2F n)%float = true -> n = 100%Z.
Proof.
  intros Hn H.
  assert (forallb (fun n => implb (100 <=? JS.Z2F n)%float (n =? 100)%Z)
            (Zrange 0 101) = true) as Hall by (vm_compute; reflexivity).
  pose proof (Zrange_forallb _ _ _ Hall n ltac:(lia)) as H1; cbv beta in H1.
  rewrite H in H1. now apply Z.eqb_eq.
Qed.

Lemma Prim2SF_90 : Prim2SF 90 = S754_finite false 6333186975989760 (-46).
Proof. vm_compute; reflexivity. Qed.

(** A session that extends the streak (started by the deadline, at most one
    minute late, and completed) has the full promptness and focus scores,
    keeps its total as the final score, and that score is at least 90. *)
Theorem streak_session_scores_at_least_90
    (exp_impl : float -> float) (getHours endOfDay : Z -> Z)
    (session : SessionTimer.Session) (st : SessionTimer.State) (a : Z) :
  (0 < SessionTimer.duration_minutes session < 2 ^ 31)%Z ->
  (0 <= SessionTimer.timeRemaining st
   <= SessionTimer.duration_minutes session * 60)%Z ->
  (0 <=? JS.Math_exp exp_impl
           (-0.07 * (JS.Z2F (SessionTimer.completedMinutes session st) - 45)))%float
  = true ->
  SessionTimer.wasOnTime getHours endOfDay session a = true ->
  SessionTimer.wasCompleted session st = true ->
  let sc := SessionTimer.score exp_impl session a st in
  let final :=
    SessionTimer.finalScore exp_impl getHours endOfDay session a st in
  promptnessScore sc = 30%float
  /\ focusScore sc = 60%float
  /\ final = totalScore sc
  /\ exists n : Z, (90 <= n <= 100)%Z /\ final = JS.Z2F n.
Proof.
  intros Hd Ht He Hon Hdone; cbv zeta.
  unfold SessionTimer.wasOnTime in Hon.
  apply andb_true_iff in Hon. destruct Hon as [Hdl Hdelay].
  apply Z.leb_le in Hdl, Hdelay.
  assert (SessionTimer.finalScore exp_impl getHours endOfDay session a st
          = totalScore (SessionTimer.score exp_impl session a st)) as Hfinal.
  { unfold SessionTimer.finalScore.
    now destruct (Z.ltb_spec
                    (SessionTimer.deadline getHours endOfDay
                       (SessionTimer.scheduled_start session)) a); [lia |]. }
  rewrite Hfinal.
  destruct (submitted_minutes_finite session st Hd Ht) as [Hc Hf].
  unfold SessionTimer.wasCompleted, SessionTimer.completionPercentage in Hdone.
  destruct (percentage_whole _ _ Hc Hf) as (n & Hn & Hpct).
  rewrite Hpct in Hdone.
  pose proof (full_percentage n Hn Hdone) as ->.
  unfold SessionTimer.score, calculateProductivityScore.
  cbn [promptnessScore focusScore totalScore scheduledStart actualStart
       completedMinutes durationMinutes].
  rewrite promptness_early by lia.
  assert (focus (JS.Z2F (SessionTimer.completedMinutes session st))
            (JS.Z2F (SessionTimer.duration_minutes session)) = 60%float)
    as -> by (unfold focus; rewrite Hpct; vm_compute; reflexivity).
  split; [vm_compute; reflexivity |].
  split; [vm_compute; reflexivity |].
  split; [reflexivity |].
  unfold total. change (30 + 60)%float with 90%float.
  apply (capped_total_at_least 90 6333186975989760 (-46)); [| | lia].
  - apply (add_at_least 90 _ _ _ Prim2SF_90).
    apply (commitment_values exp_impl _ He).
  - apply (F2R_scaled 90 46). lia.
Qed.

(** ** The statistics row *)

(** The counters of the statistics row after a submitted session: the
    current streak never exceeds the longest, which never decreases; the
    session count grows by one; the consistency of the counters is kept,
    and the first row is consistent. *)
Theorem submitReflection_keeps_counters_consistent
    (exp_impl : float -> float) (getHours endOfDay : Z -> Z)
    (session : SessionTimer.Session) (user : option string)
    (existingStats : option SessionTimer.UserStats) (now : Z)
    (today : string) (st : SessionTimer.State)
    (log : SessionTimer.SessionLog) (stats : SessionTimer.UserStats) :
  SessionTimer.submitReflection exp_impl getHours endOfDay session user
    existingStats now today st = Some (log, stats) ->
  (SessionTimer.current_streak stats <= SessionTimer.longest_streak stats)%Z
  /\ (forall old, existingStats = Some old ->
        (SessionTimer.longest_streak old
         <= SessionTimer.longest_streak stats)%Z
        /\ SessionTimer.total_sessions stats
           = (SessionTimer.total_sessions old + 1)%Z
        /\ (SessionTimer.current_streak stats
            = (SessionTimer.current_streak old + 1)%Z
            \/ SessionTimer.current_streak stats = 0%Z)
        /\ (counters_consistent old ->
            counters_consistent stats))
  /\ (existingStats = None -> counters_consistent stats).
Proof.
  unfold SessionTimer.submitReflection.
  destruct user as [u |]; [| discriminate].
  destruct (SessionTimer.actualStart st) as [a |]; [| discriminate].
  intro H. injection H as _ <-.
  set (on := SessionTimer.wasOnTime getHours endOfDay session a).
  set (done := SessionTimer.wasCompleted session st).
  unfold SessionTimer.newStats, counters_consistent.
  destruct existingStats as [old |].
  - cbn [SessionTimer.current_streak SessionTimer.longest_streak
         SessionTimer.total_sessions SessionTimer.total_on_time
         SessionTimer.total_completed].
    split; [lia |]. split; [| discriminate].
    intros old' Hold. injection Hold as <-.
    destruct on, done; cbn [andb]; repeat split; try lia.
  - cbn [SessionTimer.current_streak SessionTimer.longest_streak
         SessionTimer.total_sessions SessionTimer.total_on_time
         SessionTimer.total_completed].
    split; [lia |]. split; [discriminate |].
    intros _. destruct on, done; cbn [andb]; lia.
Qed.

(** For sessions of 1 to 300 minutes and a countdown within the session:
    the session counts as completed exactly when the countdown reached
    zero or, for sessions of 200 minutes and more, when at most one minute
    was left. *)
Theorem wasCompleted_iff_timer_ran_out
    (session : SessionTimer.Session) (st : SessionTimer.State) :
  (1 <= SessionTimer.duration_minutes session <= 300)%Z ->
  (0 <= SessionTimer.timeRemaining st
   <= SessionTimer.duration_minutes session * 60)%Z ->
  SessionTimer.wasCompleted session st = true
  <-> SessionTimer.timeRemaining st = 0%Z
      \/ ((200 <= SessionTimer.duration_minutes session)%Z
          /\ (SessionTimer.timeRemaining st <= 60)%Z).
Proof.
  intros Hd Ht.
  pose proof (completedMinutes_range session st Ht) as Hc.
  pose proof (percentage_checked _ _ Hd Hc) as H.
  unfold percentage_check in H; cbv zeta in H.
  apply andb_true_iff in H. destruct H as [H _].
  apply andb_true_iff in H. destruct H as [_ H].
  apply Bool.eqb_prop in H.
  unfold SessionTimer.wasCompleted, SessionTimer.completionPercentage.
  rewrite H, orb_true_iff, andb_true_iff, !Z.eqb_eq, Z.leb_le.
  unfold SessionTimer.completedMinutes in *; cbv zeta in *.
  set (d := SessionTimer.duration_minutes session) in *.
  set (t := SessionTimer.timeRemaining st) in *.
  pose proof (Z.div_mod (d * 60 - t) 60 ltac:(lia)) as Hdm.
  pose proof (Z.mod_pos_bound (d * 60 - t) 60 ltac:(lia)) as Hm.
  lia.
Qed.

Lemma wasCompleted_iff_timer_ran_out_witness :
  let session :=
    {| SessionTimer.id := "a"; SessionTimer.task_name := "t";
       SessionTimer.scheduled_start := 0;
       SessionTimer.duration_minutes := 240;
       SessionTimer.status := "in_progress" |} in
  let st := SessionTimer.setTimeRemaining 60 (SessionTimer.initial session) in
  (1 <= SessionTimer.duration_minutes session <= 300)%Z
  /\ (0 <= SessionTimer.timeRemaining st
      <= SessionTimer.duration_minutes session * 60)%Z
  /\ SessionTimer.wasCompleted session st = true.
Proof.
  cbv zeta. split; [cbn; lia | split; [cbn; lia |]].
  match goal with
  | |- SessionTimer.wasCompleted ?s ?st = true =>
      apply (wasCompleted_iff_timer_ran_out s st); cbn; lia
  end.
Defined.

(** ** Worked sessions *)

Lemma submitReflection_log_within_checks_witness :
  exists log stats,
    SessionTimer.submitReflection Fdlibm.exp utc_getHours utc_endOfDay
      morning_session (Some "u"%string) None 2730000 "1970-01-01"%string
      morning_session_done = Some (log, stats)
    /\ (exists n, (0 <= n <= 100)%Z
                  /\ SessionTimer.productivity_score log = JS.Z2F n).
Proof.
  destruct (submitReflection_log_within_checks Fdlibm.exp utc_getHours
              utc_endOfDay morning_session "u"%string None 2730000
              "1970-01-01"%string morning_session_done 30000 eq_refl
              ltac:(split; reflexivity)
              ltac:(split; vm_compute; discriminate)
              ltac:(vm_compute; reflexivity))
    as (log & stats & H & Hp & _).
  exists log, stats. now split.
Defined.

Lemma streak_session_scores_at_least_90_witness :
  SessionTimer.wasOnTime utc_getHours utc_endOfDay morning_session 30000
  = true
  /\ SessionTimer.wasCompleted morning_session morning_session_done = true
  /\ promptnessScore
       (SessionTimer.score Fdlibm.exp morning_session 30000
          morning_session_done) = 30%float.
Proof.
  split; [vm_compute; reflexivity | split; [vm_compute; reflexivity |]].
  apply (streak_session_scores_at_least_90 Fdlibm.exp utc_getHours
           utc_endOfDay morning_session morning_session_done 30000);
    [split; reflexivity | split; vm_compute; discriminate
    | vm_compute; reflexivity ..].
Defined.

Lemma submitReflection_keeps_counters_consistent_witness :
  exists log stats,
    SessionTimer.submitReflection Fdlibm.exp utc_getHours utc_endOfDay
      morning_session (Some "u"%string) None 2730000 "1970-01-01"%string
      morning_session_done = Some (log, stats)
    /\ counters_consistent stats.
Proof.
  eexists; eexists. split; [reflexivity |].
  eapply (submitReflection_keeps_counters_consistent Fdlibm.exp utc_getHours
            utc_endOfDay morning_session (Some "u"%string) None 2730000
            "1970-01-01"%string morning_session_done);
    reflexivity.
Defined.

(** ** The clock text *)

Lemma read_String_of_Z n :
  (0 <= n)%Z -> read_digits (SessionTimer.String_of_Z n) = Some n.
Proof.
  intro Hn. unfold read_digits, SessionTimer.String_of_Z.
  destruct n as [| p | p]; [reflexivity | | lia].
  cbn [Z.to_int DecimalString.NilZero.string_of_int]. unfold DecimalString.NilZero.string_of_uint.
  pose proof (DecimalPos.Unsigned.to_uint_nonnil p) as Hnil.
  destruct (Pos.to_uint p) eqn:E; try contradiction;
    rewrite <- E, DecimalString.NilEmpty.usu; cbn [option_map]; unfold Z.of_uint;
    now rewrite DecimalPos.Unsigned.of_to.
Qed.

Lemma String_of_Z_nonempty n :
  (0 <= n)%Z -> SessionTimer.String_of_Z n <> EmptyString.
Proof.
  intros Hn. unfold SessionTimer.String_of_Z.
  destruct n as [| p | p]; [discriminate | | lia].
  cbn [Z.to_int DecimalString.NilZero.string_of_int]. unfold DecimalString.NilZero.string_of_uint.
  pose proof (DecimalPos.Unsigned.to_uint_nonnil p) as Hnil.
  destruct (Pos.to_uint p); try contradiction; discriminate.
Qed.

Lemma read_leading_zero s :
  read_digits ("0" ++ s) = read_digits s.
Proof.
  unfold read_digits. cbn [append DecimalString.NilEmpty.uint_of_string].
  now destruct (DecimalString.NilEmpty.uint_of_string s).
Qed.

Lemma read_padStart n :
  (0 <= n)%Z ->
  read_digits (SessionTimer.padStart 2 "0" (SessionTimer.String_of_Z n))
  = Some n.
Proof.
  intro Hn. pose proof (read_String_of_Z n Hn) as Hr.
  pose proof (String_of_Z_nonempty n Hn) as Hne.
  unfold SessionTimer.padStart.
  destruct (SessionTimer.String_of_Z n) as [| c [| c' s]];
    [contradiction | | exact Hr].
  change (read_digits ("0" ++ String c "") = Some n).
  now rewrite read_leading_zero.
Qed.

Lemma length_append (a b : string) :
  String.length (a ++ b) = (String.length a + String.length b)%nat.
Proof.
  induction a as [| c a IH]; [reflexivity |].
  cbn [append String.length]. now rewrite IH.
Qed.

Lemma append_inj_suffix (a1 a2 b1 b2 : string) :
  String.length b1 = String.length b2 ->
  (a1 ++ b1)%string = (a2 ++ b2)%string -> a1 = a2 /\ b1 = b2.
Proof.
  intros Hlen. revert a2.
  induction a1 as [| c a1 IH]; intros [| c2 a2] H; cbn [append] in H.
  - now split.
  - exfalso. apply (f_equal String.length) in H.
    cbn [String.length] in H. rewrite length_append in H. lia.
  - exfalso. apply (f_equal String.length) in H.
    cbn [String.length] in H. rewrite length_append in H. lia.
  - injection H as -> H. destruct (IH a2 H) as [-> ->]. now split.
Qed.

Lemma padStart_two_digits k :
  (0 <= k < 0 + 100)%Z ->
  String.length (SessionTimer.padStart 2 "0" (SessionTimer.String_of_Z k))
  = 2%nat.
Proof.
  intro Hk. apply Nat.eqb_eq.
  apply (Zrange_forallb
           (fun k => Nat.eqb
                       (String.length
                          (SessionTimer.padStart 2 "0"
                             (SessionTimer.String_of_Z k))) 2) 0 100);
    [vm_compute; reflexivity | exact Hk].
Qed.

Lemma formatTime_parts seconds :
  (0 <= seconds)%Z ->
  SessionTimer.formatTime seconds
  = (SessionTimer.padStart 2 "0" (SessionTimer.String_of_Z (seconds / 60))
     ++ ":"
     ++ SessionTimer.padStart 2 "0"
          (SessionTimer.String_of_Z (seconds mod 60)))%string.
Proof.
  intro Hs. unfold SessionTimer.formatTime; cbv zeta.
  now rewrite Z.rem_mod_nonneg by lia.
Qed.

(** For a non-negative number of seconds the clock text determines the
    number: distinct times are shown differently; and below 100 minutes the
    text has exactly five characters. *)
Theorem formatTime_injective (s1 s2 : Z) :
  (0 <= s1)%Z -> (0 <= s2)%Z ->
  (SessionTimer.formatTime s1 = SessionTimer.formatTime s2 -> s1 = s2)
  /\ ((s1 < 6000)%Z -> String.length (SessionTimer.formatTime s1) = 5%nat).
Proof.
  intros H1 H2.
  pose proof (Z.mod_pos_bound s1 60 ltac:(lia)) as Hm1.
  pose proof (Z.mod_pos_bound s2 60 ltac:(lia)) as Hm2.
  pose proof (Z.div_mod s1 60 ltac:(lia)) as Hd1.
  pose proof (Z.div_mod s2 60 ltac:(lia)) as Hd2.
  rewrite !formatTime_parts by assumption.
  split.
  - intro H. apply append_inj_suffix in H.
    + destruct H as [Hmin Hsec]. cbn [append] in Hsec.
      injection Hsec as Hsec.
      apply (f_equal read_digits) in Hmin, Hsec.
      rewrite !read_padStart in Hmin, Hsec
        by (try lia; apply Z.div_pos; lia).
      injection Hmin as Hmin. injection Hsec as Hsec. lia.
    + cbn [append String.length]. now rewrite !padStart_two_digits by lia.
  - intro Hlt. rewrite length_append. cbn [append String.length].
    rewrite !padStart_two_digits; [reflexivity | lia |].
    split; [apply Z.div_pos; lia | apply Z.div_lt_upper_bound; lia].
Qed.

Lemma formatTime_injective_witness :
  (0 <= 125)%Z /\ (0 <= 125)%Z
  /\ String.length (SessionTimer.formatTime 125) = 5%nat.
Proof.
  split; [lia | split; [lia |]].
  apply (formatTime_injective 125 125); lia.
Defined.

(** ** Ending early and resuming *)

Lemma endEarlyTicks (j : nat) (st : SessionTimer.State) :
  SessionTimer.showEndEarlyConfirm st = true ->
  (Z.of_nat j <= SessionTimer.endEarlyCountdown st)%Z ->
  Nat.iter j SessionTimer.endEarlyTick st
  = SessionTimer.setEndEarlyCountdown
      (SessionTimer.endEarlyCountdown st - Z.of_nat j) st.
Proof.
  intro Hc. induction j as [| j IH]; intro Hj.
  - cbn. rewrite Z.sub_0_r. now destruct st.
  - rewrite Nat.iter_succ, IH by lia.
    unfold SessionTimer.endEarlyTick.
    cbn [SessionTimer.setEndEarlyCountdown SessionTimer.showEndEarlyConfirm
         SessionTimer.endEarlyCountdown].
    rewrite Hc. cbn [andb].
    destruct (Z.ltb_spec 0 (SessionTimer.endEarlyCountdown st - Z.of_nat j));
      [| lia].
    destruct (Z.leb_spec (SessionTimer.endEarlyCountdown st - Z.of_nat j) 1);
      unfold SessionTimer.setEndEarlyCountdown; cbn; f_equal; lia.
Qed.

Lemma endEarlyTicks_keep (j : nat) (st : SessionTimer.State) :
  let s := Nat.iter j SessionTimer.endEarlyTick st in
  SessionTimer.timeRemaining s = SessionTimer.timeRemaining st
  /\ SessionTimer.isRunning s = SessionTimer.isRunning st
  /\ SessionTimer.actualStart s = SessionTimer.actualStart st
  /\ SessionTimer.showReflection s = SessionTimer.showReflection st
  /\ SessionTimer.showEndEarlyConfirm s = SessionTimer.showEndEarlyConfirm st.
Proof.
  cbv zeta. induction j as [| j IH]; [now repeat split |].
  rewrite Nat.iter_succ.
  destruct IH as (H1 & H2 & H3 & H4 & H5).
  rewrite <- H1, <- H2, <- H3, <- H4, <- H5.
  unfold SessionTimer.endEarlyTick.
  destruct (SessionTimer.showEndEarlyConfirm _ && _); [| now repeat split].
  destruct (_ <=? 1)%Z; now repeat split.
Qed.

(** While the end-early confirmation is open the session's countdown is
    suspended: ticks change nothing.  The confirmation's own countdown
    starts at 15 and loses one per tick, so ending is enabled after exactly
    15 ticks; going back resumes the session with the time left it had, and
    confirming opens the reflection with that same time left. *)
Theorem end_early_confirmation_suspends_countdown (st : SessionTimer.State) :
  let asked := SessionTimer.handleEndEarly st in
  (forall k : nat, Nat.iter k SessionTimer.tick asked = asked)
  /\ (forall j : nat, (j <= 15)%nat ->
        SessionTimer.endEarlyCountdown
          (Nat.iter j SessionTimer.endEarlyTick asked)
        = (15 - Z.of_nat j)%Z)
  /\ (forall j : nat,
        let back :=
          SessionTimer.cancelEndEarly
            (Nat.iter j SessionTimer.endEarlyTick asked) in
        SessionTimer.isRunning back = true
        /\ SessionTimer.showEndEarlyConfirm back = false
        /\ SessionTimer.timeRemaining back = SessionTimer.timeRemaining st
        /\ SessionTimer.actualStart back = SessionTimer.actualStart st)
  /\ (forall j : nat,
        let ended :=
          SessionTimer.confirmEndEarly
            (Nat.iter j SessionTimer.endEarlyTick asked) in
        SessionTimer.isRunning ended = false
        /\ SessionTimer.showReflection ended = true
        /\ SessionTimer.timeRemaining ended = SessionTimer.timeRemaining st
        /\ SessionTimer.actualStart ended = SessionTimer.actualStart st).
Proof.
  cbv zeta. split; [| split; [| split]].
  - intro k. induction k as [| k IH]; [reflexivity |].
    now rewrite Nat.iter_succ, IH.
  - intros j Hj. rewrite endEarlyTicks; [reflexivity | reflexivity |].
    cbn. lia.
  - intro j.
    destruct (endEarlyTicks_keep j (SessionTimer.handleEndEarly st))
      as (H1 & H2 & H3 & H4 & H5).
    unfold SessionTimer.cancelEndEarly. cbn.
    rewrite H1, H3. now repeat split.
  - intro j.
    destruct (endEarlyTicks_keep j (SessionTimer.handleEndEarly st))
      as (H1 & H2 & H3 & H4 & H5).
    unfold SessionTimer.confirmEndEarly. cbn.
    rewrite H1, H2, H3. now repeat split.
Qed.

(** ** The stored start *)

(** The first start writes the stored entry, and a mount without
    [startImmediately] that reads it back before the session's end
    restores the same start time and writes nothing; when [k] whole
    seconds have elapsed the restored state is the one the running timer
    has after [k] ticks.  A later start (a resume) neither changes the
    start time nor writes an entry.  A mount with [startImmediately]
    instead replaces the start time and the stored entry by the current
    time. *)
Theorem stored_start_round_trip
    (session : SessionTimer.Session) (now now' startNow : Z) (k : nat) :
  (1000 * Z.of_nat k <= now' - now < 1000 * Z.of_nat k + 1000)%Z ->
  (Z.of_nat k < SessionTimer.duration_minutes session * 60)%Z ->
  let started :=
    SessionTimer.handleStart session now (SessionTimer.initial session) in
  let restored :=
    fst (SessionTimer.mount false session (snd started) now' startNow) in
  SessionTimer.mount true session None now now = started
  /\ snd started
     = Some {| SessionTimer.sessionId := SessionTimer.id session;
               SessionTimer.startTime := now |}
  /\ SessionTimer.actualStart (fst started) = Some now
  /\ SessionTimer.mount false session (snd started) now' startNow
     = (Nat.iter k SessionTimer.tick (fst started), None)
  /\ (forall later : Z,
        SessionTimer.handleStart session later restored
        = (restored, None))
  /\ SessionTimer.mount true session (snd started) now' startNow
     = (SessionTimer.setActualStart (Some startNow) restored,
        Some {| SessionTimer.sessionId := SessionTimer.id session;
                SessionTimer.startTime := startNow |}).
Proof.
  intros Hk Hd; cbv zeta.
  assert (SessionTimer.handleStart session now (SessionTimer.initial session)
          = (SessionTimer.setIsRunning true
               (SessionTimer.setActualStart (Some now)
                  (SessionTimer.initial session)),
             Some {| SessionTimer.sessionId := SessionTimer.id session;
                     SessionTimer.startTime := now |})) as -> by reflexivity.
  cbn [fst snd].
  split; [reflexivity |]. split; [reflexivity |]. split; [reflexivity |].
  assert ((now' - now) / 1000 = Z.of_nat k)%Z as Hq.
  { symmetry. apply (Z.div_unique _ _ _ (now' - now - 1000 * Z.of_nat k));
      lia. }
  assert (SessionTimer.restore session
            (Some {| SessionTimer.sessionId := SessionTimer.id session;
                     SessionTimer.startTime := now |}) now'
            (SessionTimer.initial session)
          = SessionTimer.setTimeRemaining
              (SessionTimer.duration_minutes session * 60 - Z.of_nat k)
              (SessionTimer.setIsRunning true
                 (SessionTimer.setActualStart (Some now)
                    (SessionTimer.initial session)))) as Hr.
  { unfold SessionTimer.restore.
    cbn [SessionTimer.sessionId SessionTimer.startTime].
    rewrite String.eqb_refl, Hq.
    now destruct (Z.ltb_spec 0
                    (SessionTimer.duration_minutes session * 60
                     - Z.of_nat k)); [| lia]. }
  unfold SessionTimer.mount, SessionTimer.autoStart,
    SessionTimer.handleStartOf.
  cbn [SessionTimer.initial SessionTimer.isRunning SessionTimer.actualStart
       andb negb fst snd].
  rewrite Hr. cbn [fst]. split; [| split].
  - f_equal. rewrite ticks_running; [| reflexivity | cbn; lia].
    unfold SessionTimer.setTimeRemaining; cbn. reflexivity.
  - intro later. reflexivity.
  - reflexivity.
Qed.

Lemma stored_start_round_trip_witness :
  (1000 * Z.of_nat 60 <= 90999 - 30000 < 1000 * Z.of_nat 60 + 1000)%Z
  /\ (Z.of_nat 60 < SessionTimer.duration_minutes morning_session * 60)%Z
  /\ SessionTimer.actualStart
       (fst (SessionTimer.handleStart morning_session 30000
               (SessionTimer.initial morning_session))) = Some 30000%Z.
Proof.
  split; [cbn; lia | split; [cbn; lia |]].
  apply (stored_start_round_trip morning_session 30000 90999 91000 60);
    cbn; lia.
Defined.

(** * The dashboard and the session form *)

Lemma existsb_eqb_In (d : string) (l : list string) :
  existsb (String.eqb d) l = true <-> In d l.
Proof.
  rewrite existsb_exists. split.
  - intros (x & Hx & He). apply String.eqb_eq in He. now subst.
  - intro H. exists d. split; [exact H | apply String.eqb_refl].
Qed.

(** Clicking a day toggles it and nothing else: afterwards the day is
    selected exactly when it was not before, every other day keeps its
    state, a selection without repetitions stays so, and a second click
    restores the set of selected days. *)
Theorem handleDayClick_toggles (dayValue : string) (prev : list string) :
  let next := Dashboard.handleDayClick dayValue prev in
  (In dayValue next <-> ~ In dayValue prev)
  /\ (forall d, d <> dayValue -> (In d next <-> In d prev))
  /\ (NoDup prev -> NoDup next)
  /\ (forall d,
        In d (Dashboard.handleDayClick dayValue next) <-> In d prev).
Proof.
  cbv zeta.
  assert (forall l,
            let next := Dashboard.handleDayClick dayValue l in
            (In dayValue next <-> ~ In dayValue l)
            /\ (forall d, d <> dayValue -> (In d next <-> In d l))) as Hmem.
  { intro l; cbv zeta. unfold Dashboard.handleDayClick.
    destruct (existsb (String.eqb dayValue) l) eqn:E.
    - apply existsb_eqb_In in E. split.
      + rewrite filter_In, String.eqb_refl. cbn. split; [intros [_ H] | ];
          [discriminate | contradiction].
      + intros d Hd. rewrite filter_In.
        apply String.eqb_neq in Hd. rewrite Hd. cbn. tauto.
    - assert (~ In dayValue l) as Hn
          by (intro H; apply existsb_eqb_In in H; congruence).
      split.
      + rewrite in_app_iff. cbn. tauto.
      + intros d Hd. rewrite in_app_iff. cbn. split; [| tauto].
        intros [H | [H | []]]; [exact H | congruence]. }
  destruct (Hmem prev) as [H1 H2]; cbv zeta in H1, H2.
  split; [exact H1 |]. split; [exact H2 |]. split.
  - intro Hnd. unfold Dashboard.handleDayClick.
    destruct (existsb (String.eqb dayValue) prev) eqn:E.
    + now apply NoDup_filter.
    + apply NoDup_app; [exact Hnd | repeat constructor; intros [] |].
      intros x Hx [<- | []].
      apply existsb_eqb_In in Hx. congruence.
  - intro d.
    destruct (Hmem (Dashboard.handleDayClick dayValue prev)) as [H3 H4];
      cbv zeta in H3, H4.
    destruct (string_dec d dayValue) as [-> | Hne].
    + rewrite H3, H1.
      destruct (in_dec string_dec dayValue prev); tauto.
    + now rewrite (H4 d Hne), (H2 d Hne).
Qed.

(** The text shown for a session [diff] milliseconds ahead: "Ready now" up
    to 0, "soon" below one minute, whole minutes below one hour, hours and
    minutes (below 60) below one day, and whole days from 24 hours on. *)
Theorem formatTimeUntil_cases (diff : Z) :
  ((diff <= 0)%Z -> Dashboard.formatTimeUntil diff = "Ready now"%string)
  /\ ((0 < diff < 60000)%Z -> Dashboard.formatTimeUntil diff = "soon"%string)
  /\ ((60000 <= diff < 3600000)%Z ->
      Dashboard.formatTimeUntil diff
      = ("in " ++ SessionTimer.String_of_Z (diff / 60000) ++ "m")%string)
  /\ ((3600000 <= diff < 86400000)%Z ->
      Dashboard.formatTimeUntil diff
      = ("in " ++ SessionTimer.String_of_Z (diff / 3600000) ++ "h "
         ++ SessionTimer.String_of_Z ((diff / 60000) mod 60) ++ "m")%string
      /\ (1 <= diff / 3600000 < 24)%Z)
  /\ ((86400000 <= diff)%Z ->
      Dashboard.formatTimeUntil diff
      = ("in " ++ SessionTimer.String_of_Z (diff / 86400000) ++ "d")%string
      /\ (1 <= diff / 86400000)%Z).
Proof.
  unfold Dashboard.formatTimeUntil; cbv zeta.
  assert (diff / 60000 / 60 = diff / 3600000)%Z as Hh
      by (rewrite Z.div_div by lia; reflexivity).
  assert (diff / 60000 / 60 / 24 = diff / 86400000)%Z as Hd
      by (rewrite !Z.div_div by lia; reflexivity).
  pose proof (Z.div_mod diff 60000 ltac:(lia)) as H1.
  pose proof (Z.mod_pos_bound diff 60000 ltac:(lia)) as H2.
  pose proof (Z.div_mod diff 3600000 ltac:(lia)) as H3.
  pose proof (Z.mod_pos_bound diff 3600000 ltac:(lia)) as H4.
  pose proof (Z.div_mod diff 86400000 ltac:(lia)) as H5.
  pose proof (Z.mod_pos_bound diff 86400000 ltac:(lia)) as H6.
  rewrite Hd, Hh.
  split; [| split; [| split; [| split]]]; intro H.
  - now destruct (Z.leb_spec diff 0); [| lia].
  - destruct (Z.leb_spec diff 0); [lia |].
    destruct (Z.leb_spec 24 (diff / 3600000)); [lia |].
    destruct (Z.ltb_spec 0 (diff / 3600000)); [lia |].
    now destruct (Z.ltb_spec (diff / 60000) 1); [| lia].
  - destruct (Z.leb_spec diff 0); [lia |].
    destruct (Z.leb_spec 24 (diff / 3600000)); [lia |].
    destruct (Z.ltb_spec 0 (diff / 3600000)); [lia |].
    now destruct (Z.ltb_spec (diff / 60000) 1); [lia |].
  - split; [| lia].
    destruct (Z.leb_spec diff 0); [lia |].
    destruct (Z.leb_spec 24 (diff / 3600000)); [lia |].
    destruct (Z.ltb_spec 0 (diff / 3600000)); [| lia].
    rewrite Z.rem_mod_nonneg by lia. reflexivity.
  - split; [| lia].
    destruct (Z.leb_spec diff 0); [lia |].
    now destruct (Z.leb_spec 24 (diff / 3600000)); [| lia].
Qed.

(** ** The running average *)

Section Averages.

Local Open Scope R_scope.

(** Whole numbers below 2^53 are doubles. *)
Lemma canon_of_int p :
  (Z.pos p < 2 ^ 53)%Z ->
  exists P E, canon P E /\ F2R (Z.pos P) E = IZR (Z.pos p)
              /\ (-52 <= E <= 0)%Z /\ digits P = 53%Z.
Proof.
  intro Hp.
  pose proof (digits_bounds p) as [Hl Hu]. pose proof (digits_pos p) as Hd1.
  assert (digits p <= 53)%Z as Hd.
  { destruct (Z_le_gt_dec (digits p) 53) as [H | H]; [exact H |].
    assert (2 ^ 53 <= 2 ^ (digits p - 1))%Z by (apply Z.pow_le_mono_r; lia).
    lia. }
  set (k := (53 - digits p)%Z).
  assert (0 < Z.pos p * 2 ^ k)%Z as Hpos
      by (apply Z.mul_pos_pos; [lia | apply Z.pow_pos_nonneg; unfold k; lia]).
  exists (Z.to_pos (Z.pos p * 2 ^ k)), (- k)%Z.
  assert (digits (Z.to_pos (Z.pos p * 2 ^ k)) = 53%Z) as Hdig.
  { rewrite digits_log2, Z2Pos.id by exact Hpos.
    rewrite Z.log2_mul_pow2 by (unfold k; lia).
    pose proof (digits_log2 p). unfold k. lia. }
  repeat split.
  - unfold canon. rewrite Hdig, fexp_spec. unfold k. lia.
  - rewrite Z2Pos.id by exact Hpos. apply F2R_scaled. unfold k; lia.
  - unfold k; lia.
  - unfold k; lia.
  - exact Hdig.
Qed.

Lemma Z2F_exact p :
  (Z.pos p < 2 ^ 53)%Z ->
  exists q e, Prim2SF (JS.Z2F (Z.pos p)) = S754_finite false q e
              /\ F2R (Z.pos q) e = IZR (Z.pos p).
Proof.
  intro Hp.
  destruct (canon_of_int p Hp) as (P & E & HP & Hv & HE & _).
  rewrite Prim2SF_Z2F. cbn [binary_normalize].
  destruct (binary_round_lower P E false p 0 HP) as [_ Hlo];
    [rewrite Hv, F2R_int; lra |].
  destruct (binary_round_upper P E false p 0 HP) as [Hz | Hup];
    [change (emax - prec)%Z with 971%Z; lia | rewrite Hv, F2R_int; lra | |].
  - rewrite Hz in Hlo. destruct Hlo as [H | (q & e & H & _)]; discriminate.
  - destruct Hup as (q & e & Hq & Hle). rewrite Hq in Hlo.
    destruct Hlo as [H | (q' & e' & H & Hge)]; [discriminate |].
    injection H as <- <-. exists q, e. rewrite Hq. split; [reflexivity |].
    rewrite <- Hv. lra.
Qed.

(** A positive double of at least 2^-1022 is normal. *)
Lemma normal_digits q e :
  canon q e -> bpow (-1022) <= F2R (Z.pos q) e -> digits q = 53%Z.
Proof.
  intros Hc Hle.
  pose proof (F2R_bounds q e) as [_ Hu].
  assert (bpow (-1022) < bpow (digits q + e)) as Hlt by lra.
  apply bpow_lt_inv in Hlt.
  unfold canon in Hc. rewrite fexp_spec in Hc. lia.
Qed.

Lemma F2R_mul p1 e1 p2 e2 :
  F2R (Z.pos (p1 * p2)) (e1 + e2) = F2R (Z.pos p1) e1 * F2R (Z.pos p2) e2.
Proof.
  unfold F2R. rewrite Pos2Z.inj_mul, mult_IZR, bpow_add. ring.
Qed.

(** The product of two positive doubles, the second one normal, between
    two doubles. *)
Lemma mul_between x y mx ex my ey PL EL PU EU :
  Prim2SF x = S754_finite false mx ex ->
  Prim2SF y = S754_finite false my ey -> digits my = 53%Z ->
  canon PL EL -> canon PU EU -> (EU <= emax - prec)%Z ->
  F2R (Z.pos PL) EL <= F2R (Z.pos mx) ex * F2R (Z.pos my) ey ->
  F2R (Z.pos mx) ex * F2R (Z.pos my) ey <= F2R (Z.pos PU) EU ->
  exists q e, Prim2SF (x * y)%float = S754_finite false q e
              /\ F2R (Z.pos PL) EL <= F2R (Z.pos q) e <= F2R (Z.pos PU) EU.
Proof.
  intros Hx Hy Hdy HL HU HEU Hlo Hup.
  rewrite mul_spec, Hx, Hy. unfold SF64mul. cbn [SFmul xorb].
  assert (ex + ey <= fexp (digits (mx * my) + (ex + ey)))%Z as Hpre.
  { assert (Z.pos my <= Z.pos (mx * my))%Z as Hm
        by (rewrite Pos2Z.inj_mul; nia).
    pose proof (digits_le my (mx * my) Hm) as Hd.
    rewrite fexp_spec. lia. }
  rewrite <- F2R_mul in Hlo, Hup.
  destruct (binary_round_aux_lower PL EL false (mx * my) (ex + ey) loc_Exact
              HL Hlo Hpre) as [_ Hl].
  destruct (binary_round_aux_upper PU EU false (mx * my) (ex + ey) loc_Exact
              (F2R (Z.pos (mx * my)) (ex + ey)) HU HEU) as [Hz | Hu];
    try assumption; try lra.
  - intro H; now contradiction H.
  - rewrite Hz in Hl. destruct Hl as [H | (q & e & H & _)]; discriminate.
  - destruct Hu as (q & e & Hq & Hle). rewrite Hq in Hl.
    destruct Hl as [H | (q' & e' & H & Hge)]; [discriminate |].
    injection H as <- <-. exists q, e. rewrite Hq. now repeat split.
Qed.

(** The sum of two positive doubles between two doubles. *)
Lemma add_between x y mx ex my ey PL EL PU EU :
  Prim2SF x = S754_finite false mx ex ->
  Prim2SF y = S754_finite false my ey ->
  canon PL EL -> canon PU EU -> (EU <= emax - prec)%Z ->
  F2R (Z.pos PL) EL <= F2R (Z.pos mx) ex + F2R (Z.pos my) ey ->
  F2R (Z.pos mx) ex + F2R (Z.pos my) ey <= F2R (Z.pos PU) EU ->
  exists q e, Prim2SF (x + y)%float = S754_finite false q e
              /\ F2R (Z.pos PL) EL <= F2R (Z.pos q) e <= F2R (Z.pos PU) EU.
Proof.
  intros Hx Hy HL HU HEU Hlo Hup.
  rewrite add_spec, Hx, Hy. unfold SF64add. cbn [SFadd cond_Zopp].
  rewrite <- Pos2Z.inj_add. cbn [binary_normalize].
  set (ez := Z.min ex ey).
  set (m := (fst (shl_align mx ex ez) + fst (shl_align my ey ez))%positive).
  assert (F2R (Z.pos m) ez = F2R (Z.pos mx) ex + F2R (Z.pos my) ey) as Hv.
  { unfold m, F2R. rewrite Pos2Z.inj_add, plus_IZR, Rmult_plus_distr_r.
    fold (F2R (Z.pos (fst (shl_align mx ex ez))) ez).
    fold (F2R (Z.pos (fst (shl_align my ey ez))) ez).
    rewrite !shl_align_value by (unfold ez; lia). reflexivity. }
  rewrite <- Hv in Hlo, Hup.
  destruct (binary_round_lower PL EL false m ez HL Hlo) as [_ Hl].
  destruct (binary_round_upper PU EU false m ez HU HEU Hup) as [Hz | Hu].
  - rewrite Hz in Hl. destruct Hl as [H | (q & e & H & _)]; discriminate.
  - destruct Hu as (q & e & Hq & Hle). rewrite Hq in Hl.
    destruct Hl as [H | (q' & e' & H & Hge)]; [discriminate |].
    injection H as <- <-. exists q, e. rewrite Hq. now repeat split.
Qed.

(** The quotient of two positive normal doubles, far from underflow, is at
    most any double that bounds the exact quotient. *)
Lemma div_upper x y mx ex my ey P E :
  Prim2SF x = S754_finite false mx ex ->
  Prim2SF y = S754_finite false my ey ->
  digits mx = 53%Z -> digits my = 53%Z -> (-1021 <= ex - ey)%Z ->
  canon P E -> (E <= emax - prec)%Z ->
  F2R (Z.pos mx) ex <= F2R (Z.pos P) E * F2R (Z.pos my) ey ->
  Prim2SF (x / y)%float = S754_zero false
  \/ exists q e, Prim2SF (x / y)%float = S754_finite false q e
                 /\ F2R (Z.pos q) e <= F2R (Z.pos P) E.
Proof.
  intros Hx Hy Hdx Hdy Hexp HP HE Hle.
  rewrite div_spec, Hx, Hy. unfold SF64div. cbn [SFdiv xorb].
  rewrite SFdiv_core_spec. rewrite Hdx, Hdy.
  assert (Z.min (fexp (53 + ex - (53 + ey))) (ex - ey) = ex - ey - 53)%Z
    as -> by (rewrite fexp_spec; lia).
  replace (ex - ey - (ex - ey - 53))%Z with 53%Z by lia.
  set (e' := (ex - ey - 53)%Z).
  set (m' := (Z.pos mx * 2 ^ 53)%Z).
  pose proof (digits_bounds mx) as [Hxl Hxu]. rewrite Hdx in Hxl, Hxu.
  pose proof (digits_bounds my) as [Hyl Hyu]. rewrite Hdy in Hyl, Hyu.
  change (2 ^ (53 - 1))%Z with 4503599627370496%Z in Hxl, Hyl.
  change (2 ^ 53)%Z with 9007199254740992%Z in Hxu, Hyu.
  assert (4503599627370496 <= m' / Z.pos my)%Z as Hq.
  { apply Z.div_le_lower_bound; [lia |]. unfold m'.
    change (2 ^ 53)%Z with 9007199254740992%Z. nia. }
  pose proof (Z.div_mod m' (Z.pos my) ltac:(lia)) as Hdm.
  pose proof (Z.mod_pos_bound m' (Z.pos my) ltac:(lia)) as Hmod.
  destruct (m' / Z.pos my)%Z as [| q | q] eqn:Eq; try lia.
  assert (0 < IZR (Z.pos my)) as Hmy by (apply IZR_lt; lia).
  assert (0 < IZR (Z.pos mx)) as Hmx by (apply IZR_lt; lia).
  set (v := IZR m' / IZR (Z.pos my) * bpow e').
  assert (IZR (Z.pos q) * IZR (Z.pos my) + IZR (m' mod Z.pos my) = IZR m')
    as HR by (rewrite <- mult_IZR, <- plus_IZR; f_equal; lia).
  assert (0 <= IZR (m' mod Z.pos my)) as Hr0 by (apply IZR_le; lia).
  pose proof (bpow_pos e') as Hbp.
  assert (IZR m' / IZR (Z.pos my)
          = IZR (Z.pos q) + IZR (m' mod Z.pos my) / IZR (Z.pos my)) as Hquot
    by (rewrite <- HR; field; lra).
  assert (0 <= IZR (m' mod Z.pos my) / IZR (Z.pos my)) as Hfrac
    by (apply Rmult_le_pos; [lra | left; now apply Rinv_0_lt_compat]).
  destruct (binary_round_aux_upper P E false q e'
              (new_location (Z.pos my) (m' mod Z.pos my)) v HP HE)
    as [Hz | Hfin].
  - unfold v, F2R. rewrite Hquot. nra.
  - intro Hne. apply new_location_inexact in Hne.
    assert (0 < IZR (m' mod Z.pos my)) as Hr1 by (apply IZR_lt; lia).
    assert (0 < IZR (m' mod Z.pos my) / IZR (Z.pos my))
      by (apply Rmult_lt_0_compat; [lra | now apply Rinv_0_lt_compat]).
    unfold v, F2R. rewrite Hquot. nra.
  - (* the exact quotient *)
    unfold v, m', e'. rewrite mult_IZR, <- (bpow_IZR 53) by lia.
    replace (ex - ey - 53)%Z with (-53 + (ex + - ey))%Z by lia.
    rewrite !bpow_add.
    assert (bpow 53 * bpow (-53) = 1) as H53
        by (rewrite <- bpow_add; reflexivity).
    assert (bpow ey * bpow (- ey) = 1) as H1.
    { rewrite <- bpow_add. replace (ey + - ey)%Z with 0%Z by lia.
      reflexivity. }
    pose proof (bpow_pos ey). pose proof (bpow_pos (- ey)).
    pose proof (bpow_pos ex).
    unfold F2R in Hle.
    set (B := IZR (Z.pos P) * bpow E) in *.
    set (t := bpow (- ey) / IZR (Z.pos my)).
    assert (0 < t) as Ht0
        by (unfold t; apply Rmult_lt_0_compat;
            [lra | now apply Rinv_0_lt_compat]).
    assert (IZR (Z.pos my) * bpow ey * t = 1) as Ht.
    { unfold t. replace (IZR (Z.pos my) * bpow ey
                         * (bpow (- ey) / IZR (Z.pos my)))
        with (bpow ey * bpow (- ey)) by (field; lra).
      exact H1. }
    assert (IZR (Z.pos mx) * bpow 53 / IZR (Z.pos my)
              * (bpow (-53) * (bpow ex * bpow (- ey)))
            = bpow 53 * bpow (-53) * (IZR (Z.pos mx) * bpow ex * t))
      as -> by (unfold t; field; lra).
    rewrite H53, Rmult_1_l.
    assert (IZR (Z.pos mx) * bpow ex * t
            <= B * (IZR (Z.pos my) * bpow ey) * t) as Hm
        by (apply Rmult_le_compat_r; lra).
    replace (B * (IZR (Z.pos my) * bpow ey) * t)
      with (B * (IZR (Z.pos my) * bpow ey * t)) in Hm by ring.
    rewrite Ht, Rmult_1_r in Hm. exact Hm.
  - pose proof (digits_le m_one q ltac:(unfold m_one; lia)) as Hd.
    change (digits m_one) with 53%Z in Hd.
    rewrite fexp_spec. lia.
  - now left.
  - now right.
Qed.

Lemma Prim2SF_0_01 :
  Prim2SF 0.01 = S754_finite false m_0_01 (-59).
Proof. vm_compute; reflexivity. Qed.

Lemma F2R_0_01_small : bpow (-7) <= F2R (Z.pos m_0_01) (-59).
Proof.
  pose proof (F2R_bounds m_0_01 (-59)) as [H _].
  exact H.
Qed.

Lemma F2R_0_01_le_1 : F2R (Z.pos m_0_01) (-59) <= 1.
Proof.
  pose proof (F2R_bounds m_0_01 (-59)) as [_ H].
  change (digits m_0_01 + -59)%Z with (-6)%Z in H.
  assert (bpow (-6) <= bpow 0) by (apply bpow_le; lia).
  change (bpow 0) with 1 in *. lra.
Qed.

(** A stored average is a zero, or a positive double from 0.01 to 100. *)
Lemma stored_average_class x :
  stored_average x = true ->
  (exists s, Prim2SF x = S754_zero s)
  \/ exists q e, Prim2SF x = S754_finite false q e
                 /\ F2R (Z.pos m_0_01) (-59) <= F2R (Z.pos q) e <= 100.
Proof.
  unfold stored_average. intro H.
  apply andb_true_iff in H. destruct H as [H Hu].
  rewrite FloatAxioms.leb_spec, Prim2SF_100 in Hu.
  apply orb_true_iff in H. destruct H as [H | H].
  - left. rewrite FloatAxioms.eqb_spec, Prim2SF_0 in H.
    destruct (Prim2SF x) as [s | [] | | [] q e]; try discriminate H.
    now exists s.
  - right. rewrite FloatAxioms.leb_spec, Prim2SF_0_01 in H.
    destruct (Prim2SF x) as [s | [] | | [] q e] eqn:Ex;
      try discriminate H; try discriminate Hu.
    + pose proof (Prim2SF_canon _ _ _ _ Ex) as Hc.
      pose proof (SFcompare_canon m_0_01 (-59) q e
                    ltac:(reflexivity) Hc) as H1.
      pose proof (SFcompare_canon q e m_100 (-46) Hc ltac:(reflexivity))
        as H2.
      rewrite F2R_100 in H2.
      exists q, e. split; [reflexivity |].
      unfold SFleb in H, Hu.
      destruct (SFcompare (S754_finite false m_0_01 (-59))
                  (S754_finite false q e)) as [[| |] |]; try discriminate;
        destruct (SFcompare (S754_finite false q e)
                    (S754_finite false m_100 (-46))) as [[| |] |];
        try discriminate;
        try (destruct H1 as [<- <-]); try (destruct H2 as [-> ->]);
        rewrite ?F2R_100 in *; lra.
Qed.

Lemma within_0_100 x :
  Prim2SF x = S754_zero false
  \/ (exists q e, Prim2SF x = S754_finite false q e
                  /\ F2R (Z.pos q) e <= F2R (Z.pos m_100) (-46)) ->
  (0 <=? x)%float = true /\ (x <=? 100)%float = true.
Proof.
  rewrite !FloatAxioms.leb_spec, Prim2SF_0, Prim2SF_100.
  intros [-> | (q & e & Hx & Hle)]; [split; reflexivity |].
  rewrite Hx. split; [reflexivity |].
  pose proof (SFcompare_canon q e m_100 (-46) (Prim2SF_canon _ _ _ _ Hx)
                ltac:(reflexivity)) as Hcmp.
  unfold SFleb.
  destruct (SFcompare (S754_finite false q e) (S754_finite false m_100 (-46)))
    as [[| |] |]; try reflexivity; [lra | contradiction].
Qed.

(** The new average of a stored average over [n] sessions and a whole
    score [k]. *)
Lemma running_average_range avg n k :
  stored_average avg = true -> (0 <= n < 2 ^ 31)%Z -> (0 <= k <= 100)%Z ->
  let a := ((avg * JS.Z2F n + JS.Z2F k) / JS.Z2F (n + 1))%float in
  (0 <=? a)%float = true /\ (a <=? 100)%float = true.
Proof.
  intros Havg Hn Hk; cbv zeta.
  assert (2 ^ 31 = 2147483648)%Z as H31 by reflexivity.
  assert (2 ^ 53 = 9007199254740992)%Z as H53 by reflexivity.
  assert (canon m_0_01 (-59)) as HPL by reflexivity.
  (* the divisor *)
  destruct (n + 1)%Z as [| p1 | p1] eqn:En1; try lia.
  destruct (Z2F_exact p1 ltac:(lia)) as (m1 & e1 & HN1 & Hv1).
  pose proof (Prim2SF_canon _ _ _ _ HN1) as Hc1.
  assert (1 <= IZR (Z.pos p1)) as Hp1 by (apply IZR_le; lia).
  assert (IZR (Z.pos p1) = IZR n + 1) as Hp1n
      by (rewrite <- En1, plus_IZR; reflexivity).
  assert (digits m1 = 53%Z) as Hd1.
  { apply (normal_digits m1 e1 Hc1).
    assert (bpow (-1022) <= bpow 0) by (apply bpow_le; lia).
    change (bpow 0) with 1 in *. lra. }
  assert (e1 <= -21)%Z as He1.
  { pose proof (F2R_bounds m1 e1) as [Hlo _]. rewrite Hd1, Hv1 in Hlo.
    assert (IZR (Z.pos p1) <= bpow 31)
      by (rewrite bpow_IZR by lia; apply IZR_le; lia).
    assert (bpow (53 - 1 + e1) < bpow 32).
    { assert (bpow 31 < bpow 32) by (apply bpow_lt; lia). lra. }
    apply bpow_lt_inv in H0. lia. }
  (* the bound 100 (n + 1) *)
  destruct (canon_of_int (100 * p1)%positive ltac:(lia))
    as (PU & EU & HPU & HvU & HEU & _).
  rewrite Pos2Z.inj_mul, mult_IZR in HvU.
  (* the product *)
  assert ((exists s, Prim2SF (avg * JS.Z2F n)%float = S754_zero s)
          \/ exists q e, Prim2SF (avg * JS.Z2F n)%float = S754_finite false q e
                         /\ F2R (Z.pos m_0_01) (-59) <= F2R (Z.pos q) e
                            <= 100 * IZR n) as Hprod.
  { destruct n as [| pn | pn]; try lia.
    - left. rewrite mul_spec.
      change (Prim2SF (JS.Z2F 0)) with (S754_zero false). unfold SF64mul.
      destruct (stored_average_class avg Havg)
        as [(s & ->) | (q & e & -> & _)]; cbn [SFmul]; eauto.
    - destruct (Z2F_exact pn ltac:(lia)) as (mn & en & HN & Hvn).
      pose proof (Prim2SF_canon _ _ _ _ HN) as Hcn.
      assert (1 <= IZR (Z.pos pn)) as Hpn by (apply IZR_le; lia).
      assert (digits mn = 53%Z) as Hdn.
      { apply (normal_digits mn en Hcn).
        assert (bpow (-1022) <= bpow 0) by (apply bpow_le; lia).
        change (bpow 0) with 1 in *. lra. }
      destruct (stored_average_class avg Havg)
        as [(s & Hz) | (q & e & Hq & Hlo & Hhi)].
      + left. rewrite mul_spec, Hz, HN. unfold SF64mul. cbn [SFmul]. eauto.
      + right.
        destruct (canon_of_int (100 * pn)%positive ltac:(lia))
          as (PN & EN & HPN & HvN & HEN & _).
        rewrite Pos2Z.inj_mul, mult_IZR in HvN.
        destruct (mul_between avg (JS.Z2F (Z.pos pn)) q e mn en m_0_01 (-59)
                    PN EN Hq HN Hdn HPL HPN)
          as (q' & e' & Hq' & Hb).
        * change (emax - prec)%Z with 971%Z. lia.
        * rewrite Hvn. pose proof F2R_0_01_small.
          pose proof (bpow_pos (-7)). nra.
        * rewrite Hvn, HvN. nra.
        * exists q', e'. split; [exact Hq' |]. rewrite HvN in Hb. exact Hb. }
  (* the sum *)
  set (prod := (avg * JS.Z2F n)%float) in *.
  assert (Prim2SF (prod + JS.Z2F k)%float = S754_zero false
          \/ exists q e, Prim2SF (prod + JS.Z2F k)%float
                         = S754_finite false q e
                         /\ F2R (Z.pos m_0_01) (-59) <= F2R (Z.pos q) e
                            <= F2R (Z.pos PU) EU) as Hsum.
  { pose proof F2R_0_01_le_1 as H001.
    assert (0 <= IZR n) as Hn0 by (apply IZR_le; lia).
    rewrite add_spec. unfold SF64add.
    destruct k as [| pk | pk]; try lia.
    - change (Prim2SF (JS.Z2F 0)) with (S754_zero false).
      destruct Hprod as [(s & ->) | (q & e & -> & Hlo & Hhi)]; cbn [SFadd].
      + left. now destruct s.
      + right. exists q, e. split; [reflexivity |]. rewrite HvU. lra.
    - destruct (Z2F_exact pk ltac:(lia)) as (mk & ek & HK & Hvk).
      assert (1 <= IZR (Z.pos pk) <= 100) as Hpk
          by (split; apply IZR_le; lia).
      destruct Hprod as [(s & Hz) | (q & e & Hq & Hlo & Hhi)].
      + right. rewrite Hz, HK. cbn [SFadd]. exists mk, ek.
        split; [reflexivity |]. rewrite Hvk, HvU. lra.
      + rewrite <- add_spec. right.
        apply (add_between prod (JS.Z2F (Z.pos pk)) q e mk ek m_0_01 (-59) PU EU
                 Hq HK HPL HPU).
        * change (emax - prec)%Z with 971%Z. lia.
        * rewrite Hvk. lra.
        * rewrite Hvk, HvU. lra. }
  (* the quotient *)
  apply within_0_100.
  set (sum := (prod + JS.Z2F k)%float) in *.
  destruct Hsum as [Hz | (q & e & Hq & Hlo & Hhi)].
  - left. rewrite div_spec, Hz, HN1. reflexivity.
  - pose proof (Prim2SF_canon _ _ _ _ Hq) as Hcq.
    pose proof F2R_0_01_small as H7.
    assert (digits q = 53%Z) as Hdq.
    { apply (normal_digits q e Hcq).
      assert (bpow (-1022) <= bpow (-7)) by (apply bpow_le; lia). lra. }
    assert (-59 <= e)%Z as He.
    { pose proof (F2R_bounds q e) as [_ Hu]. rewrite Hdq in Hu.
      assert (bpow (-7) < bpow (53 + e)) as Hlt by lra.
      apply bpow_lt_inv in Hlt. lia. }
    apply (div_upper sum (JS.Z2F (Z.pos p1)) q e m1 e1 m_100 (-46) Hq HN1
             Hdq Hd1); [lia | reflexivity | vm_compute; discriminate |].
    rewrite F2R_100, Hv1. lra.
Qed.

End Averages.

Lemma whole_score_within n :
  (0 <= n <= 100)%Z ->
  (0 <=? JS.Z2F n)%float = true /\ (JS.Z2F n <=? 100)%float = true.
Proof.
  intro Hn. apply andb_true_iff.
  apply (Zrange_forallb
           (fun n => (0 <=? JS.Z2F n)%float && (JS.Z2F n <=? 100)%float)
           0 101); [vm_compute; reflexivity | lia].
Qed.

(** Under the conditions of the log's ranges, and when the existing row
    holds a session count below 2^31 and an average that is zero or from
    0.01 to 100: the average [submitReflection] writes is again a number
    from 0 to 100; the first row's average is the session's score. *)
Theorem submitReflection_average_within_range
    (exp_impl : float -> float) (getHours endOfDay : Z -> Z)
    (session : SessionTimer.Session) (user : string)
    (existingStats : option SessionTimer.UserStats) (now : Z)
    (today : string) (st : SessionTimer.State) (a : Z) :
  SessionTimer.actualStart st = Some a ->
  (0 < SessionTimer.duration_minutes session < 2 ^ 31)%Z ->
  (0 <= SessionTimer.timeRemaining st
   <= SessionTimer.duration_minutes session * 60)%Z ->
  (0 <=? JS.Math_exp exp_impl
           (-0.07 * (JS.Z2F (SessionTimer.completedMinutes session st) - 45)))%float
  = true ->
  (forall old, existingStats = Some old ->
     (0 <= SessionTimer.total_sessions old < 2 ^ 31)%Z
     /\ stored_average (SessionTimer.average_score old) = true) ->
  exists log stats,
    SessionTimer.submitReflection exp_impl getHours endOfDay session
      (Some user) existingStats now today st = Some (log, stats)
    /\ (0 <=? SessionTimer.average_score stats)%float = true
    /\ (SessionTimer.average_score stats <=? 100)%float = true
    /\ (existingStats = None ->
        SessionTimer.average_score stats
        = SessionTimer.productivity_score log).
Proof.
  intros Ha Hd Ht He Hold.
  unfold SessionTimer.submitReflection. rewrite Ha.
  eexists; eexists. split; [reflexivity |].
  cbn [SessionTimer.productivity_score].
  destruct (finalScore_whole exp_impl getHours endOfDay session st Hd Ht a He)
    as (k & Hk & Hfinal).
  rewrite Hfinal.
  destruct existingStats as [old |]; cbn [SessionTimer.newStats
    SessionTimer.average_score].
  - destruct (Hold old eq_refl) as [Hn Havg].
    destruct (running_average_range _ _ _ Havg Hn Hk) as [H0 H100].
    repeat split; try assumption. discriminate.
  - destruct (whole_score_within k Hk) as [H0 H100].
    now repeat split.
Qed.

Lemma submitReflection_average_within_range_witness :
  exists log stats,
    SessionTimer.submitReflection Fdlibm.exp utc_getHours utc_endOfDay
      morning_session (Some "u"%string) (Some three_sessions) 2730000
      "1970-01-01"%string morning_session_done = Some (log, stats)
    /\ (SessionTimer.average_score stats <=? 100)%float = true.
Proof.
  destruct (submitReflection_average_within_range Fdlibm.exp utc_getHours
              utc_endOfDay morning_session "u"%string (Some three_sessions)
              2730000 "1970-01-01"%string morning_session_done 30000 eq_refl
              ltac:(split; reflexivity)
              ltac:(split; vm_compute; discriminate)
              ltac:(vm_compute; reflexivity))
    as (log & stats & H & _ & Hp & _).
  - intros old Hold. injection Hold as <-.
    split; [split; vm_compute; [discriminate | reflexivity] |].
    vm_compute; reflexivity.
  - exists log, stats. now split.
Defined.

(** ** The dashboard's averages *)

Section LogAverages.

Local Open Scope R_scope.

Lemma canon_unique p1 e1 p2 e2 :
  canon p1 e1 -> canon p2 e2 ->
  F2R (Z.pos p1) e1 = F2R (Z.pos p2) e2 -> p1 = p2 /\ e1 = e2.
Proof.
  intros H1 H2 Hv.
  pose proof (SFcompare_canon p1 e1 p2 e2 H1 H2) as Hcmp.
  destruct (SFcompare (S754_finite false p1 e1) (S754_finite false p2 e2))
    as [[| |] |]; [exact Hcmp | lra | lra | contradiction].
Qed.

(** Adding whole numbers is exact below 2^53. *)
Lemma add_whole a b :
  (0 <= a)%Z -> (0 <= b)%Z -> (a + b < 2 ^ 53)%Z ->
  (JS.Z2F a + JS.Z2F b)%float = JS.Z2F (a + b).
Proof.
  intros Ha Hb Hab. apply Prim2SF_inj. rewrite add_spec. unfold SF64add.
  destruct a as [| pa | pa]; try lia.
  - change (Prim2SF (JS.Z2F 0)) with (S754_zero false). rewrite Z.add_0_l.
    destruct b as [| pb | pb]; try lia; [reflexivity |].
    destruct (Z2F_exact pb ltac:(lia)) as (q & e & -> & _). reflexivity.
  - destruct (Z2F_exact pa ltac:(lia)) as (qa & ea & Ha' & Hva).
    destruct b as [| pb | pb]; try lia.
    + change (Prim2SF (JS.Z2F 0)) with (S754_zero false).
      rewrite Z.add_0_r, Ha'. reflexivity.
    + destruct (Z2F_exact pb ltac:(lia)) as (qb & eb & Hb' & Hvb).
      change (Z.pos pa + Z.pos pb)%Z with (Z.pos (pa + pb)).
      destruct (Z2F_exact (pa + pb) ltac:(lia)) as (q & e & Hq & Hv).
      destruct (canon_of_int (pa + pb) ltac:(lia))
        as (P & E & HP & HvP & HE & _).
      rewrite <- add_spec.
      destruct (add_between (JS.Z2F (Z.pos pa)) (JS.Z2F (Z.pos pb))
                  qa ea qb eb P E P E Ha' Hb' HP HP)
        as (q' & e' & Hq' & Hlo & Hhi).
      * change (emax - prec)%Z with 971%Z. lia.
      * rewrite Hva, Hvb, HvP, Pos2Z.inj_add, plus_IZR. lra.
      * rewrite Hva, Hvb, HvP, Pos2Z.inj_add, plus_IZR. lra.
      * rewrite Hq', Hq.
        destruct (canon_unique q' e' q e (Prim2SF_canon _ _ _ _ Hq')
                    (Prim2SF_canon _ _ _ _ Hq)) as [-> ->];
          [rewrite Hv, <- HvP; lra | reflexivity].
Qed.

(** The quotient of a whole total by a whole count that bounds it a
    hundredfold. *)
Lemma mean_within s n :
  (0 <= s <= 100 * n)%Z -> (0 < n < 2 ^ 46)%Z ->
  (0 <=? JS.Z2F s / JS.Z2F n)%float = true
  /\ (JS.Z2F s / JS.Z2F n <=? 100)%float = true.
Proof.
  intros Hs Hn.
  assert (2 ^ 46 = 70368744177664)%Z as H46 by reflexivity.
  assert (2 ^ 53 = 9007199254740992)%Z as H53 by reflexivity.
  apply within_0_100.
  destruct n as [| pn | pn]; try lia.
  destruct (Z2F_exact pn ltac:(lia)) as (mn & en & HN & Hvn).
  pose proof (Prim2SF_canon _ _ _ _ HN) as Hcn.
  assert (1 <= IZR (Z.pos pn)) as Hpn by (apply IZR_le; lia).
  assert (bpow (-1022) <= 1) as Hsmall.
  { assert (bpow (-1022) <= bpow 0) by (apply bpow_le; lia).
    now change (bpow 0) with 1 in *. }
  assert (digits mn = 53%Z) as Hdn
      by (apply (normal_digits mn en Hcn); lra).
  assert (en <= 0)%Z as Hen.
  { pose proof (F2R_bounds mn en) as [Hlo _]. rewrite Hdn, Hvn in Hlo.
    assert (IZR (Z.pos pn) < bpow 53)
      by (rewrite bpow_IZR by lia; apply IZR_lt; lia).
    assert (bpow (53 - 1 + en) < bpow 53) as Hlt by lra.
    apply bpow_lt_inv in Hlt. lia. }
  destruct s as [| ps | ps]; try lia.
  - left. rewrite div_spec, HN. reflexivity.
  - destruct (Z2F_exact ps ltac:(lia)) as (ms & es & HS & Hvs).
    pose proof (Prim2SF_canon _ _ _ _ HS) as Hcs.
    assert (1 <= IZR (Z.pos ps)) as Hps by (apply IZR_le; lia).
    assert (digits ms = 53%Z) as Hds
        by (apply (normal_digits ms es Hcs); lra).
    assert (-52 <= es)%Z as Hes.
    { pose proof (F2R_bounds ms es) as [_ Hu]. rewrite Hds, Hvs in Hu.
      assert (bpow 0 < bpow (53 + es)) as Hlt
          by (change (bpow 0) with 1; lra).
      apply bpow_lt_inv in Hlt. lia. }
    apply (div_upper (JS.Z2F (Z.pos ps)) (JS.Z2F (Z.pos pn)) ms es mn en
             m_100 (-46) HS HN Hds Hdn);
      [lia | reflexivity | vm_compute; discriminate |].
    rewrite F2R_100, Hvs, Hvn, <- mult_IZR. apply IZR_le. lia.
Qed.

End LogAverages.

Lemma sum_whole (logs : list Dashboard.SessionLog) :
  whole_scores logs ->
  forall s0 : Z,
    (0 <= s0)%Z -> (s0 + 100 * Z.of_nat (List.length logs) < 2 ^ 53)%Z ->
    exists S : Z,
      (s0 <= S <= s0 + 100 * Z.of_nat (List.length logs))%Z
      /\ fold_left (fun sum l => sum + Dashboard.productivity_score l)%float
           logs (JS.Z2F s0) = JS.Z2F S.
Proof.
  induction logs as [| log logs IH]; intros Hw s0 H0 Hlen.
  - exists s0. cbn. split; [lia | reflexivity].
  - destruct (Hw log (or_introl eq_refl)) as (k & Hk & Hscore).
    cbn [List.length] in Hlen. rewrite Nat2Z.inj_succ in Hlen.
    cbn [fold_left]. rewrite Hscore, add_whole by lia.
    destruct (IH (fun l Hl => Hw l (or_intror Hl)) (s0 + k)%Z
                ltac:(lia) ltac:(lia)) as (S & HS & Hfold).
    exists S. cbn [List.length]. rewrite Nat2Z.inj_succ.
    split; [lia | exact Hfold].
Qed.

(** For logs whose scores are whole numbers from 0 to 100:
    [calculateAverageInRange] returns [null] exactly when no log was
    created in the range, and otherwise a number from 0 to 100;
    [calculateAverageOnDate] is the same function on the local day. *)
Theorem calculateAverageInRange_within
    (logs : list Dashboard.SessionLog) (startDate endDate : Z) :
  whole_scores logs ->
  (Z.of_nat (List.length logs) < 2 ^ 46)%Z ->
  match Dashboard.calculateAverageInRange logs startDate endDate with
  | None =>
      forall log, In log logs ->
        ~ (startDate <= Dashboard.created_at log <= endDate)%Z
  | Some a =>
      (exists log, In log logs
                   /\ (startDate <= Dashboard.created_at log <= endDate)%Z)
      /\ (0 <=? a)%float = true /\ (a <=? 100)%float = true
  end
  /\ forall (startOfDay endOfDay : Z -> Z) (targetDate : Z),
       Dashboard.calculateAverageOnDate startOfDay endOfDay logs targetDate
       = Dashboard.calculateAverageInRange logs (startOfDay targetDate)
           (endOfDay targetDate).
Proof.
  intros Hw Hlen. split; [| reflexivity].
  unfold Dashboard.calculateAverageInRange; cbv zeta.
  set (inside := fun log : Dashboard.SessionLog =>
                   (startDate <=? Dashboard.created_at log)%Z
                   && (Dashboard.created_at log <=? endDate)%Z).
  assert (forall log, inside log = true
                      <-> (startDate <= Dashboard.created_at log <= endDate)%Z)
    as Hin by (intro log; unfold inside;
               rewrite andb_true_iff, !Z.leb_le; tauto).
  destruct (filter inside logs) as [| l0 rest] eqn:Ef.
  - cbn. intros log Hl Hr.
    assert (In log (filter inside logs)) as H
        by (apply filter_In; split; [exact Hl | now apply Hin]).
    now rewrite Ef in H.
  - rewrite <- Ef.
    assert (In l0 (filter inside logs)) as Hl0
        by (rewrite Ef; now left).
    apply filter_In in Hl0. destruct Hl0 as [Hl0 Hi0].
    assert (Nat.eqb (List.length (filter inside logs)) 0 = false) as ->
        by (rewrite Ef; reflexivity).
    split; [exists l0; split; [exact Hl0 | now apply Hin] |].
    assert (whole_scores (filter inside logs)) as Hwf
        by (intros l Hl; apply Hw; now apply filter_In in Hl).
    pose proof (filter_length_le inside logs) as Hle.
    assert (2 ^ 46 = 70368744177664)%Z as H46 by reflexivity.
    assert (2 ^ 53 = 9007199254740992)%Z as H53 by reflexivity.
    destruct (sum_whole _ Hwf 0%Z ltac:(lia) ltac:(lia)) as (S & HS & Hsum).
    change (JS.Z2F 0) with 0%float in Hsum. rewrite Hsum.
    apply mean_within; [lia |].
    rewrite Ef at 1. cbn [List.length]. lia.
Qed.

Lemma calculateAverageInRange_within_witness :
  whole_scores three_logs
  /\ (Z.of_nat (List.length three_logs) < 2 ^ 46)%Z
  /\ match Dashboard.calculateAverageInRange three_logs 0 86399999 with
     | None => False
     | Some a => (a <=? 100)%float = true
     end.
Proof.
  assert (whole_scores three_logs) as Hw.
  { intros log [<- | [<- | [<- | []]]];
      [exists 95%Z | exists 72%Z | exists 40%Z]; split; (lia || reflexivity). }
  split; [exact Hw | split; [reflexivity |]].
  destruct (calculateAverageInRange_within three_logs 0 86399999 Hw
              ltac:(reflexivity)) as [H _].
  destruct (Dashboard.calculateAverageInRange three_logs 0 86399999)
    as [a |] eqn:E.
  - apply H.
  - apply (H {| Dashboard.productivity_score := 95;
                Dashboard.created_at := 3600000 |}); cbn; [now left | lia].
Defined.

(** ** Overdue sessions and the timer's deadline *)

Section Overdue.

Variable getHours : Z -> Z.
Variable toDateString : Z -> string.
Variable endOfDay : Z -> Z.

(** What the readings of local time are assumed to satisfy: an instant of
    the same calendar day is not after that day's 23:59:59.999, and from
    20:00 on at most four hours of the day are left. *)
Hypothesis same_day_before_its_end :
  forall t s, toDateString t = toDateString s -> (t <= endOfDay s)%Z.
Hypothesis evening_is_late :
  forall s, (20 <= getHours s)%Z ->
            (endOfDay s <= s + 4 * 60 * 60 * 1000)%Z.

Lemma not_overdue_within_deadline (now scheduledStart : Z) :
  Dashboard.isOverdue getHours toDateString now scheduledStart = false ->
  (now <= SessionTimer.deadline getHours endOfDay scheduledStart)%Z.
Proof.
  unfold Dashboard.isOverdue, SessionTimer.deadline; cbv zeta.
  pose proof (same_day_before_its_end scheduledStart scheduledStart eq_refl)
    as Hself.
  destruct (Z.ltb_spec scheduledStart now) as [Hpast | Hfuture].
  - destruct (String.eqb_spec (toDateString now) (toDateString scheduledStart))
      as [Hsame | Hdiff]; cbn [negb].
    + intros _. pose proof (same_day_before_its_end _ _ Hsame) as Hend.
      destruct (Z.leb_spec 20 (getHours scheduledStart)) as [Hev | Hday];
        [| exact Hend].
      pose proof (evening_is_late _ Hev). lia.
    + intro H. apply orb_false_iff in H. destruct H as [Hh Hg].
      apply Z.ltb_ge in Hh, Hg.
      destruct (Z.leb_spec 20 (getHours scheduledStart)); lia.
  - intros _.
    destruct (Z.leb_spec 20 (getHours scheduledStart)); lia.
Qed.

End Overdue.

Lemma String_of_Z_inj (a b : Z) :
  SessionTimer.String_of_Z a = SessionTimer.String_of_Z b -> a = b.
Proof.
  unfold SessionTimer.String_of_Z. intro H.
  assert (forall z, Z.to_int z <> Decimal.Pos Decimal.Nil
                    /\ Z.to_int z <> Decimal.Neg Decimal.Nil) as Hnn.
  { intros [| p | p]; cbn [Z.to_int]; split; try discriminate;
      intro E; injection E as E;
      now apply (DecimalPos.Unsigned.to_uint_nonnil p). }
  apply (f_equal DecimalString.NilZero.int_of_string) in H.
  rewrite !DecimalString.NilZero.isi in H by apply Hnn.
  injection H as H. apply (f_equal Z.of_int) in H.
  now rewrite !DecimalZ.of_to in H.
Qed.

Lemma utc_same_day_before_its_end (t s : Z) :
  utc_toDateString t = utc_toDateString s -> (t <= utc_endOfDay s)%Z.
Proof.
  unfold utc_toDateString, utc_endOfDay. intro H.
  apply String_of_Z_inj in H.
  pose proof (Z.div_mod t 86400000 ltac:(lia)).
  pose proof (Z.mod_pos_bound t 86400000 ltac:(lia)).
  pose proof (Z.div_mod s 86400000 ltac:(lia)).
  lia.
Qed.

Lemma utc_evening_is_late (s : Z) :
  (20 <= utc_getHours s)%Z ->
  (utc_endOfDay s <= s + 4 * 60 * 60 * 1000)%Z.
Proof.
  unfold utc_getHours, utc_endOfDay. intro H.
  pose proof (Z.div_mod s 3600000 ltac:(lia)) as H1.
  pose proof (Z.mod_pos_bound s 3600000 ltac:(lia)) as H2.
  pose proof (Z.div_mod (s / 3600000) 24 ltac:(lia)) as H3.
  pose proof (Z.mod_pos_bound (s / 3600000) 24 ltac:(lia)) as H4.
  assert (s mod 86400000
          = 3600000 * ((s / 3600000) mod 24) + s mod 3600000)%Z as Hm.
  { symmetry. apply (Z.mod_unique_pos _ _ (s / 3600000 / 24)); lia. }
  lia.
Qed.

(** When the local-time readings are those of a calendar (same day means
    not after that day's end; from 20:00 on at most four hours are left):
    a session that [loadData] does not mark as overdue at some instant is,
    if started at that instant, within the deadline of [submitReflection],
    so its score is not forced to 0. *)
Theorem startable_session_within_deadline
    (getHours : Z -> Z) (toDateString : Z -> string) (endOfDay : Z -> Z)
    (now scheduledStart : Z) :
  (forall t s, toDateString t = toDateString s -> (t <= endOfDay s)%Z) ->
  (forall s, (20 <= getHours s)%Z ->
             (endOfDay s <= s + 4 * 60 * 60 * 1000)%Z) ->
  Dashboard.isOverdue getHours toDateString now scheduledStart = false ->
  (now <= SessionTimer.deadline getHours endOfDay scheduledStart)%Z
  /\ forall exp_impl session st,
       SessionTimer.scheduled_start session = scheduledStart ->
       SessionTimer.finalScore exp_impl getHours endOfDay session now st
       = totalScore (SessionTimer.score exp_impl session now st).
Proof.
  intros Hday Heve Hov.
  pose proof (not_overdue_within_deadline getHours toDateString endOfDay
                Hday Heve now scheduledStart Hov) as Hle.
  split; [exact Hle |].
  intros exp_impl session st Hs. unfold SessionTimer.finalScore.
  rewrite Hs.
  now destruct (Z.ltb_spec
                  (SessionTimer.deadline getHours endOfDay scheduledStart)
                  now); [lia |].
Qed.

(** The converse fails: nine hours after a session scheduled at 20:00,
    on the next day, [loadData] marks the session as missed although the
    timer's deadline of twelve hours has not passed. *)
Lemma startable_session_within_deadline_witness :
  Dashboard.isOverdue utc_getHours utc_toDateString 75600000 72000000 = false
  /\ (75600000
      <= SessionTimer.deadline utc_getHours utc_endOfDay 72000000)%Z
  /\ Dashboard.isOverdue utc_getHours utc_toDateString 104400000 72000000
     = true
  /\ (104400000
      <= SessionTimer.deadline utc_getHours utc_endOfDay 72000000)%Z.
Proof.
  split; [vm_compute; reflexivity |].
  split; [| split; [vm_compute; reflexivity | vm_compute; discriminate]].
  apply (startable_session_within_deadline utc_getHours utc_toDateString
           utc_endOfDay 75600000 72000000 utc_same_day_before_its_end
           utc_evening_is_late).
  vm_compute; reflexivity.
Defined.

(** * Minutes that are not numbers *)

Lemma is_nan_Prim2SF x : is_nan x = true <-> Prim2SF x = S754_nan.
Proof.
  rewrite is_nan_SF. split.
  - destruct (Prim2SF x) as [s | s | | s m e]; try reflexivity;
      unfold SFeqb; [now destruct s | now destruct s |].
    now rewrite SFcompare_refl.
  - now intros ->.
Qed.

Lemma nan_add_l x y : is_nan x = true -> is_nan (x + y)%float = true.
Proof.
  rewrite !is_nan_Prim2SF, add_spec. intros ->. reflexivity.
Qed.

Lemma nan_add_r x y : is_nan y = true -> is_nan (x + y)%float = true.
Proof.
  rewrite !is_nan_Prim2SF, add_spec. intros ->. unfold SF64add.
  now destruct (Prim2SF x).
Qed.

Lemma nan_sub_l x y : is_nan x = true -> is_nan (x - y)%float = true.
Proof.
  rewrite !is_nan_Prim2SF, sub_spec. intros ->. reflexivity.
Qed.

Lemma nan_mul_l x y : is_nan x = true -> is_nan (x * y)%float = true.
Proof.
  rewrite !is_nan_Prim2SF, mul_spec. intros ->. reflexivity.
Qed.

Lemma nan_mul_r x y : is_nan y = true -> is_nan (x * y)%float = true.
Proof.
  rewrite !is_nan_Prim2SF, mul_spec. intros ->. unfold SF64mul.
  now destruct (Prim2SF x).
Qed.

Lemma nan_div_l x y : is_nan x = true -> is_nan (x / y)%float = true.
Proof.
  rewrite !is_nan_Prim2SF, div_spec. intros ->. reflexivity.
Qed.

Lemma nan_div_r x y : is_nan y = true -> is_nan (x / y)%float = true.
Proof.
  rewrite !is_nan_Prim2SF, div_spec. intros ->. unfold SF64div.
  now destruct (Prim2SF x).
Qed.

Lemma nan_Math_round x : is_nan x = true -> is_nan (JS.Math_round x) = true.
Proof.
  intro H. unfold JS.Math_round.
  pose proof H as H'. apply is_nan_Prim2SF in H'. now rewrite H'.
Qed.

Lemma nan_Math_min x y : is_nan y = true -> is_nan (JS.Math_min x y) = true.
Proof.
  intro H. unfold JS.Math_min. rewrite H, orb_true_r. reflexivity.
Qed.

Lemma nan_Math_max x y : is_nan y = true -> is_nan (JS.Math_max x y) = true.
Proof.
  intro H. unfold JS.Math_max. rewrite H, orb_true_r. reflexivity.
Qed.

Lemma nan_leb x y : is_nan x = true -> (x <=? y)%float = false.
Proof.
  rewrite is_nan_Prim2SF, FloatAxioms.leb_spec. intros ->. reflexivity.
Qed.

(** The scoring functions do not check that the minutes are numbers: a
    duration that is NaN makes the completion percentage, the focus score
    and the total NaN; completed minutes that are NaN make the commitment
    bonus and the total NaN, and the completion percentage too unless the
    duration is zero or negative, where the guard returns 0 first. *)
Theorem nan_minutes_give_nan_scores
    (exp_impl : float -> float) (input : ProductivityScoreInput) :
  let c := completedMinutes input in
  let d := durationMinutes input in
  let r := calculateProductivityScore exp_impl input in
  (is_nan d = true ->
   is_nan (getCompletionPercentage c d) = true
   /\ is_nan (focusScore r) = true /\ is_nan (totalScore r) = true)
  /\ (is_nan c = true ->
      is_nan (commitmentBonus r) = true /\ is_nan (totalScore r) = true
      /\ ((d <=? 0)%float = false ->
          is_nan (getCompletionPercentage c d) = true
          /\ is_nan (focusScore r) = true)
      /\ ((d <=? 0)%float = true ->
          getCompletionPercentage c d = 0%float
          /\ focusScore r = 0%float)).
Proof.
  cbv zeta.
  assert (forall c d, (d <=? 0)%float = false ->
            is_nan (c / d)%float = true ->
            is_nan (getCompletionPercentage c d) = true) as Hpct.
  { intros c d Hd Hq. unfold getCompletionPercentage. rewrite Hd.
    now apply nan_Math_max, nan_Math_min, nan_Math_round, nan_mul_l. }
  assert (forall c d, is_nan (getCompletionPercentage c d) = true ->
            is_nan (focus c d) = true) as Hfocus
      by (intros c d H; unfold focus; now apply nan_mul_l, nan_div_l).
  unfold calculateProductivityScore;
    cbn [focusScore totalScore commitmentBonus].
  split.
  - intro Hd.
    assert (is_nan (getCompletionPercentage (completedMinutes input)
                      (durationMinutes input)) = true) as Hp
        by (apply Hpct; [now apply nan_leb | now apply nan_div_r]).
    split; [exact Hp |].
    split; [now apply nan_Math_round, Hfocus |].
    unfold total.
    now apply nan_Math_round, nan_Math_min, nan_add_l, nan_add_r, Hfocus.
  - intro Hc.
    assert (is_nan (commitment exp_impl (completedMinutes input)) = true)
      as Hb.
    { unfold commitment. apply nan_div_r, nan_add_r.
      unfold JS.Math_exp.
      now rewrite (nan_mul_r _ _ (nan_sub_l _ 45 Hc)). }
    split; [now apply nan_Math_round |].
    split; [unfold total;
            now apply nan_Math_round, nan_Math_min, nan_add_r |].
    split.
    + intro Hd.
      assert (is_nan (getCompletionPercentage (completedMinutes input)
                        (durationMinutes input)) = true) as Hp
          by (apply Hpct; [exact Hd | now apply nan_div_l]).
      split; [exact Hp | now apply nan_Math_round, Hfocus].
    + intro Hd.
      assert (getCompletionPercentage (completedMinutes input)
                (durationMinutes input) = 0%float) as Hp
          by (unfold getCompletionPercentage; now rewrite Hd).
      split; [exact Hp |]. unfold focus. rewrite Hp.
      vm_compute; reflexivity.
Qed.

Lemma nan_minutes_give_nan_scores_witness :
  is_nan (durationMinutes (Build_ProductivityScoreInput 0 0 nan 30)) = true
  /\ is_nan (totalScore (calculateProductivityScore Fdlibm.exp
                           (Build_ProductivityScoreInput 0 0 nan 30))) = true
  /\ is_nan (commitmentBonus (calculateProductivityScore Fdlibm.exp
                                (Build_ProductivityScoreInput 0 0 0 nan)))
     = true
  /\ focusScore (calculateProductivityScore Fdlibm.exp
                   (Build_ProductivityScoreInput 0 0 0 nan)) = 0%float.
Proof.
  destruct (nan_minutes_give_nan_scores Fdlibm.exp
              (Build_ProductivityScoreInput 0 0 nan 30))
    as [[_ [_ Ht]] _]; [reflexivity |].
  destruct (nan_minutes_give_nan_scores Fdlibm.exp
              (Build_ProductivityScoreInput 0 0 0 nan))
    as [_ [Hb [_ [_ Hz]]]]; [reflexivity |].
  destruct Hz as [_ Hf]; [reflexivity |].
  split; [reflexivity | split; [exact Ht | split; [exact Hb | exact Hf]]].
Defined.

(** * Rounding to nearest *)

Section Nearest.

Local Open Scope R_scope.

Lemma bpow_succ e : bpow (e + 1) = 2 * bpow e.
Proof.
  rewrite bpow_add. replace (bpow 1) with 2 by (unfold bpow; simpl; ring).
  ring.
Qed.

Lemma bpow_pred e : bpow e = 2 * bpow (e - 1).
Proof. rewrite <- bpow_succ. f_equal. lia. Qed.

(** One more bit shifted out. *)
Lemma shr_1_inbetween mrs e v :
  (0 <= shr_m mrs)%Z ->
  inbetween (shr_m mrs) e (loc_of_shr_record mrs) v ->
  inbetween (shr_m (shr_1 mrs)) (e + 1) (loc_of_shr_record (shr_1 mrs)) v.
Proof.
  intro Hm.
  pose proof (bpow_pos (e - 1)) as Hb.
  unfold inbetween, F2R.
  replace (e + 1 - 1)%Z with e by lia.
  rewrite (bpow_succ e), (bpow_pred e).
  set (X := bpow (e - 1)) in *.
  destruct mrs as [[| [p | p |] | p] [] []]; cbn [shr_m] in Hm; try lia;
    cbn [shr_1 shr_m loc_of_shr_record orb];
    try rewrite (Pos2Z.inj_xI p); try rewrite (Pos2Z.inj_xO p);
    repeat (rewrite plus_IZR || rewrite mult_IZR);
    try (set (y := IZR (Z.pos p)) in * );
    intro H; lra.
Qed.

Lemma iter_shr_1_inbetween (k : nat) mrs e v :
  (0 <= shr_m mrs)%Z ->
  inbetween (shr_m mrs) e (loc_of_shr_record mrs) v ->
  let mrs' := Nat.iter k shr_1 mrs in
  (0 <= shr_m mrs')%Z
  /\ inbetween (shr_m mrs') (e + Z.of_nat k) (loc_of_shr_record mrs') v.
Proof.
  intros Hm Hv. cbv zeta. induction k as [| k [IHm IHv]].
  - cbn [Nat.iter]. now rewrite Z.add_0_r.
  - rewrite Nat.iter_succ. split.
    + rewrite shr_1_m, Z.div2_div by exact IHm. apply Z.div_pos; lia.
    + replace (e + Z.of_nat (S k))%Z with (e + Z.of_nat k + 1)%Z by lia.
      now apply shr_1_inbetween.
Qed.

Lemma loc_of_shr_record_of_loc m l :
  loc_of_shr_record (shr_record_of_loc m l) = l.
Proof. now destruct l as [| []]. Qed.

(** The first step of rounding: after the shift to exponent
    [fexp (digits p + e)] the record still locates the exact value. *)
Lemma shr_fexp_inbetween p e l v :
  inbetween (Z.pos p) e l v ->
  (e <= fexp (digits p + e))%Z ->
  let mrs := fst (shr_fexp prec emax (Z.pos p) e l) in
  let e1 := fexp (digits p + e) in
  shr_m mrs = (Z.pos p / 2 ^ (e1 - e))%Z
  /\ snd (shr_fexp prec emax (Z.pos p) e l) = e1
  /\ inbetween (shr_m mrs) e1 (loc_of_shr_record mrs) v.
Proof.
  intros Hv Hpre; cbv zeta.
  destruct (shr_fexp_spec p e l) as [Hm He]; cbv zeta in Hm, He.
  replace (Z.max 0 (fexp (digits p + e) - e)) with (fexp (digits p + e) - e)%Z
    in Hm, He by lia.
  replace (e + (fexp (digits p + e) - e))%Z with (fexp (digits p + e))
    in He by lia.
  split; [exact Hm | split; [exact He |]].
  unfold shr_fexp, shr. cbn [Zdigits2]. fold (digits p).
  destruct (fexp (digits p + e) - e)%Z as [| n | n] eqn:En; cbn [fst]; try lia.
  - rewrite shr_record_of_loc_m, loc_of_shr_record_of_loc.
    now replace (fexp (digits p + e)) with e by lia.
  - rewrite iter_pos_nat.
    destruct (iter_shr_1_inbetween (Pos.to_nat n)
                (shr_record_of_loc (Z.pos p) l) e v) as [_ H].
    + rewrite shr_record_of_loc_m. lia.
    + now rewrite shr_record_of_loc_m, loc_of_shr_record_of_loc.
    + cbv zeta in H. rewrite positive_nat_Z in H.
      now replace (fexp (digits p + e)) with (e + Z.pos n)%Z by lia.
Qed.

(** The choice of the nearest mantissa. *)
Lemma round_nearest_even_inbetween M e l v :
  inbetween M e l v ->
  let m2 := round_nearest_even M l in
  F2R m2 e - bpow (e - 1) <= v <= F2R m2 e + bpow (e - 1).
Proof.
  cbv zeta. pose proof (bpow_pos (e - 1)) as Hb.
  unfold inbetween, round_nearest_even, F2R.
  rewrite (bpow_pred e). set (X := bpow (e - 1)) in *.
  destruct l as [| [| |]]; [| destruct (Z.even M) | |];
    repeat (rewrite plus_IZR || rewrite mult_IZR); set (y := IZR M);
    intro H; lra.
Qed.

Lemma digits_53 q : (2 ^ 52 <= Z.pos q < 2 ^ 53)%Z -> digits q = 53%Z.
Proof.
  intro H. rewrite digits_log2.
  rewrite (Z.log2_unique (Z.pos q) 52); lia.
Qed.

(** Rounding a number in the normal range to nearest: the result is
    finite and differs from the exact value by at most half a unit in the
    last place, the last place being [digits p + e - 53]. *)
Lemma binary_round_aux_nearest s p e l v :
  inbetween (Z.pos p) e l v ->
  (e <= fexp (digits p + e))%Z ->
  (-1021 <= digits p + e <= 1023)%Z ->
  exists q e',
    binary_round_aux prec emax s (Z.pos p) e l = S754_finite s q e'
    /\ F2R (Z.pos q) e' - bpow (digits p + e - 54) <= v
       <= F2R (Z.pos q) e' + bpow (digits p + e - 54).
Proof.
  intros Hv Hpre Hrange.
  destruct (shr_fexp_inbetween p e l v Hv Hpre) as (Hm & He & Hin);
    cbv zeta in Hm, He, Hin.
  assert (fexp (digits p + e) = digits p + e - 53)%Z as Hf
      by (rewrite fexp_spec; lia).
  rewrite Hf in *.
  set (e1 := (digits p + e - 53)%Z) in *.
  set (n := (e1 - e)%Z) in *.
  assert (0 <= n)%Z as Hn by (unfold n; lia).
  assert (0 < 2 ^ n)%Z as Hpn by (apply Z.pow_pos_nonneg; lia).
  pose proof (digits_bounds p) as [Hpl Hpu].
  assert (2 ^ 52 <= Z.pos p / 2 ^ n < 2 ^ 53)%Z as HM.
  { split.
    - apply Z.div_le_lower_bound; [lia |].
      rewrite <- Z.pow_add_r by lia.
      replace (n + 52)%Z with (digits p - 1)%Z by (unfold n, e1; lia).
      exact Hpl.
    - apply Z.div_lt_upper_bound; [lia |].
      rewrite <- Z.pow_add_r by lia.
      replace (n + 53)%Z with (digits p) by (unfold n, e1; lia).
      exact Hpu. }
  unfold binary_round_aux.
  destruct (shr_fexp prec emax (Z.pos p) e l) as [mrs1 e1'].
  cbn [fst snd] in Hm, He, Hin. subst e1'.
  set (M := shr_m mrs1) in *.
  pose proof (round_nearest_even_inbetween M e1 _ v Hin) as Herr.
  cbv zeta in Herr.
  pose proof (round_nearest_even_bounds M (loc_of_shr_record mrs1)) as Hb.
  set (m2 := round_nearest_even M (loc_of_shr_record mrs1)) in *.
  replace (digits p + e - 54)%Z with (e1 - 1)%Z by (unfold e1; lia).
  destruct m2 as [| q2 | q2] eqn:Em2; try lia.
  destruct (shr_fexp_spec q2 e1 loc_Exact) as [Hm3 He3]; cbv zeta in Hm3, He3.
  destruct (Z_lt_le_dec (Z.pos q2) (2 ^ 53)) as [Hlt | Hge].
  - (* the mantissa still has 53 digits *)
    rewrite (digits_53 q2) in Hm3, He3 by lia.
    replace (fexp (53 + e1)) with e1 in Hm3, He3
      by (rewrite fexp_spec; unfold e1; lia).
    rewrite Z.sub_diag in Hm3, He3. cbn [Z.max] in Hm3, He3.
    rewrite Z.pow_0_r, Z.div_1_r in Hm3. rewrite Z.add_0_r in He3.
    destruct (shr_fexp prec emax (Z.pos q2) e1 loc_Exact) as [mrs3 e3].
    cbn [fst snd] in Hm3, He3. subst e3. rewrite Hm3.
    destruct (Z.leb_spec e1 (emax - prec)) as [_ | Hbad];
      [| change (emax - prec)%Z with 971%Z in Hbad; unfold e1 in Hbad; lia].
    exists q2, e1. split; [reflexivity | exact Herr].
  - (* the mantissa reached 2^53: one more shift, which is exact *)
    assert (Z.pos q2 = 2 ^ 53)%Z as Hq2 by lia.
    assert (digits q2 = 54%Z) as Hd2.
    { rewrite digits_log2, Hq2. rewrite Z.log2_pow2 by lia. reflexivity. }
    rewrite Hd2 in Hm3, He3.
    replace (fexp (54 + e1)) with (e1 + 1)%Z in Hm3, He3
      by (rewrite fexp_spec; unfold e1; lia).
    replace (Z.max 0 (e1 + 1 - e1)) with 1%Z in Hm3, He3 by lia.
    assert (Z.pos q2 / 2 ^ 1 = Z.pos m_one)%Z as Hdiv
        by (rewrite Hq2; reflexivity).
    rewrite Hdiv in Hm3.
    destruct (shr_fexp prec emax (Z.pos q2) e1 loc_Exact) as [mrs3 e3].
    cbn [fst snd] in Hm3, He3. subst e3. rewrite Hm3.
    destruct (Z.leb_spec (e1 + 1) (emax - prec)) as [_ | Hbad];
      [| change (emax - prec)%Z with 971%Z in Hbad; unfold e1 in Hbad; lia].
    exists m_one, (e1 + 1)%Z. split; [reflexivity |].
    replace (F2R (Z.pos m_one) (e1 + 1)) with (F2R (Z.pos q2) e1); [exact Herr |].
    unfold F2R. rewrite Hq2, bpow_succ.
    change (IZR (2 ^ 53)) with (2 * IZR (Z.pos m_one)). ring.
Qed.

(** The location that division records. *)
Lemma new_location_inbetween d r q e :
  (0 < d)%Z -> (0 <= r < d)%Z ->
  inbetween q e (new_location d r) ((IZR q + IZR r / IZR d) * bpow e).
Proof.
  intros Hd Hr.
  assert (0 < IZR d) as HD by (apply IZR_lt; lia).
  set (f := IZR r / IZR d).
  assert (f * IZR d = IZR r) as Hf by (unfold f; field; lra).
  assert (0 <= IZR r < IZR d) as HR
      by (split; [apply IZR_le | apply IZR_lt]; lia).
  assert (forall c, (2 * r ?= d)%Z = c ->
            match c with
            | Lt => 0 <= f < / 2 | Eq => f = / 2 | Gt => / 2 < f < 1
            end) as Hcmp.
  { intros c Hc. destruct c.
    - apply Z.compare_eq in Hc. apply (f_equal IZR) in Hc.
      rewrite mult_IZR in Hc. nra.
    - rewrite Z.compare_lt_iff in Hc. apply IZR_lt in Hc.
      rewrite mult_IZR in Hc. nra.
    - rewrite Z.compare_gt_iff in Hc. apply IZR_lt in Hc.
      rewrite mult_IZR in Hc. nra. }
  pose proof (bpow_pos (e - 1)) as Hb.
  unfold new_location, new_location_even, new_location_odd, inbetween, F2R.
  cbv beta. rewrite (bpow_pred e). set (X := bpow (e - 1)) in *.
  repeat (rewrite plus_IZR || rewrite mult_IZR). set (y := IZR q).
  assert (r <> 0%Z -> 0 < f) as Hf0.
  { intro H0. assert (0 < IZR r) by (apply IZR_lt; lia).
    unfold f. apply Rmult_lt_0_compat; [lra | now apply Rinv_0_lt_compat]. }
  assert (r = 0%Z -> f = 0) as Hf1
      by (intros ->; unfold f; field; lra).
  destruct (Z.even d) eqn:Hev; cbv beta iota;
    (destruct (Z.eqb_spec r 0) as [H0 | H0];
     [rewrite (Hf1 H0); ring | specialize (Hf0 H0)]).
  - pose proof (Hcmp _ eq_refl) as H.
    destruct (2 * r ?= d)%Z; cbv beta iota; nra.
  - assert (2 * r <> d)%Z as Hne.
    { intro Heq. rewrite <- Heq, Z.even_mul in Hev. discriminate. }
    destruct (2 * r + 1 ?= d)%Z eqn:Hc.
    + apply Z.compare_eq in Hc.
      assert ((2 * r ?= d)%Z = Lt) as H2 by (apply Z.compare_lt_iff; lia).
      pose proof (Hcmp _ H2) as H. cbv beta iota in H |- *. nra.
    + rewrite Z.compare_lt_iff in Hc.
      assert ((2 * r ?= d)%Z = Lt) as H2 by (apply Z.compare_lt_iff; lia).
      pose proof (Hcmp _ H2) as H. cbv beta iota in H |- *. nra.
    + rewrite Z.compare_gt_iff in Hc.
      assert ((2 * r ?= d)%Z = Gt) as H2 by (apply Z.compare_gt_iff; lia).
      pose proof (Hcmp _ H2) as H. cbv beta iota in H |- *. nra.
Qed.

Lemma Prim2SF_60000 : Prim2SF 60000 = S754_finite false m_60000 (-37).
Proof. vm_compute; reflexivity. Qed.

Lemma bpow_m16 : bpow (-16) = / 65536.
Proof. unfold bpow. simpl. f_equal. lra. Qed.

(** Division of a whole number of milliseconds by 60000: the quotient is
    a finite double within 2^-16 of the exact quotient, and it lies
    between the whole numbers that enclose the exact quotient. *)
Lemma div_60000 x sx mx ex (n : positive) :
  Prim2SF x = S754_finite sx mx ex ->
  digits mx = 53%Z -> (-52 <= ex <= 0)%Z ->
  F2R (Z.pos mx) ex = IZR (Z.pos n) ->
  let K := (Z.pos n / 60000)%Z in
  let K' := (if (Z.pos n mod 60000 =? 0)%Z then K else K + 1)%Z in
  exists q e,
    Prim2SF (x / 60000)%float = S754_finite sx q e
    /\ IZR K <= F2R (Z.pos q) e <= IZR K'
    /\ F2R (Z.pos q) e - bpow (-16) <= IZR (Z.pos n) / 60000
       <= F2R (Z.pos q) e + bpow (-16).
Proof.
  intros Hx Hd Hex Hval; cbv zeta.
  rewrite div_spec, Hx, Prim2SF_60000. unfold SF64div. cbn [SFdiv].
  rewrite xorb_false_r, SFdiv_core_spec, Hd.
  change (digits m_60000) with 53%Z.
  assert (Z.min (fexp (53 + ex - (53 + -37))) (ex - -37) = ex - 16)%Z
    as -> by (rewrite fexp_spec; lia).
  replace (ex - -37 - (ex - 16))%Z with 53%Z by lia.
  set (e' := (ex - 16)%Z).
  change (2 ^ 53)%Z with 9007199254740992%Z.
  set (m' := (Z.pos mx * 9007199254740992)%Z).
  (* the mantissa of [x] is [n] shifted *)
  set (w := (2 ^ (- ex))%Z).
  assert (0 < w)%Z as Hw by (apply Z.pow_pos_nonneg; lia).
  assert (bpow ex * IZR w = 1) as Hbw.
  { unfold w. rewrite <- bpow_IZR, <- bpow_add by lia.
    replace (ex + - ex)%Z with 0%Z by lia. reflexivity. }
  assert (Z.pos mx = Z.pos n * w)%Z as Hmx.
  { apply eq_IZR. rewrite mult_IZR. unfold F2R in Hval.
    rewrite <- Hval, Rmult_assoc, Hbw. ring. }
  pose proof (digits_bounds mx) as [Hxl Hxu]. rewrite Hd in Hxl, Hxu.
  change (2 ^ (53 - 1))%Z with 4503599627370496%Z in Hxl.
  change (2 ^ 53)%Z with 9007199254740992%Z in Hxu.
  pose proof (Z.div_mod m' (Z.pos m_60000) ltac:(lia)) as Hdm.
  pose proof (Z.mod_pos_bound m' (Z.pos m_60000) ltac:(lia)) as Hmod.
  set (q0 := (m' / Z.pos m_60000)%Z) in *.
  set (r0 := (m' mod Z.pos m_60000)%Z) in *.
  assert (4503599627370496 <= q0 < 18014398509481984)%Z as Hq0.
  { unfold q0, m', m_60000. split.
    - apply Z.div_le_lower_bound; lia.
    - apply Z.div_lt_upper_bound; lia. }
  destruct q0 as [| pq | pq] eqn:Eq0; try lia.
  assert (digits pq = 53 \/ digits pq = 54)%Z as Hdq.
  { pose proof (digits_bounds pq) as [Hl Hu]. pose proof (digits_pos pq).
    assert (digits pq - 1 < 54)%Z
      by (apply (Z.pow_lt_mono_r_iff 2); [lia | lia |];
          change (2 ^ 54)%Z with 18014398509481984%Z; lia).
    assert (52 < digits pq)%Z
      by (apply (Z.pow_lt_mono_r_iff 2); [lia | lia |];
          change (2 ^ 52)%Z with 4503599627370496%Z; lia).
    lia. }
  assert (e' <= fexp (digits pq + e'))%Z as Hpre
      by (rewrite fexp_spec; unfold e'; lia).
  (* the exact quotient *)
  set (v := IZR (Z.pos n) / 60000).
  assert (bpow e' = bpow ex * / 65536) as Hbe
      by (unfold e'; replace (ex - 16)%Z with (ex + -16)%Z by lia;
          now rewrite bpow_add, bpow_m16).
  pose proof (bpow_pos ex) as Hbex.
  assert (IZR (Z.pos pq) * IZR (Z.pos m_60000) + IZR r0 = IZR m') as HR
      by (rewrite <- mult_IZR, <- plus_IZR; f_equal; lia).
  assert ((IZR (Z.pos pq) + IZR r0 / IZR (Z.pos m_60000)) * bpow e' = v)
    as Hv.
  { replace (IZR (Z.pos pq) + IZR r0 / IZR (Z.pos m_60000))
      with (IZR m' / IZR (Z.pos m_60000))
      by (rewrite <- HR; unfold m_60000; field).
    unfold m', v. rewrite mult_IZR, Hbe. unfold F2R in Hval.
    rewrite <- Hval. unfold m_60000. field. }
  pose proof (new_location_inbetween (Z.pos m_60000) r0 (Z.pos pq) e'
                ltac:(lia) Hmod) as Hin.
  rewrite Hv in Hin.
  set (l := new_location (Z.pos m_60000) r0) in *.
  destruct (binary_round_aux_nearest sx pq e' l v Hin Hpre
              ltac:(unfold e'; lia)) as (q & e & Hr & Herr).
  exists q, e. split; [exact Hr |].
  assert (bpow (digits pq + e' - 54) <= bpow (-16)) as Hulp
      by (apply bpow_le; unfold e'; lia).
  split; [| lra].
  (* the remainder of [n] *)
  pose proof (Z.div_mod (Z.pos n) 60000 ltac:(lia)) as Hndm.
  pose proof (Z.mod_pos_bound (Z.pos n) 60000 ltac:(lia)) as Hnmod.
  set (K := (Z.pos n / 60000)%Z) in *.
  set (rn := (Z.pos n mod 60000)%Z) in *.
  assert (0 <= K)%Z as HK0 by (apply Z.div_pos; lia).
  assert (IZR (Z.pos n) = 60000 * IZR K + IZR rn) as HnR
      by (rewrite Hndm, plus_IZR, mult_IZR; reflexivity).
  assert (0 <= IZR rn < 60000) as HrnR
      by (split; [apply IZR_le | apply (IZR_lt _ 60000)]; lia).
  assert (Z.pos n < 9007199254740992)%Z as Hn53 by nia.
  split.
  - (* the whole number below *)
    destruct K as [| pk | pk] eqn:EK; try lia.
    { unfold F2R. pose proof (bpow_pos e).
      assert (0 < IZR (Z.pos q)) by (apply IZR_lt; lia). nra. }
    destruct (canon_of_int pk ltac:(change (2 ^ 53)%Z with 9007199254740992%Z; lia))
      as (P & E & HP & HPv & _).
    destruct (binary_round_aux_lower P E sx pq e' l HP) as [_ Hlo];
      [| exact Hpre |].
    + rewrite HPv.
      assert (Z.pos pk * (65536 * w) <= Z.pos pq)%Z as Hle.
      { rewrite <- Eq0. unfold q0.
        apply Z.div_le_lower_bound; [lia |].
        unfold m', m_60000. rewrite Hmx. nia. }
      apply IZR_le in Hle. rewrite !mult_IZR in Hle.
      unfold F2R. rewrite Hbe.
      replace (IZR (Z.pos pk))
        with (IZR (Z.pos pk) * (65536 * IZR w) * (bpow ex * / 65536))
        by (transitivity (IZR (Z.pos pk) * (bpow ex * IZR w));
            [field | rewrite Hbw; ring]).
      apply Rmult_le_compat_r; [| exact Hle].
      apply Rmult_le_pos; lra.
    + cbv zeta in Hlo. rewrite Hr in Hlo.
      destruct Hlo as [Hi | (q' & e'' & Hq' & Hle)]; [discriminate |].
      injection Hq' as <- <-. rewrite <- HPv. exact Hle.
  - (* the whole number above *)
    set (K' := (if (rn =? 0)%Z then K else K + 1)%Z).
    assert (1 <= K' < 9007199254740992)%Z as HK'.
    { unfold K'. destruct (Z.eqb_spec rn 0); lia. }
    assert (v <= IZR K') as HvK.
    { unfold v, K'. destruct (Z.eqb_spec rn 0) as [H0 | H0].
      - rewrite HnR, H0. lra.
      - rewrite plus_IZR, HnR. lra. }
    destruct K' as [| pk | pk] eqn:EK; try lia.
    destruct (canon_of_int pk ltac:(change (2 ^ 53)%Z with 9007199254740992%Z; lia))
      as (P & E & HP & HPv & HE & _).
    assert (0 <= IZR r0 / IZR (Z.pos m_60000)) as Hfrac.
    { apply Rmult_le_pos; [apply IZR_le; lia |].
      left. apply Rinv_0_lt_compat, IZR_lt. lia. }
    pose proof (bpow_pos e') as Hbe'.
    destruct (binary_round_aux_upper P E sx pq e' l v HP) as [Hz | Hup].
    + change (emax - prec)%Z with 971%Z. lia.
    + rewrite <- Hv. unfold F2R. nra.
    + intro Hne. apply new_location_inexact in Hne.
      assert (0 < IZR r0) by (apply IZR_lt; lia).
      assert (0 < IZR r0 / IZR (Z.pos m_60000))
        by (apply Rmult_lt_0_compat;
            [lra | apply Rinv_0_lt_compat, IZR_lt; lia]).
      rewrite <- Hv. unfold F2R. nra.
    + rewrite HPv. exact HvK.
    + exact Hpre.
    + cbv zeta in Hz. rewrite Hr in Hz. discriminate.
    + cbv zeta in Hup. rewrite Hr in Hup.
      destruct Hup as (q' & e'' & Hq' & Hle).
      injection Hq' as <- <-. rewrite <- HPv. exact Hle.
Qed.

(** ** Whole numbers in double arithmetic *)

(** Rounding a representable value returns it. *)
Lemma binary_round_exact s P E p e :
  canon P E -> (E <= emax - prec)%Z ->
  F2R (Z.pos p) e = F2R (Z.pos P) E ->
  binary_round prec emax s p e = S754_finite s P E.
Proof.
  intros HP HE Hv.
  destruct (binary_round_lower P E s p e HP ltac:(lra)) as [Hvalid Hlo].
  destruct (binary_round_upper P E s p e HP HE ltac:(lra)) as [Hz | Hup];
    cbv zeta in *.
  - rewrite Hz in Hlo. destruct Hlo as [H | (q & e' & H & _)]; discriminate.
  - destruct Hup as (q & e' & Hr & Hle). rewrite Hr in Hlo, Hvalid |- *.
    destruct Hlo as [H | (q' & e'' & H & Hge)]; [discriminate |].
    injection H as <- <-.
    cbn [valid_binary] in Hvalid. unfold bounded in Hvalid.
    apply andb_true_iff in Hvalid. destruct Hvalid as [Hc _].
    destruct (canon_unique q e' P E (canonical_canon _ _ Hc) HP ltac:(lra))
      as [-> ->].
    reflexivity.
Qed.

(** The double of a non-zero whole number of magnitude at most 2^53. *)
Lemma Prim2SF_Z2F_whole (sz : bool) (p : positive) :
  (Z.pos p <= 2 ^ 53)%Z ->
  exists P E,
    Prim2SF (JS.Z2F (if sz then Z.neg p else Z.pos p)) = S754_finite sz P E
    /\ canon P E /\ F2R (Z.pos P) E = IZR (Z.pos p)
    /\ digits P = 53%Z /\ (-52 <= E <= 1)%Z.
Proof.
  intro Hp.
  assert (exists P E, canon P E /\ F2R (Z.pos P) E = IZR (Z.pos p)
                      /\ (-52 <= E <= 1)%Z /\ digits P = 53%Z)
    as (P & E & HP & Hv & HE & Hd).
  { destruct (Z_lt_le_dec (Z.pos p) (2 ^ 53)) as [Hlt | Hge].
    - destruct (canon_of_int p Hlt) as (P & E & HP & Hv & HE & Hd).
      exists P, E. repeat split; try assumption; lia.
    - exists m_one, 1%Z. repeat split; try reflexivity; try lia.
      replace (Z.pos p) with (2 ^ 53)%Z by lia.
      unfold F2R. replace (bpow 1) with 2 by (unfold bpow; simpl; ring).
      change (IZR (2 ^ 53)) with (2 * IZR (Z.pos m_one)). ring. }
  exists P, E. split; [| now repeat split].
  rewrite Prim2SF_Z2F.
  destruct sz; cbn [binary_normalize];
    (apply binary_round_exact;
     [exact HP | change (emax - prec)%Z with 971%Z; lia
     | rewrite Hv; apply F2R_int]).
Qed.

Lemma Z2F_whole_cases (z : Z) :
  (Z.abs z <= 2 ^ 53)%Z ->
  (z = 0%Z /\ Prim2SF (JS.Z2F z) = S754_zero false)
  \/ exists (sz : bool) (p P : positive) (E : Z),
       z = (if sz then Z.neg p else Z.pos p)
       /\ Prim2SF (JS.Z2F z) = S754_finite sz P E
       /\ canon P E /\ F2R (Z.pos P) E = IZR (Z.pos p)
       /\ digits P = 53%Z /\ (-52 <= E <= 1)%Z.
Proof.
  intro Hz. destruct z as [| p | p].
  - left. split; reflexivity.
  - right. destruct (Prim2SF_Z2F_whole false p ltac:(lia))
      as (P & E & H). exists false, p, P, E. split; [reflexivity | exact H].
  - right. destruct (Prim2SF_Z2F_whole true p ltac:(lia))
      as (P & E & H). exists true, p, P, E. split; [reflexivity | exact H].
Qed.

(** Subtracting whole numbers is exact up to 2^53. *)
Lemma sub_whole (a s : Z) :
  (Z.abs a <= 2 ^ 53)%Z -> (Z.abs s <= 2 ^ 53)%Z ->
  (Z.abs (a - s) <= 2 ^ 53)%Z ->
  (JS.Z2F a - JS.Z2F s)%float = JS.Z2F (a - s).
Proof.
  intros Ha Hs Hd. apply Prim2SF_inj. rewrite sub_spec. unfold SF64sub.
  destruct (Z2F_whole_cases a Ha)
    as [[-> Ea] | (sa & pa & Pa & Ea' & -> & Ea & Hca & Hva & _ & HEa)];
    destruct (Z2F_whole_cases s Hs)
      as [[-> Es] | (ss & ps & Ps & Es' & -> & Es & Hcs & Hvs & _ & HEs)];
    rewrite ?Ea, ?Es; cbn [SFsub].
  - reflexivity.
  - (* 0 - s *)
    destruct (Prim2SF_Z2F_whole (negb ss) ps ltac:(destruct ss; lia))
      as (P & E & HP & Hc & Hv & _).
    replace (0 - (if ss then Z.neg ps else Z.pos ps))%Z
      with (if negb ss then Z.neg ps else Z.pos ps) by (now destruct ss).
    rewrite HP.
    destruct (canon_unique Ps Es' P E Hcs Hc ltac:(lra)) as [-> ->].
    reflexivity.
  - now rewrite Z.sub_0_r, Ea.
  - (* both non-zero *)
    set (ez := Z.min Ea' Es').
    pose proof (shl_align_value Pa Ea' ez ltac:(unfold ez; lia)) as HA.
    pose proof (shl_align_value Ps Es' ez ltac:(unfold ez; lia)) as HB.
    rewrite Hva in HA. rewrite Hvs in HB.
    set (A := fst (shl_align Pa Ea' ez)) in *.
    set (B := fst (shl_align Ps Es' ez)) in *.
    set (za := if sa then Z.neg pa else Z.pos pa) in *.
    set (zs := if ss then Z.neg ps else Z.pos ps) in *.
    set (D := (cond_Zopp sa (Z.pos A) - cond_Zopp ss (Z.pos B))%Z).
    assert (F2R D ez = IZR (za - zs)) as HD.
    { assert (IZR (cond_Zopp sa (Z.pos A)) * bpow ez = IZR za) as H1
          by (unfold za; destruct sa; cbn [cond_Zopp];
              [change (Z.neg A) with (- Z.pos A)%Z;
               change (Z.neg pa) with (- Z.pos pa)%Z;
               rewrite !opp_IZR; unfold F2R in HA; lra
              | exact HA]).
      assert (IZR (cond_Zopp ss (Z.pos B)) * bpow ez = IZR zs) as H2
          by (unfold zs; destruct ss; cbn [cond_Zopp];
              [change (Z.neg B) with (- Z.pos B)%Z;
               change (Z.neg ps) with (- Z.pos ps)%Z;
               rewrite !opp_IZR; unfold F2R in HB; lra
              | exact HB]).
      unfold D, F2R. rewrite !minus_IZR. lra. }
    pose proof (bpow_pos ez) as Hez.
    destruct (Z2F_whole_cases (za - zs) Hd)
      as [[E0 Ed] | (sd & pd & Pd & Ed' & Ezd & Ed & Hcd & Hvd & _ & HEd)];
      rewrite Ed.
    + assert (D = 0%Z) as ->; [| reflexivity].
      apply eq_IZR. rewrite E0 in HD. unfold F2R in HD. nra.
    + rewrite Ezd in HD.
      destruct sd.
      * destruct D as [| d | d].
        -- unfold F2R in HD. assert (IZR (Z.neg pd) < 0)
             by (apply IZR_lt; lia). lra.
        -- unfold F2R in HD. assert (IZR (Z.neg pd) < 0)
             by (apply IZR_lt; lia).
           assert (0 < IZR (Z.pos d)) by (apply IZR_lt; lia). nra.
        -- cbn [binary_normalize]. apply binary_round_exact;
             [exact Hcd | change (emax - prec)%Z with 971%Z; lia |].
           rewrite Hvd. unfold F2R in HD |- *.
           change (Z.neg d) with (- Z.pos d)%Z in HD.
           change (Z.neg pd) with (- Z.pos pd)%Z in HD.
           rewrite !opp_IZR in HD. lra.
      * destruct D as [| d | d].
        -- unfold F2R in HD. assert (0 < IZR (Z.pos pd))
             by (apply IZR_lt; lia). lra.
        -- cbn [binary_normalize]. apply binary_round_exact;
             [exact Hcd | change (emax - prec)%Z with 971%Z; lia |].
           rewrite Hvd. exact HD.
        -- unfold F2R in HD. assert (0 < IZR (Z.pos pd))
             by (apply IZR_lt; lia).
           assert (IZR (Z.neg d) < 0) by (apply IZR_lt; lia). nra.
Qed.

(** [Math.floor] of a finite double whose value lies in [K, K + 1). *)
Lemma Math_floor_between x s m e (K : Z) :
  Prim2SF x = S754_finite s m e ->
  IZR K <= IZR (JS.signed s m) * bpow e < IZR K + 1 ->
  JS.Math_floor x = JS.Z2F K.
Proof.
  intros Hx HK. unfold JS.Math_floor. rewrite Hx.
  destruct (Z.leb_spec 0 e) as [He | He].
  - (* an integral double *)
    assert (JS.signed s m * 2 ^ e = K)%Z as HKe.
    { rewrite (bpow_IZR e), <- mult_IZR, <- (plus_IZR K 1) in HK by lia.
      destruct HK as [H1 H2]. apply le_IZR in H1. apply lt_IZR in H2. lia. }
    assert (0 < 2 ^ e)%Z as Hpe by (apply Z.pow_pos_nonneg; lia).
    pose proof (Prim2SF_canon _ _ _ _ Hx) as Hc.
    pose proof (Prim2SF_valid x) as Hval. rewrite Hx in Hval.
    cbn [valid_binary] in Hval. unfold bounded in Hval.
    apply andb_true_iff in Hval. destruct Hval as [_ Hb].
    apply Z.leb_le in Hb.
    apply Prim2SF_inj. rewrite Hx, Prim2SF_Z2F, <- HKe.
    assert (F2R (Z.pos m * 2 ^ e) 0 = F2R (Z.pos m) e) as Hv
        by (unfold F2R; rewrite mult_IZR, <- (bpow_IZR e) by lia;
            unfold bpow at 2; cbn [powerRZ]; ring).
    destruct s; cbn [JS.signed].
    + destruct (Z.pos m * 2 ^ e)%Z as [| p | p] eqn:Ep; try lia.
      replace (Z.neg m * 2 ^ e)%Z with (Z.neg p) by lia.
      cbn [binary_normalize]. symmetry.
      now apply binary_round_exact.
    + destruct (Z.pos m * 2 ^ e)%Z as [| p | p] eqn:Ep; try lia.
      cbn [binary_normalize]. symmetry.
      now apply binary_round_exact.
  - f_equal. rewrite Z.shiftr_div_pow2 by lia.
    assert (0 < 2 ^ (- e))%Z as Hpe by (apply Z.pow_pos_nonneg; lia).
    assert (bpow e * IZR (2 ^ (- e)) = 1) as Hb.
    { rewrite <- bpow_IZR, <- bpow_add by lia.
      replace (e + - e)%Z with 0%Z by lia. reflexivity. }
    pose proof (bpow_pos e) as Hbe.
    assert (0 < IZR (2 ^ (- e))) as Hw by (apply IZR_lt; lia).
    set (W := IZR (2 ^ (- e))) in *. set (V := IZR (JS.signed s m)) in *.
    assert (V = V * bpow e * W) as HS by (rewrite Rmult_assoc, Hb; ring).
    symmetry. apply (Z.div_unique_pos _ _ _ (JS.signed s m - K * 2 ^ (- e)));
      [| ring].
    split.
    + apply Z.le_0_sub, le_IZR. rewrite mult_IZR. fold W V.
      rewrite HS. apply Rmult_le_compat_r; lra.
    + apply Z.lt_sub_lt_add_l, lt_IZR.
      rewrite plus_IZR, mult_IZR. fold W V.
      rewrite HS.
      replace (IZR K * W + W) with ((IZR K + 1) * W) by ring.
      apply Rmult_lt_compat_r; lra.
Qed.

(** For time values at most 2^53 ms apart, the double evaluation of
    [getDelayMinutes] is the floor of the exact quotient. *)
Lemma getDelayMinutes_binary64_exact (s a : Z) :
  (Z.abs s <= 2 ^ 53)%Z -> (Z.abs a <= 2 ^ 53)%Z ->
  (Z.abs (a - s) <= 2 ^ 53)%Z ->
  getDelayMinutes_binary64 s a = JS.Z2F (getDelayMinutes s a).
Proof.
  intros Hs Ha Hd.
  unfold getDelayMinutes_binary64, getTime, getDelayMinutes. cbv zeta.
  rewrite (sub_whole a s Ha Hs Hd).
  change (1000 * 60)%float with 60000%float.
  change (1000 * 60)%Z with 60000%Z.
  destruct (Z2F_whole_cases (a - s) Hd)
    as [[-> _] | (sn & p & P & E & Hn & En & Hc & Hv & Hdig & HE)];
    [vm_compute; reflexivity |].
  rewrite Hn in *.
  assert (Z.pos p <= 2 ^ 53)%Z as Hp
      by (destruct sn; cbn [Z.abs] in Hd; exact Hd).
  destruct (Z.eq_dec E 1) as [E1 | E1].
  { (* exactly 2^53 apart *)
    assert (Z.pos p = 2 ^ 53)%Z as Hp53.
    { subst E. assert (Z.pos p = 2 * Z.pos P)%Z as H2.
      { apply eq_IZR. rewrite mult_IZR, <- Hv. unfold F2R.
        replace (bpow 1) with 2 by (unfold bpow; simpl; ring). ring. }
      pose proof (digits_bounds P) as [Hl _]. rewrite Hdig in Hl.
      change (2 ^ (53 - 1))%Z with 4503599627370496%Z in Hl.
      change (2 ^ 53)%Z with 9007199254740992%Z in *. lia. }
    assert (p = 9007199254740992%positive) as -> by lia.
    destruct sn; vm_compute; reflexivity. }
  destruct (div_60000 _ sn P E p En Hdig ltac:(lia) Hv)
    as (q & e & Hr & [Hlo Hup] & Herr).
  rewrite bpow_m16 in Herr.
  pose proof (Z.div_mod (Z.pos p) 60000 ltac:(lia)) as Hdm.
  pose proof (Z.mod_pos_bound (Z.pos p) 60000 ltac:(lia)) as Hmod.
  set (K := (Z.pos p / 60000)%Z) in *.
  set (rn := (Z.pos p mod 60000)%Z) in *.
  assert (IZR (Z.pos p) = 60000 * IZR K + IZR rn) as HnR
      by (rewrite Hdm, plus_IZR, mult_IZR; reflexivity).
  assert (0 <= IZR rn <= 59999) as HrnR
      by (split; [apply IZR_le | apply (IZR_le _ 59999)]; lia).
  apply (Math_floor_between _ sn q e _ Hr).
  destruct sn; cbn [JS.signed].
  - (* an early start *)
    pose proof (Z.div_mod (Z.neg p) 60000 ltac:(lia)) as Hdm'.
    pose proof (Z.mod_pos_bound (Z.neg p) 60000 ltac:(lia)) as Hmod'.
    set (Kn := (Z.neg p / 60000)%Z) in *.
    change (IZR (Z.neg q) * bpow e) with (IZR (- Z.pos q) * bpow e).
    rewrite opp_IZR. fold (F2R (Z.pos q) e) in *.
    replace (- IZR (Z.pos q) * bpow e) with (- F2R (Z.pos q) e)
      by (unfold F2R; ring).
    destruct (Z.eqb_spec rn 0) as [H0 | H0].
    + assert (Kn = - K)%Z as -> by lia.
      rewrite opp_IZR. lra.
    + assert (Kn = - (K + 1))%Z as -> by lia.
      rewrite plus_IZR in Hup. rewrite opp_IZR, plus_IZR.
      assert (1 <= IZR rn) by (apply (IZR_le 1); lia).
      lra.
  - (* a late start *)
    fold K. fold (F2R (Z.pos q) e). lra.
Qed.

End Nearest.

(** * The delay as the engine evaluates it *)

(** C6, as the code computes it: for the time values of two valid dates at
    most 2^53 ms (some 285 000 years) apart, the double that
    [getDelayMinutes] returns is the floor [q] of [(a - s) / 60000], the
    greatest integer with [60000 * q <= a - s].  It is negative exactly
    when the actual start precedes the scheduled one, be it by a single
    millisecond; it is below -1 exactly when the start is more than a
    whole minute early; and on an early start that is not a whole number
    of minutes it is one below the quotient truncated toward zero. *)
Theorem getDelayMinutes_floor (s a : Z) :
  valid_time s -> valid_time a -> (Z.abs (a - s) <= 2 ^ 53)%Z ->
  let q := getDelayMinutes s a in
  getDelayMinutes_binary64 s a = JS.Z2F q
  /\ (60000 * q <= a - s < 60000 * (q + 1))%Z
  /\ ((q < 0)%Z <-> (a < s)%Z)
  /\ ((q < -1)%Z <-> (a - s < -60000)%Z)
  /\ ((a < s)%Z -> ((a - s) mod 60000 <> 0)%Z ->
      q = (Z.quot (a - s) 60000 - 1)%Z).
Proof.
  unfold valid_time. intros Hs Ha Hd; cbv zeta.
  split.
  { apply getDelayMinutes_binary64_exact;
      change (2 ^ 53)%Z with 9007199254740992%Z in *; lia. }
  clear Hs Ha Hd.
  unfold getDelayMinutes; cbv zeta.
  change (1000 * 60)%Z with 60000%Z.
  pose proof (Z.div_mod (a - s) 60000 ltac:(lia)) as Hdm.
  pose proof (Z.mod_pos_bound (a - s) 60000 ltac:(lia)) as Hm.
  repeat split; try lia.
  intros Hlt Hnz.
  pose proof (Z.quot_rem (a - s) 60000 ltac:(lia)) as Hqr.
  pose proof (Z.rem_bound_pos_neg (a - s) 60000 ltac:(lia) ltac:(lia)) as Hr.
  assert (Z.rem (a - s) 60000 <> 0)%Z as Hr0.
  { intro H0. rewrite Z.rem_divide in H0 by lia.
    apply Hnz. apply Z.mod_divide; [lia | exact H0]. }
  lia.
Qed.

(** A start one millisecond early. *)
Lemma getDelayMinutes_floor_witness :
  valid_time 0 /\ valid_time (-1) /\ (Z.abs (-1 - 0) <= 2 ^ 53)%Z
  /\ getDelayMinutes_binary64 0 (-1) = JS.Z2F (-1)
  /\ (getDelayMinutes 0 (-1) < 0)%Z.
Proof.
  assert (valid_time 0) as H0 by (unfold valid_time; cbn; lia).
  assert (valid_time (-1)) as H1 by (unfold valid_time; cbn; lia).
  assert (Z.abs (-1 - 0) <= 2 ^ 53)%Z as Hd by (cbn; lia).
  destruct (getDelayMinutes_floor 0 (-1) H0 H1 Hd) as (Hq & _ & Hneg & _).
  split; [exact H0 | split; [exact H1 | split; [exact Hd |]]].
  split; [exact Hq | apply Hneg; lia].
Defined.

(** C6, as stated, fails on two counts.  The result is negative for a start
    one millisecond early, which is not a whole minute early.  And for
    valid dates more than 2^53 ms apart the subtraction of the two time
    values is rounded: 59 007 ms beyond 2^53 the code returns
    150119987580 where the floor of the exact quotient is 150119987579,
    and between the earliest and the latest valid date it returns
    288000000000 where the floor is 287999999999. *)
Lemma getDelayMinutes_far_apart :
  getDelayMinutes_binary64 0 (-1) = (-1)%float
  /\ ~ (-1 - 0 < -60000)%Z
  /\ valid_time (-1000000000000000) /\ valid_time 8007199254799999
  /\ (8007199254799999 - -1000000000000000 = 2 ^ 53 + 59007)%Z
  /\ getDelayMinutes_binary64 (-1000000000000000) 8007199254799999
     = 150119987580%float
  /\ ((8007199254799999 - -1000000000000000) / 60000 = 150119987579)%Z
  /\ getDelayMinutes_binary64 (-1000000000000000) 8007199254799999
     <> JS.Z2F ((8007199254799999 - -1000000000000000) / 60000)
  /\ valid_time (-8640000000000000) /\ valid_time 8639999999999999
  /\ getDelayMinutes_binary64 (-8640000000000000) 8639999999999999
     = 288000000000%float
  /\ ((8639999999999999 - -8640000000000000) / 60000 = 287999999999)%Z.
Proof.
  unfold valid_time.
  repeat split; try (vm_compute; reflexivity); try (cbn; lia).
  apply F2Q_neq; vm_compute; discriminate.
Qed.
